(** * go-wc: the streaming counter and the ordered collector

    A shallow embedding of [pkg/wc] (the chunked scanner [CountReader], its
    in-memory wrapper [CountBytes] and the ASCII whitespace table) and of the
    collector of [cmd/go_wc] (the index-keyed pending map, the totals and the
    exit status), followed by the properties of the design document.

    Conventions.
    - A [uint64] counter is a [Z] kept in [0, 2^64) by [wrap64]; every Go
      [+=] and [++] on a counter is written with [add64].
    - A byte is a [Byte.byte]; [bval] is its value in [0, 256).
    - A Go [error] is its message; [nil] is [None].
    - A [*bufio.Reader] is consumed only through [Read]; [Source] lists what
      the successive calls return, bytes and error, and what the reader
      reports once it is exhausted. *)

From Stdlib Require Import ZArith List Bool Lia String Ascii.
From Stdlib Require Import Strings.Byte.
From stdpp Require Import gmap list.
Import ListNotations.

Local Open Scope Z_scope.

(** ** Machine integers and bytes *)

Definition wrap64 (x : Z) : Z := x mod 2 ^ 64.

Definition add64 (x y : Z) : Z := wrap64 (x + y).

Definition bval (b : byte) : Z := Z.of_N (Byte.to_N b).

Definition error : Type := string.

(** ** pkg/wc/locale *)

Module locale.

Record Info : Type := mkInfo {
  Encoding : string;
  IsUTF8 : bool;
  IsCOrPOSIX : bool
}.

End locale.

(** ** pkg/wc/ascii.go *)

(** The table [asciiSpace]: a 256-entry array of booleans, all false except
    the six entries set by the initialiser. *)
Definition asciiSpace (b : byte) : bool :=
  (bval b =? 9) || (bval b =? 10) || (bval b =? 11) ||
  (bval b =? 12) || (bval b =? 13) || (bval b =? 32).

(** ** The two standard-library functions the scanner calls *)

Definition RuneError : Z := 0xFFFD.

(** [unicode/utf8]: the table [first] gives, for a leading byte, the size of
    the sequence in its low three bits and the index of the accepted range of
    the second byte in its high four bits; [0xF0] marks ASCII and [0xF1] an
    illegal leading byte. *)
Definition first (p0 : Z) : Z :=
  if p0 <? 0x80 then 0xF0
  else if p0 <? 0xC2 then 0xF1
  else if p0 <? 0xE0 then 0x02
  else if p0 =? 0xE0 then 0x13
  else if p0 <? 0xED then 0x03
  else if p0 =? 0xED then 0x23
  else if p0 <? 0xF0 then 0x03
  else if p0 =? 0xF0 then 0x34
  else if p0 <? 0xF4 then 0x04
  else if p0 =? 0xF4 then 0x44
  else 0xF1.

Definition acceptRanges (i : Z) : Z * Z :=
  if i =? 0 then (0x80, 0xBF)
  else if i =? 1 then (0xA0, 0xBF)
  else if i =? 2 then (0x80, 0x9F)
  else if i =? 3 then (0x90, 0xBF)
  else if i =? 4 then (0x80, 0x8F)
  else (0, 0).

Definition continuation (b : Z) : bool := (0x80 <=? b) && (b <=? 0xBF).

(** [utf8.DecodeRune]: the first rune of [p] and its width in bytes;
    [(RuneError, 0)] on empty input and [(RuneError, 1)] on an encoding that
    is illegal or cut short. *)
Definition DecodeRune (p : list byte) : Z * Z :=
  match p with
  | [] => (RuneError, 0)
  | b0 :: p1 =>
    let p0 := bval b0 in
    let x := first p0 in
    if 0xF0 <=? x then
      (if Z.testbit x 0 then RuneError else p0, 1)
    else
      let sz := Z.land x 7 in
      let accept := acceptRanges (Z.shiftr x 4) in
      if Z.of_nat (length p) <? sz then (RuneError, 1) else
      match p1 with
      | [] => (RuneError, 1)
      | c1 :: p2 =>
        let b1 := bval c1 in
        if (b1 <? fst accept) || (snd accept <? b1) then (RuneError, 1) else
        if sz <=? 2 then
          (Z.lor (Z.shiftl (Z.land p0 0x1F) 6) (Z.land b1 0x3F), 2)
        else
        match p2 with
        | [] => (RuneError, 1)
        | c2 :: p3 =>
          let b2 := bval c2 in
          if negb (continuation b2) then (RuneError, 1) else
          if sz <=? 3 then
            (Z.lor (Z.lor (Z.shiftl (Z.land p0 0x0F) 12)
                          (Z.shiftl (Z.land b1 0x3F) 6))
                   (Z.land b2 0x3F), 3)
          else
          match p3 with
          | [] => (RuneError, 1)
          | c3 :: _ =>
            let b3 := bval c3 in
            if negb (continuation b3) then (RuneError, 1) else
            (Z.lor (Z.lor (Z.lor (Z.shiftl (Z.land p0 0x07) 18)
                                 (Z.shiftl (Z.land b1 0x3F) 12))
                          (Z.shiftl (Z.land b2 0x3F) 6))
                   (Z.land b3 0x3F), 4)
          end
        end
      end
  end.

(** [unicode.IsSpace]: in Latin-1 the six ASCII spaces, U+0085 and U+00A0;
    beyond it the [White_Space] property. *)
Definition IsSpace (r : Z) : bool :=
  if (0 <=? r) && (r <=? 0xFF) then
    (r =? 9) || (r =? 10) || (r =? 11) || (r =? 12) || (r =? 13) ||
    (r =? 32) || (r =? 0x85) || (r =? 0xA0)
  else
    (r =? 0x1680) || ((0x2000 <=? r) && (r <=? 0x200A)) ||
    (r =? 0x2028) || (r =? 0x2029) || (r =? 0x202F) ||
    (r =? 0x205F) || (r =? 0x3000).

(** ** pkg/wc/wc.go: the data model *)

Module Metrics.

Record t : Type := mk {
  Lines : bool;
  Words : bool;
  Bytes : bool;
  Chars : bool;
  MaxLineBytes : bool;
  MaxLineChars : bool
}.

End Metrics.

Record Options : Type := mkOptions {
  BufferSize : Z;
  Locale : locale.Info
}.

Record FileResult : Type := mkFileResult {
  Index : Z;
  Filename : string;
  Lines : Z;
  Words : Z;
  Bytes : Z;
  Chars : Z;
  MaxLineBytes : Z;
  MaxLineChars : Z;
  Err : option error;
  Duration : Z
}.

(** [var res FileResult]: the zero value. *)
Definition zeroResult : FileResult :=
  mkFileResult 0 EmptyString 0 0 0 0 0 0 None 0.

Definition set_Index (v : Z) (r : FileResult) : FileResult :=
  mkFileResult v (Filename r) (Lines r) (Words r) (Bytes r) (Chars r)
               (MaxLineBytes r) (MaxLineChars r) (Err r) (Duration r).

Definition set_Filename (v : string) (r : FileResult) : FileResult :=
  mkFileResult (Index r) v (Lines r) (Words r) (Bytes r) (Chars r)
               (MaxLineBytes r) (MaxLineChars r) (Err r) (Duration r).

Definition set_Lines (v : Z) (r : FileResult) : FileResult :=
  mkFileResult (Index r) (Filename r) v (Words r) (Bytes r) (Chars r)
               (MaxLineBytes r) (MaxLineChars r) (Err r) (Duration r).

Definition set_Words (v : Z) (r : FileResult) : FileResult :=
  mkFileResult (Index r) (Filename r) (Lines r) v (Bytes r) (Chars r)
               (MaxLineBytes r) (MaxLineChars r) (Err r) (Duration r).

Definition set_Bytes (v : Z) (r : FileResult) : FileResult :=
  mkFileResult (Index r) (Filename r) (Lines r) (Words r) v (Chars r)
               (MaxLineBytes r) (MaxLineChars r) (Err r) (Duration r).

Definition set_Chars (v : Z) (r : FileResult) : FileResult :=
  mkFileResult (Index r) (Filename r) (Lines r) (Words r) (Bytes r) v
               (MaxLineBytes r) (MaxLineChars r) (Err r) (Duration r).

Definition set_MaxLineBytes (v : Z) (r : FileResult) : FileResult :=
  mkFileResult (Index r) (Filename r) (Lines r) (Words r) (Bytes r) (Chars r)
               v (MaxLineChars r) (Err r) (Duration r).

Definition set_MaxLineChars (v : Z) (r : FileResult) : FileResult :=
  mkFileResult (Index r) (Filename r) (Lines r) (Words r) (Bytes r) (Chars r)
               (MaxLineBytes r) v (Err r) (Duration r).

Definition set_Err (v : option error) (r : FileResult) : FileResult :=
  mkFileResult (Index r) (Filename r) (Lines r) (Words r) (Bytes r) (Chars r)
               (MaxLineBytes r) (MaxLineChars r) v (Duration r).

Definition set_Duration (v : Z) (r : FileResult) : FileResult :=
  mkFileResult (Index r) (Filename r) (Lines r) (Words r) (Bytes r) (Chars r)
               (MaxLineBytes r) (MaxLineChars r) (Err r) v.

(** The local variables of [CountReader] that live across reads. *)
Record Counting : Type := mkCounting {
  res : FileResult;
  prevSpace : bool;
  curLineBytes : Z;
  curLineChars : Z;
  asciiMode : bool;
  carry : list byte
}.

Definition with_res (f : FileResult -> FileResult) (s : Counting) : Counting :=
  mkCounting (f (res s)) (prevSpace s) (curLineBytes s) (curLineChars s)
             (asciiMode s) (carry s).

Definition set_prevSpace (v : bool) (s : Counting) : Counting :=
  mkCounting (res s) v (curLineBytes s) (curLineChars s) (asciiMode s) (carry s).

Definition set_curLineBytes (v : Z) (s : Counting) : Counting :=
  mkCounting (res s) (prevSpace s) v (curLineChars s) (asciiMode s) (carry s).

Definition set_curLineChars (v : Z) (s : Counting) : Counting :=
  mkCounting (res s) (prevSpace s) (curLineBytes s) v (asciiMode s) (carry s).

Definition set_asciiMode (v : bool) (s : Counting) : Counting :=
  mkCounting (res s) (prevSpace s) (curLineBytes s) (curLineChars s) v (carry s).

Definition set_carry (v : list byte) (s : Counting) : Counting :=
  mkCounting (res s) (prevSpace s) (curLineBytes s) (curLineChars s)
             (asciiMode s) v.

(** The non-nil errors of [r.Read(buf)]: [io.EOF], or a failure. *)
Inductive ending : Type :=
  | EOF : ending
  | Failed : error -> ending.

(** A reader, as seen through [r.Read(buf)]: [reads] lists what the
    successive calls return, the bytes and the error ([None] for nil);
    every call after those returns no bytes and [at_end]. *)
Record Source : Type := mkSource {
  reads : list (list byte * option ending);
  at_end : ending
}.

(** The reader that delivers the chunks [cs], each with a nil error, and
    then reports [fin]. *)
Definition plain (cs : list (list byte)) (fin : ending) : Source :=
  mkSource (map (fun c => (c, None)) cs) fin.

(** ** pkg/wc/wc.go: [CountReader] *)

Section Scanner.

Variable m : Metrics.t.

(** The block run at a counted newline (it occurs three times in the
    source, once per code path): count the line, fold the two in-progress
    lengths into their maxima, and start a new line. *)
Definition line_end (s : Counting) : Counting :=
  let s := with_res (fun r => set_Lines (add64 (Lines r) 1) r) s in
  let s :=
    if Metrics.MaxLineBytes m && (MaxLineBytes (res s) <? curLineBytes s)
    then with_res (set_MaxLineBytes (curLineBytes s)) s else s in
  let s :=
    if Metrics.MaxLineChars m && (MaxLineChars (res s) <? curLineChars s)
    then with_res (set_MaxLineChars (curLineChars s)) s else s in
  set_curLineChars 0 (set_curLineBytes 0 s).

(** [curLineBytes += k] and [curLineChars++], each under its selector. *)
Definition grow_line (k : Z) (s : Counting) : Counting :=
  let s :=
    if Metrics.MaxLineBytes m
    then set_curLineBytes (add64 (curLineBytes s) k) s else s in
  if Metrics.MaxLineChars m
  then set_curLineChars (add64 (curLineChars s) 1) s else s.

(** The edge-triggered word counter. *)
Definition word_edge (sp : bool) (s : Counting) : Counting :=
  if Metrics.Words m then
    let s :=
      if negb sp && prevSpace s
      then with_res (fun r => set_Words (add64 (Words r) 1) r) s else s in
    set_prevSpace sp s
  else s.

Definition count_char (s : Counting) : Counting :=
  if Metrics.Chars m
  then with_res (fun r => set_Chars (add64 (Chars r) 1) r) s else s.

(** The body of the loop of the ASCII fast path, for one byte. *)
Definition ascii_byte (s : Counting) (b : byte) : Counting :=
  let s :=
    if Metrics.Lines m && (bval b =? 10) then line_end s
    else grow_line 1 s in
  word_edge (asciiSpace b) s.

(** The fast path for one chunk; [Chars] is bumped by the chunk length
    afterwards. *)
Definition ascii_chunk (s : Counting) (chunk : list byte) : Counting :=
  let s := fold_left ascii_byte chunk s in
  if Metrics.Chars m
  then with_res (fun r =>
         set_Chars (add64 (Chars r) (Z.of_nat (length chunk))) r) s
  else s.

(** The branch for [r == utf8.RuneError && size == 1]; [b] is [data[0]]. *)
Definition invalid_byte (s : Counting) (b : byte) : Counting :=
  let s := count_char s in
  let s := grow_line 1 s in
  let s := if Metrics.Lines m && (bval b =? 10) then line_end s else s in
  word_edge (asciiSpace b) s.

(** The rest of the loop body, for a decoded rune [r] of width [size]. *)
Definition valid_rune (s : Counting) (r size : Z) : Counting :=
  let s := count_char s in
  let s := word_edge (IsSpace r) s in
  if Metrics.Lines m then
    if r =? 10 then line_end s else grow_line size s
  else grow_line size s.

(** One iteration of [for len(data) > 0]: the new state and [data]. *)
Definition decode_step (s : Counting) (data : list byte)
  : Counting * list byte :=
  match data with
  | [] => (s, [])
  | b :: _ =>
    let '(r, size) := DecodeRune data in
    if (r =? RuneError) && (size =? 1)
    then (invalid_byte s b, skipn 1 data)
    else (valid_rune s r size, skipn (Z.to_nat size) data)
  end.

(** The loop [for len(data) > 0]; every iteration drops at least one byte,
    so [length data] iterations are enough (see [decode_loop_fold]). *)
Fixpoint decode_loop (fuel : nat) (s : Counting) (data : list byte)
  : Counting * list byte :=
  match fuel with
  | O => (s, data)
  | S fuel' =>
    match data with
    | [] => (s, [])
    | _ :: _ =>
      let '(s', data') := decode_step s data in
      decode_loop fuel' s' data'
    end
  end.

(** The multibyte path for one chunk, from [data := append(carry, chunk...)]
    to the stash of what the loop left over. *)
Definition rune_chunk (s : Counting) (chunk : list byte) : Counting :=
  let data := carry s ++ chunk in
  let s := set_carry [] s in
  let '(s, data) := decode_loop (length data) s data in
  if (0 <? Z.of_nat (length chunk)) && (0 <? Z.of_nat (length data))
  then set_carry (carry s ++ data) s
  else s.

Variable opt : Options.

(** The choice of path for a non-empty chunk: the fast path while
    [asciiMode] holds and, outside the C locale, the chunk has no byte
    above 0x7F; the multibyte path from then on.  The flag tells whether
    the [continue] that ends the fast path was reached. *)
Definition route (s : Counting) (chunk : list byte) : Counting * bool :=
  if asciiMode s then
    let s :=
      if negb (locale.IsCOrPOSIX (Locale opt)) then
        if existsb (fun b => 0x80 <=? bval b) chunk
        then set_asciiMode false s else s
      else s in
    if asciiMode s then (ascii_chunk s chunk, true)
    else (rune_chunk s chunk, false)
  else (rune_chunk s chunk, false).

(** The body of [if n > 0 { ... }] for the chunk a read returned. *)
Definition read_body (s : Counting) (chunk : list byte) : Counting * bool :=
  let n := Z.of_nat (length chunk) in
  if 0 <? n then
    route (with_res (fun r => set_Bytes (add64 (Bytes r) n) r) s) chunk
  else (s, false).

(** The state after the body. *)
Definition process_chunk (s : Counting) (chunk : list byte) : Counting :=
  fst (read_body s chunk).

Definition initial : Counting :=
  mkCounting zeroResult true 0 0
    (locale.IsCOrPOSIX (Locale opt) || locale.IsUTF8 (Locale opt)) [].

(** The two tests on [err] at the bottom of the loop, for a non-nil
    [err]: both leave the loop, a failure is recorded first. *)
Definition stop (s : Counting) (e : ending) : Counting :=
  match e with
  | EOF => s
  | Failed e => with_res (set_Err (Some e)) s
  end.

(** The read loop.  After the fast path the [continue] goes straight to the
    next read, past the tests on [err]; otherwise a non-nil [err] ends the
    loop.  Once the listed reads are used up the reader returns no bytes and
    its final error. *)
Fixpoint read_loop (s : Counting) (rs : list (list byte * option ending))
    (fin : ending) : Counting :=
  match rs with
  | [] => stop s fin
  | (chunk, err) :: rs' =>
    let '(s', continued) := read_body s chunk in
    if continued then read_loop s' rs' fin
    else
      match err with
      | None => read_loop s' rs' fin
      | Some e => stop s' e
      end
  end.

(** The state when the read loop is left. *)
Definition scan (src : Source) : Counting :=
  read_loop initial (reads src) (at_end src).

(** The code after the loop: the last line, unless the read failed. *)
Definition finish (s : Counting) : FileResult :=
  match Err (res s) with
  | None =>
    let r := res s in
    let r :=
      if Metrics.MaxLineBytes m && (MaxLineBytes r <? curLineBytes s)
      then set_MaxLineBytes (curLineBytes s) r else r in
    if Metrics.MaxLineChars m && (MaxLineChars r <? curLineChars s)
    then set_MaxLineChars (curLineChars s) r else r
  | Some _ => res s
  end.

End Scanner.

Definition CountReader (src : Source) (m : Metrics.t) (opt : Options)
  : FileResult :=
  finish m (scan m opt src).

(** ** pkg/wc/wc.go: [bytesReader] and [CountBytes] *)

Record bytesReader : Type := mkBytesReader {
  b : list byte;
  off : nat
}.

(** [bytesReader.Read] into a buffer of [plen] bytes: the bytes copied,
    the error returned, and the reader afterwards. *)
Definition bytesReader_Read (r : bytesReader) (plen : nat)
  : list byte * option ending * bytesReader :=
  if (length (b r) <=? off r)%nat then ([], Some EOF, r)
  else
    let chunk := firstn plen (skipn (off r) (b r)) in
    (chunk, None, mkBytesReader (b r) (off r + length chunk)).

(** [bufio.Reader] over a [bytesReader], as far as [Read] is concerned:
    the unread part of its buffer, the size of that buffer, and the error
    it holds back until the buffer is empty. *)
Record bufioReader : Type := mkBufioReader {
  rd : bytesReader;
  bufSize : nat;
  unread : list byte;
  held : option ending
}.

(** [bufio.NewReaderSize]: the buffer has at least 16 bytes. *)
Definition NewReaderSize (r : bytesReader) (size : nat) : bufioReader :=
  mkBufioReader r (Nat.max size 16) [] None.

(** [bufio.Reader.Read]: with an empty buffer a read of at least the
    buffer size goes straight to the underlying reader, a smaller one fills
    the buffer by one underlying read; then as much as fits is copied out. *)
Definition bufio_Read (r : bufioReader) (plen : nat)
  : list byte * option ending * bufioReader :=
  match plen with
  | O =>
    match unread r with
    | _ :: _ => ([], None, r)
    | [] => ([], held r, mkBufioReader (rd r) (bufSize r) [] None)
    end
  | S _ =>
    match unread r with
    | _ :: _ =>
      (firstn plen (unread r), None,
       mkBufioReader (rd r) (bufSize r) (skipn plen (unread r)) (held r))
    | [] =>
      match held r with
      | Some e => ([], Some e, mkBufioReader (rd r) (bufSize r) [] None)
      | None =>
        if (bufSize r <=? plen)%nat then
          let '(chunk, e, rd') := bytesReader_Read (rd r) plen in
          (chunk, e, mkBufioReader rd' (bufSize r) [] None)
        else
          let '(chunk, e, rd') := bytesReader_Read (rd r) (bufSize r) in
          match chunk with
          | [] => ([], e, mkBufioReader rd' (bufSize r) [] None)
          | _ :: _ =>
            (firstn plen chunk, None,
             mkBufioReader rd' (bufSize r) (skipn plen chunk) e)
          end
      end
    end
  end.

(** The reads the loop of [CountReader] gets from [r] with a buffer of
    [plen] bytes, up to the first one that returns an error, which the
    reader goes on returning; [None] when [fuel] reads do not reach it. *)
Fixpoint read_all (fuel : nat) (r : bufioReader) (plen : nat)
  : option Source :=
  match fuel with
  | O => None
  | S fuel' =>
    let '(chunk, e, r') := bufio_Read r plen in
    match e with
    | Some fin => Some (mkSource [(chunk, Some fin)] fin)
    | None =>
      match read_all fuel' r' plen with
      | Some src => Some (mkSource ((chunk, None) :: reads src) (at_end src))
      | None => None
      end
    end
  end.

(** [CountBytes].  [make([]byte, opt.BufferSize)] panics on a negative size,
    and with size 0 no read ever returns an error, so the loop does not end:
    both are [None].  Otherwise at most [len(b) + 1] reads happen. *)
Definition CountBytes (data : list byte) (m : Metrics.t) (opt : Options)
  : option FileResult :=
  if BufferSize opt <? 0 then None
  else
    let size := Z.to_nat (BufferSize opt) in
    let br := NewReaderSize (mkBytesReader data 0) size in
    match read_all (length data + 2) br size with
    | Some src => Some (CountReader src m opt)
    | None => None
    end.

(** ** Inputs of the test suite *)

Definition bytes (s : string) : list byte := list_byte_of_string s.

Definition nl : byte := x0a.

Definition utf8 : locale.Info := locale.mkInfo "utf-8" true false.
Definition posix : locale.Info := locale.mkInfo "C" false true.
Definition latin1 : locale.Info := locale.mkInfo "iso-8859-1" false false.

Definition counts (r : FileResult) : list Z :=
  [Lines r; Words r; Bytes r; Chars r; MaxLineBytes r; MaxLineChars r].

Definition all_metrics : Metrics.t := Metrics.mk true true true true true true.
Definition lwbc : Metrics.t := Metrics.mk true true true true false false.

(** ** cmd/go_wc/main.go: one job of a worker *)

(** What [os.Open] gave. *)
Inductive opened : Type :=
  | OpenFailed : error -> opened
  | Opened : Source -> opened.

(** [wc.FileResult{Filename: j.name, Err: e}]. *)
Definition failed_result (name : string) (e : error) : FileResult :=
  mkFileResult 0 name 0 0 0 0 0 0 (Some e) 0.

(** The branch of the worker for a named file; [elapsed] is what
    [time.Since(start)] returns. *)
Definition file_job (idx : Z) (name : string) (f : opened) (elapsed : Z)
    (m : Metrics.t) (opt : Options) : FileResult :=
  let fr :=
    match f with
    | OpenFailed e => failed_result name e
    | Opened src => set_Filename name (CountReader src m opt)
    end in
  set_Index idx (set_Duration elapsed fr).

(** The branch of the worker for ["-"], once [stdinOnce.Do] has returned
    with [stdinData] and [stdinErr] set. *)
Definition stdin_job (idx : Z) (name : string) (stdinData : list byte)
    (stdinErr : option error) (elapsed : Z) (m : Metrics.t) (opt : Options)
  : option FileResult :=
  let fr :=
    match stdinErr with
    | Some e => Some (failed_result name e)
    | None => option_map (set_Filename name) (CountBytes stdinData m opt)
    end in
  option_map (fun fr => set_Index idx (set_Duration elapsed fr)) fr.

(** ** cmd/go_wc/main.go: collecting results in input order *)

(** The variables of the loop under [// Collect and print in order]. *)
Record Collector : Type := mkCollector {
  pending : gmap Z FileResult;
  next : Z;
  exitCode : Z;
  all : list FileResult
}.

Definition collector0 : Collector := mkCollector ∅ 0 0 [].

(** The inner [for]: move [pending[next]] to [all] while it is there.  Each
    round deletes one key, so [size pending] rounds reach the [break]
    (see [release_reaches_break]). *)
Fixpoint release (fuel : nat) (c : Collector) : Collector :=
  match fuel with
  | O => c
  | S fuel' =>
    match pending c !! next c with
    | Some pr =>
      release fuel'
        (mkCollector (delete (next c) (pending c)) (next c + 1)
                     (exitCode c) (all c ++ [pr]))
    | None => c
    end
  end.

(** One round of [for range inputs], with the result received. *)
Definition receive (c : Collector) (r : FileResult) : Collector :=
  let code := match Err r with Some _ => 1 | None => exitCode c end in
  let p := <[Index r := r]> (pending c) in
  release (size p) (mkCollector p (next c) code (all c)).

(** The whole loop, for the results in the order the channel delivers
    them. *)
Definition collect (arrivals : list FileResult) : Collector :=
  fold_left receive arrivals collector0.

(** The body of the loop under [// Compute totals and formatting]. *)
Definition add_to_totals (totals r : FileResult) : FileResult :=
  match Err r with
  | None =>
    let t := set_Lines (add64 (Lines totals) (Lines r)) totals in
    let t := set_Words (add64 (Words t) (Words r)) t in
    let t := set_Bytes (add64 (Bytes t) (Bytes r)) t in
    let t := set_Chars (add64 (Chars t) (Chars r)) t in
    let t :=
      if MaxLineBytes t <? MaxLineBytes r
      then set_MaxLineBytes (MaxLineBytes r) t else t in
    if MaxLineChars t <? MaxLineChars r
    then set_MaxLineChars (MaxLineChars r) t else t
  | Some _ => totals
  end.

Definition compute_totals (results : list FileResult) : FileResult :=
  fold_left add_to_totals results zeroResult.

(** What the run writes: a formatted line on standard output for a result
    (the formatter turns the result into text), a diagnostic on standard
    error for a failure. *)
Inductive output : Type :=
  | Stdout : FileResult -> output
  | Stderr : string -> error -> output.

(** The loop under [// Print results]. *)
Definition print_result (r : FileResult) : output :=
  match Err r with
  | Some e => Stderr (Filename r) e
  | None => Stdout r
  end.

(** From the results as they arrive to what is written and the status
    passed to [os.Exit]; [n] is [len(inputs)]. *)
Definition report (n : nat) (arrivals : list FileResult) : list output * Z :=
  let c := collect arrivals in
  let totals := compute_totals (all c) in
  (map print_result (all c) ++
   (if (1 <? n)%nat then [Stdout (set_Filename "total" totals)] else []),
   exitCode c).

(** ** The characters a scan sees *)

(** What one round of either loop consumes: a byte of the fast path, a byte
    the decoder rejects, or a decoded rune with its width. *)
Inductive event : Type :=
  | Plain : byte -> event
  | Invalid : byte -> event
  | Rune : Z -> Z -> event.

Definition ev_step (m : Metrics.t) (s : Counting) (e : event) : Counting :=
  match e with
  | Plain c => count_char m (ascii_byte m s c)
  | Invalid c => invalid_byte m s c
  | Rune r size => valid_rune m s r size
  end.

(** Whether the scanner takes the character for white space, and for the
    newline. *)
Definition ev_space (e : event) : bool :=
  match e with
  | Plain c | Invalid c => asciiSpace c
  | Rune r _ => IsSpace r
  end.

Definition ev_newline (e : event) : bool :=
  match e with
  | Plain c | Invalid c => bval c =? 10
  | Rune r _ => r =? 10
  end.

(** The events of the decoding loop on [data], round by round. *)
Fixpoint decode_events (fuel : nat) (data : list byte) : list event :=
  match fuel with
  | O => []
  | S fuel' =>
    match data with
    | [] => []
    | c :: _ =>
      let '(r, size) := DecodeRune data in
      if (r =? RuneError) && (size =? 1)
      then Invalid c :: decode_events fuel' (skipn 1 data)
      else Rune r size :: decode_events fuel' (skipn (Z.to_nat size) data)
    end
  end.

(** The events of one chunk: in the C locale every byte goes through the
    fast path; elsewhere the chunk is decoded (for a chunk without a byte
    above 0x7F the fast path does the same, see [ascii_chunk_decoded]). *)
Definition chunk_events (opt : Options) (chunk : list byte) : list event :=
  if locale.IsCOrPOSIX (Locale opt) then map Plain chunk
  else decode_events (length chunk) chunk.

Definition has_high (chunk : list byte) : bool :=
  existsb (fun c => 0x80 <=? bval c) chunk.

(** The mode after a read. *)
Definition next_mode (opt : Options) (a : bool) (chunk : list byte) : bool :=
  a && (locale.IsCOrPOSIX (Locale opt) || negb (has_high chunk)).

(** The chunks the read loop gets through before it stops, and the error it
    stops at ([None] when the listed reads are used up); [a] is the mode
    before the first read.  A read is followed by another when its error is
    nil, or when it brought bytes that went through the fast path. *)
Fixpoint taken (opt : Options) (a : bool)
    (rs : list (list byte * option ending))
  : list (list byte) * option ending :=
  match rs with
  | [] => ([], None)
  | (chunk, err) :: rs' =>
    let a' := next_mode opt a chunk in
    let go_on :=
      match err with
      | None => true
      | Some _ => (0 <? Z.of_nat (length chunk)) && a'
      end in
    if go_on
    then let '(cs, e) := taken opt a' rs' in (chunk :: cs, e)
    else ([chunk], err)
  end.

(** The chunks a run of [CountReader] reads. *)
Definition chunks (opt : Options) (src : Source) : list (list byte) :=
  fst (taken opt (asciiMode (initial opt)) (reads src)).

(** The error the read loop ends on. *)
Definition outcome (opt : Options) (src : Source) : ending :=
  match snd (taken opt (asciiMode (initial opt)) (reads src)) with
  | Some e => e
  | None => at_end src
  end.

Definition events (opt : Options) (src : Source) : list event :=
  concat (map (chunk_events opt) (chunks opt src)).

(** The number of words in a sequence of white-space flags, by the edge
    rule, starting after a character with flag [prev]. *)
Fixpoint words_from (prev : bool) (l : list bool) : Z :=
  match l with
  | [] => 0
  | sp :: l' => (if negb sp && prev then 1 else 0) + words_from sp l'
  end.

Definition count_newlines (l : list event) : Z :=
  Z.of_nat (length (List.filter ev_newline l)).

(** ** Streams one after the other, and forced decoding *)

(** A word spans the junction of two streams when the last character of the
    first and the first character of the second are both not white space. *)
Definition spans_junction (opt : Options) (s1 s2 : Source) : bool :=
  match last (events opt s1), head (events opt s2) with
  | Some e1, Some e2 => negb (ev_space e1) && negb (ev_space e2)
  | _, _ => false
  end.

(** No read ends inside a character: decoded read by read, the chunks give
    the characters of their concatenation decoded in one piece. *)
Definition whole_characters (opt : Options) (cs : list (list byte)) : Prop :=
  concat (map (chunk_events opt) cs) = chunk_events opt (concat cs).

(** The scan with the fast path switched off: every chunk is decoded, and
    so every non-nil error is acted upon. *)
Definition decoding_chunk (m : Metrics.t) (s : Counting) (chunk : list byte)
  : Counting :=
  let n := Z.of_nat (length chunk) in
  if 0 <? n then
    rune_chunk m (with_res (fun r => set_Bytes (add64 (Bytes r) n) r) s) chunk
  else s.

Fixpoint decoding_loop (m : Metrics.t) (s : Counting)
    (rs : list (list byte * option ending)) (fin : ending) : Counting :=
  match rs with
  | [] => stop s fin
  | (chunk, err) :: rs' =>
    let s' := decoding_chunk m s chunk in
    match err with
    | None => decoding_loop m s' rs' fin
    | Some e => stop s' e
    end
  end.

Definition CountReader_decoding (src : Source) (m : Metrics.t) : FileResult :=
  finish m
    (decoding_loop m (mkCounting zeroResult true 0 0 false [])
                   (reads src) (at_end src)).

(** No read brings a byte above 0x7F. *)
Definition ascii_only (src : Source) : Prop :=
  Forall (fun rd => Forall (fun c => bval c < 0x80) (fst rd)) (reads src).

(** No read brings bytes and a non-nil error at once. *)
Definition errors_come_alone (src : Source) : Prop :=
  Forall (fun rd => fst rd = [] \/ snd rd = None) (reads src).

(** The states at the start and after each read. *)
Fixpoint run_states (m : Metrics.t) (opt : Options) (s : Counting)
    (cs : list (list byte)) : list Counting :=
  s :: match cs with
       | [] => []
       | c :: cs' => run_states m opt (process_chunk m opt s c) cs'
       end.

(** The values of [asciiMode] at the start and after each read. *)
Definition mode_trace (m : Metrics.t) (opt : Options) (src : Source)
  : list bool :=
  map asciiMode (run_states m opt (initial opt) (chunks opt src)).

(** ** Notions used in the statements and proofs *)

(** [Chars += k], under its selector. *)
Definition add_chars (m : Metrics.t) (k : Z) (s : Counting) : Counting :=
  if Metrics.Chars m
  then with_res (fun r => set_Chars (add64 (Chars r) k) r) s else s.

(** [res.Bytes += n]. *)
Definition add_bytes (n : Z) (s : Counting) : Counting :=
  with_res (fun r => set_Bytes (add64 (Bytes r) n) r) s.

(** The modes a run goes through, by the rule of [next_mode]. *)
Fixpoint modes_from (opt : Options) (a : bool) (cs : list (list byte))
  : list bool :=
  a :: match cs with
       | [] => []
       | c :: cs' => modes_from opt (next_mode opt a c) cs'
       end.

(** The state without the two fields the events do not drive: the byte
    count, kept read by read, and the mode. *)
Definition core (s : Counting) : Counting :=
  set_asciiMode true (with_res (set_Bytes 0) s).

(** What holds between reads: nothing is carried over, and in the C locale
    the fast path is still on. *)
Definition between_reads (opt : Options) (s : Counting) : Prop :=
  carry s = [] /\
  (locale.IsCOrPOSIX (Locale opt) = true -> asciiMode s = true).

(** The state after the last read, before any failure is recorded. *)
Definition scanned (m : Metrics.t) (opt : Options) (src : Source) : Counting :=
  fold_left (process_chunk m opt) (chunks opt src) (initial opt).

(** The number of bytes in a list of chunks. *)
Definition total_bytes (cs : list (list byte)) : Z :=
  Z.of_nat (length (concat cs)).

(** What a buffered reader has yet to deliver. *)
Definition remaining (r : bufioReader) : list byte :=
  unread r ++ skipn (off (rd r)) (b (rd r)).

(** Every counter other than [Bytes] whose metric is not selected is zero. *)
Definition unselected_are_zero (m : Metrics.t) (r : FileResult) : Prop :=
  (Metrics.Lines m = false -> Lines r = 0) /\
  (Metrics.Words m = false -> Words r = 0) /\
  (Metrics.Chars m = false -> Chars r = 0) /\
  (Metrics.MaxLineBytes m = false -> MaxLineBytes r = 0) /\
  (Metrics.MaxLineChars m = false -> MaxLineChars r = 0).

(** [r.Err != nil]. *)
Definition has_err (r : FileResult) : bool :=
  match Err r with Some _ => true | None => false end.

(** Every pending result sits under its own index. *)
Definition keyed (c : Collector) : Prop :=
  forall k r, pending c !! k = Some r -> Index r = k.

(** What has been released is the results 0, 1, ..., [next - 1], in that
    order. *)
Definition released_in_order (c : Collector) : Prop :=
  map Index (all c) = seqZ 0 (next c) /\ 0 <= next c.

(** The two scans in step: the same state but for the mode. *)
Definition in_step (opt : Options) (s d : Counting) : Prop :=
  core s = core d /\ Bytes (res s) = Bytes (res d) /\
  between_reads opt s /\ carry d = [].

(** ** Measures of the input *)

(** The number of newline bytes. *)
Definition newlines (data : list byte) : Z :=
  Z.of_nat (length (List.filter (fun c => bval c =? 10) data)).

(** The length of the longest line of [data], in bytes and without its
    newline, the unterminated last line included; [cur] is the length of
    the line in progress. *)
Fixpoint longest_line (cur : Z) (data : list byte) : Z :=
  match data with
  | [] => cur
  | c :: rest =>
    if bval c =? 10 then Z.max cur (longest_line 0 rest)
    else longest_line (cur + 1) rest
  end.

(** The number of bytes a character takes. *)
Definition ev_width (e : event) : Z :=
  match e with
  | Plain _ | Invalid _ => 1
  | Rune _ size => size
  end.

Definition total_width (evs : list event) : Z :=
  fold_right (fun e n => ev_width e + n) 0 evs.

(** The line lengths as the scanner keeps them: the longest finished line
    and the line in progress, a character adding [w] to the latter. *)
Definition line_step (w : event -> Z) (st : Z * Z) (e : event) : Z * Z :=
  if ev_newline e then (Z.max (fst st) (snd st), 0)
  else (fst st, snd st + w e).

(** The same, byte by byte. *)
Definition byte_step (st : Z * Z) (c : byte) : Z * Z :=
  if bval c =? 10 then (Z.max (fst st) (snd st), 0)
  else (fst st, snd st + 1).

(** A rejected byte is never the newline, and no character is empty. *)
Definition ev_ok (e : event) : Prop :=
  match e with
  | Plain _ => True
  | Invalid c => 0x80 <= bval c
  | Rune _ size => 1 <= size
  end.

(** The events [evs] stand for the bytes [data]: as many bytes, no more
    characters than bytes, and the same lines. *)
Definition stands_for (evs : list event) (data : list byte) : Prop :=
  Forall ev_ok evs /\
  total_width evs = Z.of_nat (length data) /\
  (length evs <= length data)%nat /\
  forall st,
    fold_left (line_step ev_width) evs st = fold_left byte_step data st.

(** ** The UTF-8 form of a scalar value *)

(** A Unicode scalar value: a code point that is not a surrogate. *)
Definition scalar (r : Z) : Prop :=
  0 <= r < 0xD800 \/ 0xE000 <= r <= 0x10FFFF.

(** The number of bytes of the UTF-8 form of [r], and the values of those
    bytes. *)
Definition utf8_size (r : Z) : Z :=
  if r <? 0x80 then 1
  else if r <? 0x800 then 2
  else if r <? 0x10000 then 3
  else 4.

Definition utf8_bytes (r : Z) : list Z :=
  if r <? 0x80 then [r]
  else if r <? 0x800 then [0xC0 + r / 64; 0x80 + r mod 64]
  else if r <? 0x10000
       then [0xE0 + r / 4096; 0x80 + (r / 64) mod 64; 0x80 + r mod 64]
       else [0xF0 + r / 262144; 0x80 + (r / 4096) mod 64;
             0x80 + (r / 64) mod 64; 0x80 + r mod 64].

(** [data] is the UTF-8 form of the scalar values [rs], one after the
    other. *)
Inductive encodes : list Z -> list byte -> Prop :=
  | encodes_nil : encodes [] []
  | encodes_cons r rs bs rest :
      scalar r -> map bval bs = utf8_bytes r -> encodes rs rest ->
      encodes (r :: rs) (bs ++ rest).

(** What the scanner sees of a well-formed scalar value. *)
Definition rune_event (r : Z) : event := Rune r (utf8_size r).

(** ** pkg/wc/format/format.go *)

(** The value of a byte of a string. *)
Definition code (c : ascii) : Z := Z.of_N (N_of_ascii c).

(** [strconv.FormatUint(v, 10)]: the decimal digits of [v], the most
    significant first, "0" for 0.  A number has no more decimal digits than
    binary ones, which bounds the recursion. *)
Definition digit (d : Z) : ascii := ascii_of_nat (48 + Z.to_nat d).

Fixpoint digits (fuel : nat) (v : Z) : string :=
  match fuel with
  | O => EmptyString
  | S fuel' =>
    if v <? 10 then String (digit v) EmptyString
    else String.append (digits fuel' (v / 10))
                       (String (digit (v mod 10)) EmptyString)
  end.

Definition FormatUint (v : Z) : string :=
  digits (S (Z.to_nat (Z.log2 v))) v.

(** The loop [for len(s) < width { s = " " + s }]; each round makes [s]
    one byte longer, so [width] rounds are enough. *)
Fixpoint pad (fuel : nat) (s : string) (width : Z) : string :=
  match fuel with
  | O => s
  | S fuel' =>
    if Z.of_nat (String.length s) <? width
    then pad fuel' (String " " s) width
    else s
  end.

Definition padRight (v : Z) (width : Z) : string :=
  pad (Z.to_nat width) (FormatUint v) width.

Definition join (parts : list string) : string :=
  match parts with
  | [] => EmptyString
  | p :: ps =>
    fold_left (fun out q => String.append out (String.append " " q)) ps p
  end.

Definition FormatLine (r : FileResult) (m : Metrics.t) (width : Z) : string :=
  let parts := [] in
  let parts :=
    if Metrics.Lines m then parts ++ [padRight (Lines r) width] else parts in
  let parts :=
    if Metrics.Words m then parts ++ [padRight (Words r) width] else parts in
  let parts :=
    if Metrics.Chars m then parts ++ [padRight (Chars r) width] else parts in
  let parts :=
    if Metrics.Bytes m then parts ++ [padRight (Bytes r) width] else parts in
  let parts :=
    if Metrics.MaxLineBytes m
    then parts ++ [padRight (MaxLineBytes r) width] else parts in
  let parts :=
    if Metrics.MaxLineChars m
    then parts ++ [padRight (MaxLineChars r) width] else parts in
  let parts :=
    if negb (String.eqb (Filename r) EmptyString)
    then parts ++ [Filename r] else parts in
  join parts.

(** The six tests [if m.X && r.X > max { max = r.X }], which [ComputeWidth]
    runs on every result without error and then on the totals. *)
Definition raise (m : Metrics.t) (max : Z) (r : FileResult) : Z :=
  let max := if Metrics.Lines m && (max <? Lines r) then Lines r else max in
  let max := if Metrics.Words m && (max <? Words r) then Words r else max in
  let max := if Metrics.Chars m && (max <? Chars r) then Chars r else max in
  let max := if Metrics.Bytes m && (max <? Bytes r) then Bytes r else max in
  let max :=
    if Metrics.MaxLineBytes m && (max <? MaxLineBytes r)
    then MaxLineBytes r else max in
  if Metrics.MaxLineChars m && (max <? MaxLineChars r)
  then MaxLineChars r else max.

Definition ComputeWidth (results : list FileResult) (totals : FileResult)
    (m : Metrics.t) : Z :=
  let max :=
    fold_left (fun max r =>
                 match Err r with
                 | Some _ => max
                 | None => raise m max r
                 end) results 0 in
  let max := raise m max totals in
  let w := Z.of_nat (String.length (FormatUint max)) in
  if w <? 7 then 7 else w.

(** The counters [FormatLine] prints, in its order. *)
Definition columns (m : Metrics.t) (r : FileResult) : list Z :=
  (if Metrics.Lines m then [Lines r] else []) ++
  (if Metrics.Words m then [Words r] else []) ++
  (if Metrics.Chars m then [Chars r] else []) ++
  (if Metrics.Bytes m then [Bytes r] else []) ++
  (if Metrics.MaxLineBytes m then [MaxLineBytes r] else []) ++
  (if Metrics.MaxLineChars m then [MaxLineChars r] else []).

(** A run of [n] spaces. *)
Definition spaces (n : nat) : string :=
  string_of_list_ascii (repeat " "%char n).

(** The number a string of decimal digits writes, after [acc]. *)
Fixpoint decimal_value (acc : Z) (s : string) : Z :=
  match s with
  | EmptyString => acc
  | String c s' => decimal_value (10 * acc + (code c - 48)) s'
  end.

(** ** pkg/wc/locale/locale.go: [Detect] *)

Fixpoint map_string (f : ascii -> ascii) (s : string) : string :=
  match s with
  | EmptyString => EmptyString
  | String c s' => String (f c) (map_string f s')
  end.

Fixpoint all_bytes (p : ascii -> bool) (s : string) : bool :=
  match s with
  | EmptyString => true
  | String c s' => p c && all_bytes p s'
  end.

Definition isASCII (s : string) : bool :=
  all_bytes (fun c => code c <? 0x80) s.

(** ['A' <= c && c <= 'Z'] and [c += 'a' - 'A']. *)
Definition lower (c : ascii) : ascii :=
  if (0x41 <=? code c) && (code c <=? 0x5A)
  then ascii_of_N (N_of_ascii c + 32) else c.

(** The table [asciiSpace] of package [strings]. *)
Definition space (c : ascii) : bool :=
  (code c =? 9) || (code c =? 10) || (code c =? 11) ||
  (code c =? 12) || (code c =? 13) || (code c =? 32).

(** [s[n:]]. *)
Fixpoint from (n : nat) (s : string) : string :=
  match n, s with
  | O, _ => s
  | S n', String _ s' => from n' s'
  | S _, EmptyString => EmptyString
  end.

(** [strings.IndexByte]: the index of the first [c] in [s], or -1. *)
Fixpoint IndexByte (s : string) (c : ascii) : Z :=
  match s with
  | EmptyString => -1
  | String x s' =>
    if Ascii.eqb x c then 0
    else let i := IndexByte s' c in if i <? 0 then -1 else i + 1
  end.

(** [strings.ReplaceAll(s, old, new)] for a non-empty [old]: every
    occurrence of [old], the leftmost first and none overlapping an earlier
    one, gives way to [new]; [skip] counts the bytes of an occurrence still
    to pass. *)
Fixpoint replace_from (old new : string) (skip : nat) (s : string) : string :=
  match s with
  | EmptyString => EmptyString
  | String c s' =>
    match skip with
    | S k => replace_from old new k s'
    | O =>
      if String.prefix old s
      then String.append new (replace_from old new (String.length old - 1) s')
      else String c (replace_from old new 0 s')
    end
  end.

Definition ReplaceAll (s old new : string) : string :=
  replace_from old new 0 s.

(** [strings.TrimPrefix]. *)
Definition TrimPrefix (s prefix : string) : string :=
  if String.prefix prefix s then from (String.length prefix) s else s.

Fixpoint firstNonEmpty (ss : list string) : string :=
  match ss with
  | [] => EmptyString
  | s :: ss' =>
    if negb (String.eqb s EmptyString) then s else firstNonEmpty ss'
  end.

(** Of the functions of package [strings] that [normalizeEncoding] calls,
    the branches for text beyond ASCII are parameters:
    [strings.Map(unicode.ToLower, s)], [strings.TrimFunc(s, unicode.IsSpace)]
    and [strings.TrimRightFunc(s, unicode.IsSpace)]. *)
Record beyond_ascii : Type := mkBeyondAscii {
  unicode_lower : string -> string;
  unicode_trim : string -> string;
  unicode_trim_right : string -> string
}.

Section Detection.

Variable u : beyond_ascii.

(** [strings.ToLower]: byte by byte when no byte is above 0x7F. *)
Definition ToLower (s : string) : string :=
  if isASCII s then map_string lower s else unicode_lower u s.

(** The first loop of [strings.TrimSpace]: past the leading ASCII spaces,
    or into the fallback at a byte above 0x7F. *)
Fixpoint trim_start (s : string) : string + string :=
  match s with
  | EmptyString => inr EmptyString
  | String c s' =>
    if 0x80 <=? code c then inl (unicode_trim u s)
    else if space c then trim_start s' else inr s
  end.

(** Its second loop, on the string reversed. *)
Fixpoint trim_stop (r : list ascii) : string :=
  match r with
  | [] => EmptyString
  | c :: r' =>
    if 0x80 <=? code c
    then unicode_trim_right u (string_of_list_ascii (rev r))
    else if space c then trim_stop r'
         else string_of_list_ascii (rev r)
  end.

Definition TrimSpace (s : string) : string :=
  match trim_start s with
  | inl t => t
  | inr t => trim_stop (rev (list_ascii_of_string t))
  end.

Definition normalizeEncoding (s : string) : string :=
  let s := TrimSpace (ToLower s) in
  let s := ReplaceAll s "_" "-" in
  let s := ReplaceAll s "charset=" "" in
  let s := ReplaceAll s "cs" "" in
  let s := TrimPrefix s "" in
  if String.eqb s "utf8" then "utf-8"%string
  else if String.eqb s "c" then "C"%string
  else if String.eqb s "posix" then "POSIX"%string
  else s.

(** [Detect]; [getenv] is [os.Getenv]. *)
Definition Detect (override : string) (getenv : string -> string)
  : locale.Info :=
  if negb (String.eqb override EmptyString) then
    let enc := normalizeEncoding override in
    locale.mkInfo enc (String.eqb enc "utf-8")
                  (String.eqb enc "C" || String.eqb enc "POSIX")
  else
    let val := firstNonEmpty [getenv "LC_ALL"%string;
                              getenv "LC_CTYPE"%string;
                              getenv "LANG"%string] in
    if String.eqb val EmptyString then locale.mkInfo "utf-8" true false
    else
      let up := val in
      if String.eqb up "C" || String.eqb up "POSIX"
      then locale.mkInfo "C" false true
      else
        let enc :=
          let i := IndexByte up "." in
          if (0 <=? i) && (i + 1 <? Z.of_nat (String.length up))
          then from (Z.to_nat (i + 1)) up
          else "utf-8"%string in
        let enc := normalizeEncoding enc in
        locale.mkInfo enc (String.eqb enc "utf-8") false.

End Detection.

(** An environment with the three variables set to [a], [b] and [c]. *)
Definition env3 (a b c : string) (name : string) : string :=
  if String.eqb name "LC_ALL" then a
  else if String.eqb name "LC_CTYPE" then b
  else if String.eqb name "LANG" then c
  else EmptyString.

(** The value the environment gives: [LC_ALL], else [LC_CTYPE], else
    [LANG]. *)
Definition environment_value (getenv : string -> string) : string :=
  firstNonEmpty [getenv "LC_ALL"%string; getenv "LC_CTYPE"%string;
                 getenv "LANG"%string].

(** Whether the byte [c] occurs in [s]. *)
Fixpoint contains (c : ascii) (s : string) : bool :=
  match s with
  | EmptyString => false
  | String x s' => Ascii.eqb x c || contains c s'
  end.

(** ['-'] for ['_'], and the form of a name in lower case with dashes. *)
Definition dash (c : ascii) : ascii :=
  if Ascii.eqb c "_" then "-"%char else c.

Definition canonical (s : string) : string :=
  map_string dash (map_string lower s).

(** A stand-in for the branches beyond ASCII, for names that have none. *)
Definition ascii_only_text : beyond_ascii :=
  mkBeyondAscii (fun s => s) (fun s => s) (fun s => s).

(** ** cmd/go_wc/main.go: what is counted, and where *)

Module cliConfig.

Record t : Type := mk {
  countBytes : bool;
  countChars : bool;
  countLines : bool;
  countWords : bool;
  countMaxBytes : bool;
  countMaxChars : bool;
  files0From : string;
  encoding : string;
  jobs : Z;
  bufSize : Z;
  showHelp : bool;
  showVer : bool
}.

End cliConfig.

(** The metrics [main] derives from the flags: lines, words and bytes when
    no counting flag is given. *)
Definition metrics (cfg : cliConfig.t) : Metrics.t :=
  if negb (cliConfig.countBytes cfg || cliConfig.countChars cfg ||
           cliConfig.countLines cfg || cliConfig.countWords cfg ||
           cliConfig.countMaxBytes cfg || cliConfig.countMaxChars cfg)
  then Metrics.mk true true true false false false
  else Metrics.mk (cliConfig.countLines cfg) (cliConfig.countWords cfg)
                  (cliConfig.countBytes cfg) (cliConfig.countChars cfg)
                  (cliConfig.countMaxBytes cfg) (cliConfig.countMaxChars cfg).

(** [io.ReadAll]: the bytes of every read up to the first non-nil error,
    which is returned unless it is [io.EOF]. *)
Fixpoint ReadAll_loop (acc : list byte)
    (rs : list (list byte * option ending)) (fin : ending)
  : list byte * option error :=
  match rs with
  | [] => (acc, match fin with EOF => None | Failed e => Some e end)
  | (chunk, err) :: rs' =>
    let acc := acc ++ chunk in
    match err with
    | None => ReadAll_loop acc rs' fin
    | Some EOF => (acc, None)
    | Some (Failed e) => (acc, Some e)
    end
  end.

Definition ReadAll (src : Source) : list byte * option error :=
  ReadAll_loop [] (reads src) (at_end src).

(** [strings.Split(s, sep)] for a separator of one byte, as in the one call
    of the program: the pieces between the separators, empty ones
    included. *)
Fixpoint Split (s : string) (sep : ascii) : list string :=
  match s with
  | EmptyString => [EmptyString]
  | String c s' =>
    if Ascii.eqb c sep then EmptyString :: Split s' sep
    else
      match Split s' sep with
      | p :: ps => String c p :: ps
      | [] => [String c EmptyString]
      end
  end.

(** [readFiles0From]: [f] is what opening the file gave ([os.Stdin] is
    always open); the names are the non-empty pieces between NUL bytes. *)
Definition readFiles0From (f : opened) : error + list string :=
  match f with
  | OpenFailed e => inl e
  | Opened src =>
    match ReadAll src with
    | (_, Some e) => inl e
    | (data, None) =>
      inr (List.filter (fun p => negb (String.eqb p EmptyString))
                       (Split (string_of_list_byte data) Ascii.zero))
    end
  end.

(** The list of inputs: the operands, then the names read with
    [--files0-from], and standard input when there is neither. *)
Definition inputs (files names : list string) : list string :=
  match files ++ names with
  | [] => ["-"%string]
  | l => l
  end.

(** The NUL byte. *)
Definition NUL : ascii := Ascii.zero.

Fixpoint has_NUL (s : string) : bool :=
  match s with
  | EmptyString => false
  | String c s' => Ascii.eqb c NUL || has_NUL s'
  end.

(** A file name as [--files0-from] can carry it: not empty, no NUL byte. *)
Definition is_name (s : string) : Prop :=
  s <> EmptyString /\ has_NUL s = false.

(** The names, each followed by a NUL byte. *)
Fixpoint terminated (names : list string) : string :=
  match names with
  | [] => EmptyString
  | n :: ns => String.append n (String NUL (terminated ns))
  end.

(** The names with a NUL byte between them. *)
Fixpoint separated (names : list string) : string :=
  match names with
  | [] => EmptyString
  | [n] => n
  | n :: ns => String.append n (String NUL (separated ns))
  end.

(** The non-empty pieces between NUL bytes. *)
Definition names_of (s : string) : list string :=
  List.filter (fun p => negb (String.eqb p EmptyString)) (Split s NUL).

(** The sum and the largest value of a counter over a list of results, and
    the results without error. *)
Definition sum_of (f : FileResult -> Z) (rs : list FileResult) : Z :=
  fold_right (fun r n => f r + n) 0 rs.

Definition max_of (f : FileResult -> Z) (rs : list FileResult) : Z :=
  fold_right (fun r n => Z.max (f r) n) 0 rs.

Definition without_error (rs : list FileResult) : list FileResult :=
  List.filter (fun r => negb (has_err r)) rs.

(** * Properties *)

(** ** Arithmetic of the counters *)

Lemma wrap64_range x : 0 <= wrap64 x < 2 ^ 64.
Proof. unfold wrap64. apply Z.mod_pos_bound. lia. Qed.

Lemma wrap64_small x : 0 <= x < 2 ^ 64 -> wrap64 x = x.
Proof. intros H. unfold wrap64. apply Z.mod_small. exact H. Qed.

Lemma wrap64_idem x : wrap64 (wrap64 x) = wrap64 x.
Proof. unfold wrap64. apply Z.mod_mod. lia. Qed.

Lemma add64_wrap_l x y : add64 (wrap64 x) y = wrap64 (x + y).
Proof. unfold add64, wrap64. apply Zplus_mod_idemp_l. Qed.

Lemma add64_wrap_r x y : add64 x (wrap64 y) = wrap64 (x + y).
Proof. unfold add64, wrap64. apply Zplus_mod_idemp_r. Qed.

Lemma add64_wrap x y : add64 (wrap64 x) (wrap64 y) = wrap64 (x + y).
Proof.
  unfold add64, wrap64. symmetry. apply Zplus_mod.
Qed.

Lemma add64_assoc x y z : add64 (add64 x y) z = add64 x (y + z).
Proof.
  unfold add64, wrap64. rewrite Zplus_mod_idemp_l. f_equal. lia.
Qed.

Lemma bval_range c : 0 <= bval c < 256.
Proof.
  unfold bval. pose proof (Byte.to_N_bounded c) as H. lia.
Qed.

(** ** The decoder *)

Lemma first_cases p0 :
  first p0 = 0xF0 \/ first p0 = 0xF1 \/ first p0 = 0x02 \/ first p0 = 0x13 \/
  first p0 = 0x03 \/ first p0 = 0x23 \/ first p0 = 0x34 \/ first p0 = 0x04 \/
  first p0 = 0x44.
Proof.
  unfold first.
  repeat match goal with
         | |- context [if ?c then _ else _] => destruct c
         end; tauto.
Qed.

Ltac split_ifs :=
  repeat match goal with
         | |- context [if ?c then _ else _] => destruct c eqn:?
         end.

(** A round of the decoder takes between one and four bytes, and never
    more than there are. *)
Lemma DecodeRune_size c data :
  1 <= snd (DecodeRune (c :: data)) <= 4 /\
  snd (DecodeRune (c :: data)) <= Z.of_nat (length (c :: data)).
Proof.
  unfold DecodeRune.
  destruct (first_cases (bval c)) as [H|[H|[H|[H|[H|[H|[H|[H|H]]]]]]]];
    rewrite H; cbn [Z.leb Z.compare Pos.compare Pos.compare_cont Z.land
                    Pos.land Z.shiftr Z.shiftl Z.testbit Z.opp Pos.pred_N
                    Pos.div2 Z.div2 Z.of_N Pos.iter acceptRanges Z.eqb
                    Pos.eqb fst snd];
    destruct data as [|c1 [|c2 [|c3 data]]];
    cbn [length]; split_ifs; cbn [snd length]; lia.
Qed.

Lemma DecodeRune_ascii c data :
  bval c < 0x80 -> DecodeRune (c :: data) = (bval c, 1).
Proof.
  intros H. unfold DecodeRune, first.
  destruct (bval c <? 128) eqn:E; [reflexivity | lia].
Qed.

Lemma IsSpace_ascii c : bval c < 0x80 -> IsSpace (bval c) = asciiSpace c.
Proof.
  intros H. pose proof (bval_range c). unfold IsSpace, asciiSpace.
  destruct ((0 <=? bval c) && (bval c <=? 255)) eqn:E; [|lia].
  replace (bval c =? 133) with false by lia.
  replace (bval c =? 160) with false by lia.
  rewrite !orb_false_r. reflexivity.
Qed.

(** ** The loops as folds over events *)

#[local] Arguments add64 : simpl never.
#[local] Arguments wrap64 : simpl never.

Ltac split_state s := destruct s as [[? ? ? ? ? ? ? ? ? ?] ? ? ? ? ?].

(** Each step of the scanner, field by field. *)
Section Steps.

Variable m : Metrics.t.

Lemma line_end_mk i f l w b c mb mc e d p cb cc a ca :
  line_end m (mkCounting (mkFileResult i f l w b c mb mc e d) p cb cc a ca) =
  mkCounting
    (mkFileResult i f (add64 l 1) w b c
       (if Metrics.MaxLineBytes m && (mb <? cb) then cb else mb)
       (if Metrics.MaxLineChars m && (mc <? cc) then cc else mc) e d)
    p 0 0 a ca.
Proof.
  unfold line_end. cbn.
  destruct (Metrics.MaxLineBytes m && (mb <? cb)); cbn;
    destruct (Metrics.MaxLineChars m && (mc <? cc)); reflexivity.
Qed.

Lemma grow_line_mk k r p cb cc a ca :
  grow_line m k (mkCounting r p cb cc a ca) =
  mkCounting r p
    (if Metrics.MaxLineBytes m then add64 cb k else cb)
    (if Metrics.MaxLineChars m then add64 cc 1 else cc) a ca.
Proof.
  unfold grow_line.
  destruct (Metrics.MaxLineBytes m); cbn;
    destruct (Metrics.MaxLineChars m); reflexivity.
Qed.

Lemma word_edge_mk sp i f l w b c mb mc e d p cb cc a ca :
  word_edge m sp
    (mkCounting (mkFileResult i f l w b c mb mc e d) p cb cc a ca) =
  mkCounting
    (mkFileResult i f l
       (if Metrics.Words m && (negb sp && p) then add64 w 1 else w)
       b c mb mc e d)
    (if Metrics.Words m then sp else p) cb cc a ca.
Proof.
  unfold word_edge. destruct (Metrics.Words m); cbn; [|reflexivity].
  destruct (negb sp && p); reflexivity.
Qed.

Lemma count_char_mk i f l w b c mb mc e d p cb cc a ca :
  count_char m
    (mkCounting (mkFileResult i f l w b c mb mc e d) p cb cc a ca) =
  mkCounting
    (mkFileResult i f l w b
       (if Metrics.Chars m then add64 c 1 else c) mb mc e d)
    p cb cc a ca.
Proof. unfold count_char. destruct (Metrics.Chars m); reflexivity. Qed.

(** A byte of the fast path, with its [Chars] increment. *)
Lemma plain_mk x i f l w b c mb mc e d p cb cc a ca :
  ev_step m (mkCounting (mkFileResult i f l w b c mb mc e d) p cb cc a ca)
          (Plain x) =
  let nl := Metrics.Lines m && (bval x =? 10) in
  mkCounting
    (mkFileResult i f
       (if nl then add64 l 1 else l)
       (if Metrics.Words m && (negb (asciiSpace x) && p)
        then add64 w 1 else w)
       b
       (if Metrics.Chars m then add64 c 1 else c)
       (if nl && (Metrics.MaxLineBytes m && (mb <? cb)) then cb else mb)
       (if nl && (Metrics.MaxLineChars m && (mc <? cc)) then cc else mc)
       e d)
    (if Metrics.Words m then asciiSpace x else p)
    (if nl then 0 else if Metrics.MaxLineBytes m then add64 cb 1 else cb)
    (if nl then 0 else if Metrics.MaxLineChars m then add64 cc 1 else cc)
    a ca.
Proof.
  cbn [ev_step]. unfold ascii_byte.
  destruct (Metrics.Lines m && (bval x =? 10)); cbn zeta.
  - rewrite line_end_mk, word_edge_mk, count_char_mk. reflexivity.
  - rewrite grow_line_mk, word_edge_mk, count_char_mk. reflexivity.
Qed.

(** A byte the decoder rejects. *)
Lemma invalid_mk x i f l w b c mb mc e d p cb cc a ca :
  ev_step m (mkCounting (mkFileResult i f l w b c mb mc e d) p cb cc a ca)
          (Invalid x) =
  let nl := Metrics.Lines m && (bval x =? 10) in
  let cb' := if Metrics.MaxLineBytes m then add64 cb 1 else cb in
  let cc' := if Metrics.MaxLineChars m then add64 cc 1 else cc in
  mkCounting
    (mkFileResult i f
       (if nl then add64 l 1 else l)
       (if Metrics.Words m && (negb (asciiSpace x) && p)
        then add64 w 1 else w)
       b
       (if Metrics.Chars m then add64 c 1 else c)
       (if nl && (Metrics.MaxLineBytes m && (mb <? cb')) then cb' else mb)
       (if nl && (Metrics.MaxLineChars m && (mc <? cc')) then cc' else mc)
       e d)
    (if Metrics.Words m then asciiSpace x else p)
    (if nl then 0 else cb')
    (if nl then 0 else cc')
    a ca.
Proof.
  cbn [ev_step]. unfold invalid_byte.
  rewrite count_char_mk, grow_line_mk.
  destruct (Metrics.Lines m && (bval x =? 10)); cbn zeta.
  - rewrite line_end_mk, word_edge_mk. reflexivity.
  - rewrite word_edge_mk. reflexivity.
Qed.

(** A decoded rune. *)
Lemma rune_mk r size i f l w b c mb mc e d p cb cc a ca :
  ev_step m (mkCounting (mkFileResult i f l w b c mb mc e d) p cb cc a ca)
          (Rune r size) =
  let nl := Metrics.Lines m && (r =? 10) in
  mkCounting
    (mkFileResult i f
       (if nl then add64 l 1 else l)
       (if Metrics.Words m && (negb (IsSpace r) && p)
        then add64 w 1 else w)
       b
       (if Metrics.Chars m then add64 c 1 else c)
       (if nl && (Metrics.MaxLineBytes m && (mb <? cb)) then cb else mb)
       (if nl && (Metrics.MaxLineChars m && (mc <? cc)) then cc else mc)
       e d)
    (if Metrics.Words m then IsSpace r else p)
    (if nl then 0 else if Metrics.MaxLineBytes m then add64 cb size else cb)
    (if nl then 0 else if Metrics.MaxLineChars m then add64 cc 1 else cc)
    a ca.
Proof.
  cbn [ev_step]. unfold valid_rune.
  rewrite count_char_mk, word_edge_mk.
  destruct (Metrics.Lines m); cbn [andb]; cbn zeta.
  - destruct (r =? 10).
    + rewrite line_end_mk. reflexivity.
    + rewrite grow_line_mk. reflexivity.
  - rewrite grow_line_mk. reflexivity.
Qed.

End Steps.

Ltac step_mk :=
  first [rewrite plain_mk | rewrite invalid_mk | rewrite rune_mk]; cbn zeta.

Section Folds.

Variable m : Metrics.t.

Lemma ev_step_carry s e : carry (ev_step m s e) = carry s.
Proof. split_state s. destruct e; step_mk; reflexivity. Qed.

Lemma ev_step_asciiMode s e : asciiMode (ev_step m s e) = asciiMode s.
Proof. split_state s. destruct e; step_mk; reflexivity. Qed.

Lemma ev_step_Bytes s e : Bytes (res (ev_step m s e)) = Bytes (res s).
Proof. split_state s. destruct e; step_mk; reflexivity. Qed.

Lemma ev_step_Err s e : Err (res (ev_step m s e)) = Err (res s).
Proof. split_state s. destruct e; step_mk; reflexivity. Qed.

Lemma ev_step_set_asciiMode v s e :
  ev_step m (set_asciiMode v s) e = set_asciiMode v (ev_step m s e).
Proof.
  split_state s. unfold set_asciiMode at 1.
  cbn [res prevSpace curLineBytes curLineChars carry].
  destruct e; repeat step_mk; reflexivity.
Qed.

Lemma fold_ev_step_inv {A} (f : Counting -> A) evs s :
  (forall s e, f (ev_step m s e) = f s) ->
  f (fold_left (ev_step m) evs s) = f s.
Proof.
  intros H. revert s. induction evs as [|e evs IH]; intros s; cbn.
  - reflexivity.
  - rewrite IH. apply H.
Qed.

Lemma fold_ev_step_set_asciiMode v evs s :
  fold_left (ev_step m) evs (set_asciiMode v s) =
  set_asciiMode v (fold_left (ev_step m) evs s).
Proof.
  revert s. induction evs as [|e evs IH]; intros s; cbn.
  - reflexivity.
  - rewrite ev_step_set_asciiMode. apply IH.
Qed.

Lemma decode_step_events s c data :
  decode_step m s (c :: data) =
  (ev_step m s (hd (Plain c) (decode_events 1 (c :: data))),
   skipn (Z.to_nat (snd (DecodeRune (c :: data)))) (c :: data)).
Proof.
  unfold decode_step, decode_events.
  destruct (DecodeRune (c :: data)) as [r size] eqn:E.
  destruct ((r =? RuneError) && (size =? 1)) eqn:T; cbn [hd ev_step snd].
  - apply andb_prop in T as [_ T]. apply Z.eqb_eq in T. subst size.
    reflexivity.
  - reflexivity.
Qed.

Lemma skipn_decoded_length c data :
  (length (skipn (Z.to_nat (snd (DecodeRune (c :: data)))) (c :: data))
   <= length data)%nat.
Proof.
  pose proof (DecodeRune_size c data) as [H _].
  destruct (Z.to_nat (snd (DecodeRune (c :: data)))) as [|k] eqn:E; [lia|].
  cbn [skipn]. rewrite length_skipn. lia.
Qed.

(** The decoding loop consumes its whole input: nothing is left over for
    the carry buffer. *)
Lemma decode_loop_fold fuel s data :
  (length data <= fuel)%nat ->
  decode_loop m fuel s data =
  (fold_left (ev_step m) (decode_events fuel data) s, []).
Proof.
  revert s data. induction fuel as [|fuel IH]; intros s data Hlen.
  - destruct data; [reflexivity | cbn in Hlen; lia].
  - destruct data as [|c data]; [reflexivity|].
    cbn [decode_loop]. rewrite decode_step_events.
    cbn [decode_events].
    pose proof (skipn_decoded_length c data) as Hs.
    destruct (DecodeRune (c :: data)) as [r size] eqn:E. cbn [snd] in *.
    destruct ((r =? RuneError) && (size =? 1)) eqn:T; cbn [hd fold_left].
    + apply andb_prop in T as [_ T]. apply Z.eqb_eq in T. subst size.
      apply IH. simpl in Hlen, Hs |- *. lia.
    + apply IH. simpl in Hlen. lia.
Qed.

Lemma decode_events_fuel fuel1 fuel2 data :
  (length data <= fuel1)%nat -> (length data <= fuel2)%nat ->
  decode_events fuel1 data = decode_events fuel2 data.
Proof.
  revert fuel2 data.
  induction fuel1 as [|fuel1 IH]; intros fuel2 data H1 H2.
  - destruct data; [|simpl in H1; lia]. destruct fuel2; reflexivity.
  - destruct data as [|c data]; [destruct fuel2; reflexivity|].
    destruct fuel2 as [|fuel2]; [simpl in H2; lia|].
    cbn [decode_events].
    pose proof (skipn_decoded_length c data) as Hs.
    destruct (DecodeRune (c :: data)) as [r size] eqn:E. cbn [snd] in *.
    simpl in H1, H2.
    destruct ((r =? RuneError) && (size =? 1)) eqn:T.
    + apply andb_prop in T as [_ T]. apply Z.eqb_eq in T. subst size.
      simpl in Hs |- *. f_equal. apply IH; lia.
    + f_equal. apply IH; lia.
Qed.

End Folds.

Section Paths.

Variable m : Metrics.t.

Lemma add_chars_add j k s : add_chars m j (add_chars m k s) = add_chars m (k + j) s.
Proof.
  unfold add_chars. destruct (Metrics.Chars m); [|reflexivity].
  split_state s. unfold with_res, set_Chars; cbn.
  rewrite add64_assoc. reflexivity.
Qed.

Lemma ascii_byte_add_chars k s c :
  ascii_byte m (add_chars m k s) c = add_chars m k (ascii_byte m s c).
Proof.
  unfold add_chars. split_state s.
  destruct (Metrics.Chars m); [|reflexivity].
  unfold with_res, set_Chars; cbn.
  change (ascii_byte m ?s c) with (ascii_byte m s c).
  unfold ascii_byte.
  destruct (Metrics.Lines m && (bval c =? 10)); cbn zeta.
  - rewrite !line_end_mk, !word_edge_mk. reflexivity.
  - rewrite !grow_line_mk, !word_edge_mk. reflexivity.
Qed.

Lemma ascii_fold_add_chars chunk s k :
  add_chars m (k + Z.of_nat (length chunk)) (fold_left (ascii_byte m) chunk s) =
  fold_left (ev_step m) (map Plain chunk) (add_chars m k s).
Proof.
  revert s k. induction chunk as [|c chunk IH]; intros s k.
  - cbn. f_equal. lia.
  - cbn [fold_left map ev_step length].
    rewrite ascii_byte_add_chars.
    change (count_char m (add_chars m k (ascii_byte m s c)))
      with (add_chars m 1 (add_chars m k (ascii_byte m s c))).
    rewrite add_chars_add, <- IH. f_equal. lia.
Qed.

(** The fast path on a non-empty chunk, one event per byte. *)
Lemma ascii_chunk_fold s c chunk :
  ascii_chunk m s (c :: chunk) =
  fold_left (ev_step m) (map Plain (c :: chunk)) s.
Proof.
  cbn [map fold_left ev_step].
  change (count_char m (ascii_byte m s c))
    with (add_chars m 1 (ascii_byte m s c)).
  rewrite <- ascii_fold_add_chars.
  unfold ascii_chunk, add_chars. cbn [fold_left length].
  replace (Z.of_nat (S (length chunk))) with (1 + Z.of_nat (length chunk))
    by lia.
  reflexivity.
Qed.

Lemma rune_is_plain s c :
  bval c < 0x80 -> ev_step m s (Rune (bval c) 1) = ev_step m s (Plain c).
Proof.
  intros H. split_state s. rewrite rune_mk, plain_mk.
  rewrite (IsSpace_ascii c H). reflexivity.
Qed.

Lemma decode_events_ascii chunk :
  Forall (fun c => bval c < 0x80) chunk ->
  decode_events (length chunk) chunk = map (fun c => Rune (bval c) 1) chunk.
Proof.
  induction 1 as [|c chunk Hc Hrest IH]; [reflexivity|].
  cbn [length decode_events map]. rewrite (DecodeRune_ascii c chunk Hc).
  replace (bval c =? RuneError) with false
    by (unfold RuneError; lia).
  cbn [andb]. change (skipn (Z.to_nat 1) (c :: chunk)) with chunk.
  rewrite IH. reflexivity.
Qed.

(** Fast path and decoding agree on a chunk without a byte above 0x7F. *)
Lemma ascii_chunk_decoded s chunk :
  Forall (fun c => bval c < 0x80) chunk ->
  fold_left (ev_step m) (decode_events (length chunk) chunk) s =
  fold_left (ev_step m) (map Plain chunk) s.
Proof.
  intros H. rewrite (decode_events_ascii chunk H). revert s.
  induction H as [|c chunk Hc Hrest IH]; intros s; [reflexivity|].
  cbn [map fold_left]. rewrite (rune_is_plain s c Hc). apply IH.
Qed.

Lemma set_carry_same s : carry s = [] -> set_carry [] s = s.
Proof. destruct s; cbn. intros ->. reflexivity. Qed.

Lemma set_asciiMode_same s : set_asciiMode (asciiMode s) s = s.
Proof. destruct s; reflexivity. Qed.

(** The multibyte path on a chunk, when nothing was carried over. *)
Lemma rune_chunk_fold s chunk :
  carry s = [] ->
  rune_chunk m s chunk =
  fold_left (ev_step m) (decode_events (length chunk) chunk) s.
Proof.
  intros Hc. unfold rune_chunk. rewrite Hc. cbn [app].
  rewrite (decode_loop_fold m (length chunk) _ chunk) by lia.
  cbn [length]. rewrite andb_false_r. rewrite set_carry_same by exact Hc.
  reflexivity.
Qed.

Lemma has_high_false chunk :
  has_high chunk = false -> Forall (fun c => bval c < 0x80) chunk.
Proof.
  unfold has_high. induction chunk as [|c chunk IH]; cbn; intros H.
  - constructor.
  - apply orb_false_elim in H as [H1 H2]. constructor; [lia | auto].
Qed.

Lemma has_high_true chunk :
  Forall (fun c => bval c < 0x80) chunk -> has_high chunk = false.
Proof.
  unfold has_high. induction 1 as [|c chunk Hc Hrest IH]; cbn.
  - reflexivity.
  - rewrite IH. replace (128 <=? bval c) with false by lia. reflexivity.
Qed.

Variable opt : Options.

Lemma set_asciiMode_id v s : asciiMode s = v -> set_asciiMode v s = s.
Proof. intros <-. apply set_asciiMode_same. Qed.

Lemma route_fold s c chunk :
  carry s = [] ->
  (locale.IsCOrPOSIX (Locale opt) = true -> asciiMode s = true) ->
  route m opt s (c :: chunk) =
  (set_asciiMode (next_mode opt (asciiMode s) (c :: chunk))
     (fold_left (ev_step m) (chunk_events opt (c :: chunk)) s),
   next_mode opt (asciiMode s) (c :: chunk)).
Proof.
  intros Hcarry Hmode.
  unfold route, chunk_events, next_mode. fold (has_high (c :: chunk)).
  rewrite <- fold_ev_step_set_asciiMode.
  destruct (locale.IsCOrPOSIX (Locale opt)) eqn:EC; cbn [negb orb].
  - rewrite (Hmode eq_refl). cbn [andb].
    rewrite ascii_chunk_fold.
    rewrite (set_asciiMode_id true s (Hmode eq_refl)). reflexivity.
  - destruct (asciiMode s) eqn:EA; cbn [andb].
    + destruct (has_high (c :: chunk)) eqn:EH; cbn [negb].
      * cbn [asciiMode set_asciiMode]. f_equal.
        apply rune_chunk_fold. exact Hcarry.
      * rewrite EA. rewrite ascii_chunk_fold.
        rewrite ascii_chunk_decoded by (apply has_high_false; exact EH).
        rewrite (set_asciiMode_id true s EA). reflexivity.
    + rewrite (set_asciiMode_id false s EA). f_equal.
      apply rune_chunk_fold. exact Hcarry.
Qed.

(** One read, whatever the mode: the byte count, the events of the
    chunk, and the mode; the fast path, and with it the [continue], is
    taken exactly when the mode stays the fast path. *)
Lemma read_body_fold s chunk :
  carry s = [] ->
  (locale.IsCOrPOSIX (Locale opt) = true -> asciiMode s = true) ->
  chunk <> [] ->
  read_body m opt s chunk =
  (set_asciiMode (next_mode opt (asciiMode s) chunk)
     (fold_left (ev_step m) (chunk_events opt chunk)
                (add_bytes (Z.of_nat (length chunk)) s)),
   next_mode opt (asciiMode s) chunk).
Proof.
  intros Hcarry Hmode Hne.
  destruct chunk as [|c chunk]; [congruence|].
  unfold read_body.
  replace (0 <? Z.of_nat (length (c :: chunk))) with true
    by (symmetry; apply Z.ltb_lt; simpl; lia).
  fold (add_bytes (Z.of_nat (length (c :: chunk))) s).
  apply (route_fold (add_bytes (Z.of_nat (length (c :: chunk))) s));
    assumption.
Qed.

Lemma process_chunk_fold s chunk :
  carry s = [] ->
  (locale.IsCOrPOSIX (Locale opt) = true -> asciiMode s = true) ->
  chunk <> [] ->
  process_chunk m opt s chunk =
  set_asciiMode (next_mode opt (asciiMode s) chunk)
    (fold_left (ev_step m) (chunk_events opt chunk)
               (add_bytes (Z.of_nat (length chunk)) s)).
Proof.
  intros Hcarry Hmode Hne. unfold process_chunk.
  rewrite read_body_fold by assumption. reflexivity.
Qed.

Lemma process_chunk_nil s : process_chunk m opt s [] = s.
Proof. reflexivity. Qed.

Lemma read_body_continued s chunk :
  carry s = [] ->
  (locale.IsCOrPOSIX (Locale opt) = true -> asciiMode s = true) ->
  read_body m opt s chunk =
  (process_chunk m opt s chunk,
   (0 <? Z.of_nat (length chunk)) && next_mode opt (asciiMode s) chunk).
Proof.
  intros Hcarry Hmode. destruct chunk as [|c chunk]; [reflexivity|].
  unfold process_chunk.
  rewrite read_body_fold by (try assumption; discriminate).
  replace (0 <? Z.of_nat (length (c :: chunk))) with true
    by (symmetry; apply Z.ltb_lt; simpl; lia).
  reflexivity.
Qed.

End Paths.

(** ** A whole scan as one fold over its events *)

Section Scan.

Variable m : Metrics.t.
Variable opt : Options.

Lemma core_ev_step s e : core (ev_step m s e) = ev_step m (core s) e.
Proof.
  split_state s. unfold core at 2. unfold with_res, set_Bytes, set_asciiMode.
  cbn [res prevSpace curLineBytes curLineChars carry Index Filename Lines
       Words Chars MaxLineBytes MaxLineChars Err Duration].
  destruct e; repeat step_mk; reflexivity.
Qed.

Lemma core_fold evs s :
  core (fold_left (ev_step m) evs s) = fold_left (ev_step m) evs (core s).
Proof.
  revert s. induction evs as [|e evs IH]; intros s; cbn [fold_left].
  - reflexivity.
  - rewrite IH, core_ev_step. reflexivity.
Qed.

Lemma core_add_bytes n s : core (add_bytes n s) = core s.
Proof. split_state s. reflexivity. Qed.

Lemma core_set_asciiMode v s : core (set_asciiMode v s) = core s.
Proof. split_state s. reflexivity. Qed.

Lemma core_set_Err v s :
  core (with_res (set_Err v) s) = with_res (set_Err v) (core s).
Proof. split_state s. reflexivity. Qed.

Lemma initial_between_reads : between_reads opt (initial opt).
Proof.
  split; [reflexivity|]. cbn. intros ->. reflexivity.
Qed.

Lemma process_chunk_between_reads s chunk :
  between_reads opt s -> between_reads opt (process_chunk m opt s chunk).
Proof.
  intros [Hc Hm]. destruct chunk as [|c chunk]; [split; assumption|].
  rewrite process_chunk_fold by (try assumption; discriminate).
  split.
  - cbn [set_asciiMode carry]. rewrite (fold_ev_step_inv m carry).
    + exact Hc.
    + apply ev_step_carry.
  - intros HC. cbn [set_asciiMode asciiMode]. unfold next_mode.
    rewrite HC, (Hm HC). reflexivity.
Qed.

Lemma process_chunk_core s chunk :
  between_reads opt s ->
  core (process_chunk m opt s chunk) =
  fold_left (ev_step m) (chunk_events opt chunk) (core s).
Proof.
  intros [Hc Hm]. destruct chunk as [|c chunk].
  - unfold chunk_events. destruct (locale.IsCOrPOSIX (Locale opt));
      reflexivity.
  - rewrite process_chunk_fold by (try assumption; discriminate).
    rewrite core_set_asciiMode, core_fold, core_add_bytes. reflexivity.
Qed.

Lemma fold_process_chunk_between_reads cs s :
  between_reads opt s -> between_reads opt (fold_left (process_chunk m opt) cs s).
Proof.
  revert s. induction cs as [|c cs IH]; intros s H; cbn [fold_left].
  - exact H.
  - apply IH, process_chunk_between_reads, H.
Qed.

Lemma fold_process_chunk_core cs s :
  between_reads opt s ->
  core (fold_left (process_chunk m opt) cs s) =
  fold_left (ev_step m) (concat (map (chunk_events opt) cs)) (core s).
Proof.
  revert s. induction cs as [|c cs IH]; intros s H.
  - reflexivity.
  - cbn [fold_left map concat]. rewrite fold_left_app.
    rewrite IH by (apply process_chunk_between_reads, H).
    rewrite process_chunk_core by exact H. reflexivity.
Qed.

Lemma process_chunk_mode s chunk :
  between_reads opt s ->
  asciiMode (process_chunk m opt s chunk) = next_mode opt (asciiMode s) chunk.
Proof.
  intros [Hc Hm]. destruct chunk as [|c chunk].
  - rewrite process_chunk_nil. unfold next_mode. cbn.
    rewrite orb_true_r, andb_true_r. reflexivity.
  - rewrite process_chunk_fold by (try assumption; discriminate).
    reflexivity.
Qed.

(** The read loop is the fold of the body over the chunks it gets through,
    followed by the exit on the error it stops at. *)
Lemma read_loop_taken rs s fin :
  between_reads opt s ->
  read_loop m opt s rs fin =
  stop (fold_left (process_chunk m opt) (fst (taken opt (asciiMode s) rs)) s)
       (match snd (taken opt (asciiMode s) rs) with
        | Some e => e
        | None => fin
        end).
Proof.
  revert s. induction rs as [|[chunk err] rs IH]; intros s Hs.
  - reflexivity.
  - cbn [read_loop taken].
    rewrite read_body_continued by apply Hs.
    pose proof (process_chunk_between_reads s chunk Hs) as Hs'.
    pose proof (process_chunk_mode s chunk Hs) as Hm.
    specialize (IH _ Hs'). rewrite Hm in IH.
    cbv zeta.
    destruct err as [e|].
    + destruct ((0 <? Z.of_nat (length chunk)) &&
                next_mode opt (asciiMode s) chunk) eqn:E.
      * rewrite IH.
        destruct (taken opt (next_mode opt (asciiMode s) chunk) rs).
        reflexivity.
      * reflexivity.
    + assert (G : forall b : bool,
                 (if b then read_loop m opt (process_chunk m opt s chunk) rs fin
                  else read_loop m opt (process_chunk m opt s chunk) rs fin) =
                 read_loop m opt (process_chunk m opt s chunk) rs fin)
        by (intros []; reflexivity).
      rewrite G, IH.
      destruct (taken opt (next_mode opt (asciiMode s) chunk) rs).
      reflexivity.
Qed.

Lemma scan_scanned src :
  scan m opt src = stop (scanned m opt src) (outcome opt src).
Proof.
  unfold scan, scanned, chunks, outcome.
  apply read_loop_taken, initial_between_reads.
Qed.

Lemma scanned_core src :
  core (scanned m opt src) =
  fold_left (ev_step m) (events opt src) (core (initial opt)).
Proof.
  unfold scanned, events.
  apply fold_process_chunk_core, initial_between_reads.
Qed.

Lemma scanned_between_reads src : between_reads opt (scanned m opt src).
Proof.
  apply fold_process_chunk_between_reads, initial_between_reads.
Qed.

End Scan.

(** ** The four counters in closed form *)

Section Counts.

Variable m : Metrics.t.

Lemma ev_step_Lines s e x :
  Lines (res s) = wrap64 x ->
  Lines (res (ev_step m s e)) =
  wrap64 (x + if Metrics.Lines m && ev_newline e then 1 else 0).
Proof.
  split_state s.
  cbn [res Lines]. intros ->.
  destruct e; step_mk; cbn [res Lines ev_newline];
    match goal with
    | |- context [if ?c then _ else _] => destruct c
    end; rewrite ?add64_wrap_l, ?Z.add_0_r; reflexivity.
Qed.

Lemma ev_step_Chars s e x :
  Chars (res s) = wrap64 x ->
  Chars (res (ev_step m s e)) =
  wrap64 (x + if Metrics.Chars m then 1 else 0).
Proof.
  split_state s.
  cbn [res Chars]. intros ->.
  destruct e; step_mk; cbn [res Chars];
    destruct (Metrics.Chars m);
    rewrite ?add64_wrap_l, ?Z.add_0_r; reflexivity.
Qed.

Lemma ev_step_Words s e x :
  Words (res s) = wrap64 x ->
  Words (res (ev_step m s e)) =
  wrap64 (x + if Metrics.Words m && (negb (ev_space e) && prevSpace s)
              then 1 else 0).
Proof.
  split_state s.
  cbn [res Words prevSpace]. intros ->.
  destruct e; step_mk; cbn [res Words ev_space];
    match goal with
    | |- context [if ?c then _ else _] => destruct c
    end; rewrite ?add64_wrap_l, ?Z.add_0_r; reflexivity.
Qed.

Lemma ev_step_prevSpace s e :
  prevSpace (ev_step m s e) =
  if Metrics.Words m then ev_space e else prevSpace s.
Proof. split_state s. destruct e; step_mk; reflexivity. Qed.

Lemma ev_step_MaxLineBytes s e :
  Metrics.MaxLineBytes m = false ->
  MaxLineBytes (res (ev_step m s e)) = MaxLineBytes (res s).
Proof.
  intros H. split_state s.
  destruct e; step_mk; cbn [res MaxLineBytes]; rewrite H;
    rewrite andb_false_r; reflexivity.
Qed.

Lemma ev_step_MaxLineChars s e :
  Metrics.MaxLineChars m = false ->
  MaxLineChars (res (ev_step m s e)) = MaxLineChars (res s).
Proof.
  intros H. split_state s.
  destruct e; step_mk; cbn [res MaxLineChars]; rewrite H;
    rewrite andb_false_r; reflexivity.
Qed.

Lemma fold_Lines evs s x :
  Lines (res s) = wrap64 x ->
  Lines (res (fold_left (ev_step m) evs s)) =
  wrap64 (x + if Metrics.Lines m then count_newlines evs else 0).
Proof.
  revert s x. induction evs as [|e evs IH]; intros s x H; cbn [fold_left].
  - rewrite H. f_equal. unfold count_newlines.
    destruct (Metrics.Lines m); simpl; lia.
  - rewrite (IH _ _ (ev_step_Lines s e x H)). f_equal.
    unfold count_newlines. cbn [List.filter].
    destruct (Metrics.Lines m); cbn [andb]; [|lia].
    destruct (ev_newline e); simpl length; lia.
Qed.

Lemma fold_Chars evs s x :
  Chars (res s) = wrap64 x ->
  Chars (res (fold_left (ev_step m) evs s)) =
  wrap64 (x + if Metrics.Chars m then Z.of_nat (length evs) else 0).
Proof.
  revert s x. induction evs as [|e evs IH]; intros s x H; cbn [fold_left].
  - rewrite H. f_equal. destruct (Metrics.Chars m); simpl; lia.
  - rewrite (IH _ _ (ev_step_Chars s e x H)). f_equal.
    destruct (Metrics.Chars m); simpl length; lia.
Qed.

Lemma fold_Words evs s x :
  Words (res s) = wrap64 x ->
  Words (res (fold_left (ev_step m) evs s)) =
  wrap64 (x + if Metrics.Words m
              then words_from (prevSpace s) (map ev_space evs) else 0).
Proof.
  revert s x. induction evs as [|e evs IH]; intros s x H; cbn [fold_left].
  - rewrite H. f_equal. destruct (Metrics.Words m); simpl; lia.
  - rewrite (IH _ _ (ev_step_Words s e x H)). f_equal.
    rewrite ev_step_prevSpace.
    destruct (Metrics.Words m); cbn [andb map words_from]; lia.
Qed.

Lemma fold_MaxLineBytes evs s :
  Metrics.MaxLineBytes m = false ->
  MaxLineBytes (res (fold_left (ev_step m) evs s)) = MaxLineBytes (res s).
Proof.
  intros H. apply (fold_ev_step_inv m (fun s => MaxLineBytes (res s))).
  intros s' e. apply ev_step_MaxLineBytes, H.
Qed.

Lemma fold_MaxLineChars evs s :
  Metrics.MaxLineChars m = false ->
  MaxLineChars (res (fold_left (ev_step m) evs s)) = MaxLineChars (res s).
Proof.
  intros H. apply (fold_ev_step_inv m (fun s => MaxLineChars (res s))).
  intros s' e. apply ev_step_MaxLineChars, H.
Qed.

Variable opt : Options.

Lemma process_chunk_Bytes s chunk x :
  between_reads opt s ->
  Bytes (res s) = wrap64 x ->
  Bytes (res (process_chunk m opt s chunk)) =
  wrap64 (x + Z.of_nat (length chunk)).
Proof.
  intros Hb H. destruct chunk as [|c chunk].
  - cbn [process_chunk]. rewrite process_chunk_nil, H. f_equal. simpl. lia.
  - destruct Hb as [Hc Hm].
    rewrite process_chunk_fold by (try assumption; discriminate).
    cbn [set_asciiMode res].
    rewrite (fold_ev_step_inv m (fun s => Bytes (res s)))
      by apply ev_step_Bytes.
    cbn [add_bytes with_res res set_Bytes Bytes]. rewrite H.
    apply add64_wrap_l.
Qed.

Lemma fold_process_chunk_Bytes cs s x :
  between_reads opt s ->
  Bytes (res s) = wrap64 x ->
  Bytes (res (fold_left (process_chunk m opt) cs s)) =
  wrap64 (x + total_bytes cs).
Proof.
  revert s x. induction cs as [|c cs IH]; intros s x Hb H; cbn [fold_left].
  - rewrite H. f_equal. unfold total_bytes. simpl. lia.
  - rewrite (IH _ (x + Z.of_nat (length c))).
    + f_equal. unfold total_bytes. cbn [concat].
      rewrite length_app. lia.
    + apply process_chunk_between_reads, Hb.
    + apply process_chunk_Bytes; assumption.
Qed.

End Counts.

(** ** [CountReader] in closed form *)

Section Results.

Variable m : Metrics.t.
Variable opt : Options.

Lemma finish_Lines s : Lines (finish m s) = Lines (res s).
Proof.
  unfold finish. destruct (Err (res s)); [reflexivity|].
  split_state s. cbn [res curLineBytes curLineChars MaxLineBytes].
  destruct (Metrics.MaxLineBytes m && (MaxLineBytes0 <? curLineBytes0));
    cbn [set_MaxLineBytes MaxLineChars];
    destruct (Metrics.MaxLineChars m && (MaxLineChars0 <? curLineChars0));
    reflexivity.
Qed.

Lemma finish_Words s : Words (finish m s) = Words (res s).
Proof.
  unfold finish. destruct (Err (res s)); [reflexivity|].
  split_state s. cbn [res curLineBytes curLineChars MaxLineBytes].
  destruct (Metrics.MaxLineBytes m && (MaxLineBytes0 <? curLineBytes0));
    cbn [set_MaxLineBytes MaxLineChars];
    destruct (Metrics.MaxLineChars m && (MaxLineChars0 <? curLineChars0));
    reflexivity.
Qed.

Lemma finish_Bytes s : Bytes (finish m s) = Bytes (res s).
Proof.
  unfold finish. destruct (Err (res s)); [reflexivity|].
  split_state s. cbn [res curLineBytes curLineChars MaxLineBytes].
  destruct (Metrics.MaxLineBytes m && (MaxLineBytes0 <? curLineBytes0));
    cbn [set_MaxLineBytes MaxLineChars];
    destruct (Metrics.MaxLineChars m && (MaxLineChars0 <? curLineChars0));
    reflexivity.
Qed.

Lemma finish_Chars s : Chars (finish m s) = Chars (res s).
Proof.
  unfold finish. destruct (Err (res s)); [reflexivity|].
  split_state s. cbn [res curLineBytes curLineChars MaxLineBytes].
  destruct (Metrics.MaxLineBytes m && (MaxLineBytes0 <? curLineBytes0));
    cbn [set_MaxLineBytes MaxLineChars];
    destruct (Metrics.MaxLineChars m && (MaxLineChars0 <? curLineChars0));
    reflexivity.
Qed.

Lemma finish_Err s : Err (finish m s) = Err (res s).
Proof.
  unfold finish. destruct (Err (res s)) eqn:E; [exact E|].
  split_state s. cbn [res curLineBytes curLineChars MaxLineBytes] in *.
  destruct (Metrics.MaxLineBytes m && (MaxLineBytes0 <? curLineBytes0));
    cbn [set_MaxLineBytes MaxLineChars];
    destruct (Metrics.MaxLineChars m && (MaxLineChars0 <? curLineChars0));
    exact E.
Qed.

Lemma finish_MaxLineBytes s :
  Metrics.MaxLineBytes m = false ->
  MaxLineBytes (finish m s) = MaxLineBytes (res s).
Proof.
  intros H. unfold finish. destruct (Err (res s)); [reflexivity|].
  split_state s. cbn [res curLineBytes curLineChars MaxLineBytes].
  rewrite H. cbn [andb MaxLineChars].
  destruct (Metrics.MaxLineChars m && (MaxLineChars0 <? curLineChars0));
    reflexivity.
Qed.

Lemma finish_MaxLineChars s :
  Metrics.MaxLineChars m = false ->
  MaxLineChars (finish m s) = MaxLineChars (res s).
Proof.
  intros H. unfold finish. destruct (Err (res s)); [reflexivity|].
  split_state s. cbn [res curLineBytes curLineChars MaxLineBytes].
  rewrite H.
  destruct (Metrics.MaxLineBytes m && (MaxLineBytes0 <? curLineBytes0));
    reflexivity.
Qed.

(** [finish] looks at neither the byte count nor the mode. *)
Lemma finish_core s :
  finish m s = set_Bytes (Bytes (res s)) (finish m (core s)).
Proof.
  split_state s. unfold finish, core.
  cbn -[Z.ltb]. destruct Err0; [reflexivity|].
  destruct (Metrics.MaxLineBytes m && (MaxLineBytes0 <? curLineBytes0));
    cbn -[Z.ltb];
    destruct (Metrics.MaxLineChars m && (MaxLineChars0 <? curLineChars0));
    reflexivity.
Qed.

Lemma scan_Lines src : Lines (res (scan m opt src)) = Lines (res (scanned m opt src)).
Proof. rewrite scan_scanned. destruct (outcome opt src); reflexivity. Qed.

Lemma scan_Words src : Words (res (scan m opt src)) = Words (res (scanned m opt src)).
Proof. rewrite scan_scanned. destruct (outcome opt src); reflexivity. Qed.

Lemma scan_Bytes src : Bytes (res (scan m opt src)) = Bytes (res (scanned m opt src)).
Proof. rewrite scan_scanned. destruct (outcome opt src); reflexivity. Qed.

Lemma scan_Chars src : Chars (res (scan m opt src)) = Chars (res (scanned m opt src)).
Proof. rewrite scan_scanned. destruct (outcome opt src); reflexivity. Qed.

Lemma scan_MaxLineBytes src :
  MaxLineBytes (res (scan m opt src)) = MaxLineBytes (res (scanned m opt src)).
Proof. rewrite scan_scanned. destruct (outcome opt src); reflexivity. Qed.

Lemma scan_MaxLineChars src :
  MaxLineChars (res (scan m opt src)) = MaxLineChars (res (scanned m opt src)).
Proof. rewrite scan_scanned. destruct (outcome opt src); reflexivity. Qed.

Lemma core_Lines s : Lines (res (core s)) = Lines (res s).
Proof. split_state s. reflexivity. Qed.

Lemma core_Words s : Words (res (core s)) = Words (res s).
Proof. split_state s. reflexivity. Qed.

Lemma core_Chars s : Chars (res (core s)) = Chars (res s).
Proof. split_state s. reflexivity. Qed.

Lemma core_MaxLineBytes s : MaxLineBytes (res (core s)) = MaxLineBytes (res s).
Proof. split_state s. reflexivity. Qed.

Lemma core_MaxLineChars s : MaxLineChars (res (core s)) = MaxLineChars (res s).
Proof. split_state s. reflexivity. Qed.

Lemma core_Err s : Err (res (core s)) = Err (res s).
Proof. split_state s. reflexivity. Qed.

Lemma core_prevSpace s : prevSpace (core s) = prevSpace s.
Proof. split_state s. reflexivity. Qed.

Lemma wrap64_0 : wrap64 0 = 0.
Proof. reflexivity. Qed.

(** [Lines] is the number of newline characters. *)
Lemma CountReader_Lines src :
  Lines (CountReader src m opt) =
  if Metrics.Lines m then wrap64 (count_newlines (events opt src)) else 0.
Proof.
  unfold CountReader.
  rewrite finish_Lines, scan_Lines, <- core_Lines, scanned_core.
  rewrite (fold_Lines m _ _ 0) by reflexivity.
  destruct (Metrics.Lines m); reflexivity.
Qed.

(** [Words] is the number of white-space to non-white-space edges. *)
Lemma CountReader_Words src :
  Words (CountReader src m opt) =
  if Metrics.Words m
  then wrap64 (words_from true (map ev_space (events opt src))) else 0.
Proof.
  unfold CountReader.
  rewrite finish_Words, scan_Words, <- core_Words, scanned_core.
  rewrite (fold_Words m _ _ 0) by reflexivity.
  destruct (Metrics.Words m); reflexivity.
Qed.

(** [Chars] is the number of characters. *)
Lemma CountReader_Chars src :
  Chars (CountReader src m opt) =
  if Metrics.Chars m then wrap64 (Z.of_nat (length (events opt src))) else 0.
Proof.
  unfold CountReader.
  rewrite finish_Chars, scan_Chars, <- core_Chars, scanned_core.
  rewrite (fold_Chars m _ _ 0) by reflexivity.
  destruct (Metrics.Chars m); reflexivity.
Qed.

(** [Bytes] is the number of bytes read, selected or not. *)
Lemma CountReader_Bytes src :
  Bytes (CountReader src m opt) = wrap64 (total_bytes (chunks opt src)).
Proof.
  unfold CountReader. rewrite finish_Bytes, scan_Bytes. unfold scanned.
  rewrite (fold_process_chunk_Bytes m opt _ _ 0).
  - reflexivity.
  - apply initial_between_reads.
  - reflexivity.
Qed.

Lemma CountReader_MaxLineBytes_unselected src :
  Metrics.MaxLineBytes m = false -> MaxLineBytes (CountReader src m opt) = 0.
Proof.
  intros H. unfold CountReader.
  rewrite finish_MaxLineBytes, scan_MaxLineBytes, <- core_MaxLineBytes,
    scanned_core by exact H.
  rewrite fold_MaxLineBytes by exact H. reflexivity.
Qed.

Lemma CountReader_MaxLineChars_unselected src :
  Metrics.MaxLineChars m = false -> MaxLineChars (CountReader src m opt) = 0.
Proof.
  intros H. unfold CountReader.
  rewrite finish_MaxLineChars, scan_MaxLineChars, <- core_MaxLineChars,
    scanned_core by exact H.
  rewrite fold_MaxLineChars by exact H. reflexivity.
Qed.

Lemma CountReader_Err src :
  Err (CountReader src m opt) =
  match outcome opt src with EOF => None | Failed e => Some e end.
Proof.
  unfold CountReader. rewrite finish_Err, scan_scanned.
  destruct (outcome opt src); [|reflexivity]. cbn [stop].
  rewrite <- core_Err, scanned_core.
  rewrite (fold_ev_step_inv m (fun s => Err (res s))) by apply ev_step_Err.
  reflexivity.
Qed.

End Results.

(** ** [CountBytes]: the reads of a buffered in-memory reader *)

Lemma drop_length_take {A} (n : nat) (l : list A) :
  skipn (length (firstn n l)) l = skipn n l.
Proof.
  rewrite length_take. destruct (Nat.le_gt_cases n (length l)) as [H|H].
  - rewrite Nat.min_l by exact H. reflexivity.
  - rewrite Nat.min_r by lia. rewrite !drop_ge by lia. reflexivity.
Qed.

Lemma take_nonempty {A} (n : nat) (l : list A) :
  (0 < n)%nat -> l <> [] -> firstn n l <> [].
Proof. destruct n, l; simpl; intros; try lia; congruence. Qed.

Lemma bytesReader_Read_spec r plen :
  (0 < plen)%nat ->
  match bytesReader_Read r plen with
  | (chunk, e, r') =>
    skipn (off r) (b r) = chunk ++ skipn (off r') (b r') /\
    (length chunk <= plen)%nat /\
    ((chunk = [] /\ e = Some EOF /\ skipn (off r) (b r) = []) \/
     (chunk <> [] /\ e = None))
  end.
Proof.
  intros Hp. unfold bytesReader_Read.
  destruct (length (b r) <=? off r)%nat eqn:E.
  - apply Nat.leb_le in E. rewrite drop_ge by exact E.
    split; [reflexivity|]. split; [simpl; lia|]. left. auto.
  - apply Nat.leb_gt in E. cbn [b off].
    set (rest := skipn (off r) (b r)).
    assert (Hne : rest <> []).
    { intros H. apply (f_equal length) in H. unfold rest in H.
      rewrite length_drop in H. simpl in H. lia. }
    split; [|split].
    + rewrite <- drop_drop. fold rest. rewrite drop_length_take.
      symmetry. apply take_drop.
    + rewrite length_take. lia.
    + right. split; [|reflexivity]. apply take_nonempty; assumption.
Qed.

(** One buffered read: at the end of the data it reports [io.EOF] with no
    bytes; before, it returns a non-empty prefix of what remains. *)
Lemma bufio_Read_spec r plen :
  (0 < plen)%nat -> (0 < bufSize r)%nat -> held r = None ->
  match bufio_Read r plen with
  | (chunk, e, r') =>
    remaining r = chunk ++ remaining r' /\
    bufSize r' = bufSize r /\ held r' = None /\
    (length chunk <= plen)%nat /\
    ((chunk = [] /\ e = Some EOF /\ remaining r = []) \/
     (chunk <> [] /\ e = None))
  end.
Proof.
  intros Hp Hb Hh. unfold bufio_Read, remaining.
  destruct plen as [|plen']; [lia|]. set (plen := S plen') in *.
  destruct (unread r) as [|u us] eqn:Eu.
  - rewrite Hh.
    destruct (bufSize r <=? plen)%nat.
    + pose proof (bytesReader_Read_spec (rd r) plen Hp) as H.
      destruct (bytesReader_Read (rd r) plen) as [[chunk e] rd'].
      destruct H as (H1 & H2 & H3). cbn [unread rd bufSize held].
      split; [exact H1|]. split; [reflexivity|].
      split; [reflexivity|]. split; [exact H2|]. exact H3.
    + pose proof (bytesReader_Read_spec (rd r) (bufSize r) Hb) as H.
      destruct (bytesReader_Read (rd r) (bufSize r)) as [[chunk e] rd'].
      destruct H as (H1 & H2 & H3).
      destruct chunk as [|c chunk].
      * cbn [unread rd bufSize held]. split; [exact H1|].
        split; [reflexivity|]. split; [reflexivity|]. split; [simpl; lia|].
        destruct H3 as [H3|[H3 _]]; [|congruence]. left.
        split; [reflexivity|]. tauto.
      * cbn [unread rd bufSize held].
        destruct H3 as [[H3 _]|[_ H3]]; [congruence|].
        split.
        { cbn [app]. rewrite H1. rewrite app_assoc. f_equal.
          symmetry. apply take_drop. }
        split; [reflexivity|]. split; [exact H3|].
        split; [rewrite length_take; lia|].
        right. split; [|reflexivity]. apply take_nonempty; [lia|discriminate].
  - cbn [unread rd bufSize held]. split.
    { rewrite app_assoc. f_equal. symmetry. apply take_drop. }
    split; [reflexivity|]. split; [exact Hh|].
    split; [rewrite length_take; lia|].
    right. split; [|reflexivity]. apply take_nonempty; [lia|discriminate].
Qed.

(** With a buffer of at least one byte the reads end: they deliver the
    data in order, each with a nil error, and then one read reports
    [io.EOF] with no bytes. *)
Lemma read_all_spec fuel r plen :
  (0 < plen)%nat -> (0 < bufSize r)%nat -> held r = None ->
  (length (remaining r) < fuel)%nat ->
  exists cs,
    read_all fuel r plen =
      Some (mkSource (map (fun c => (c, None)) cs ++ [([], Some EOF)]) EOF) /\
    concat cs = remaining r /\
    Forall (fun c => (length c <= plen)%nat) cs.
Proof.
  intros Hp. revert r.
  induction fuel as [|fuel IH]; intros r Hb Hh Hlen; [lia|].
  cbn [read_all].
  pose proof (bufio_Read_spec r plen Hp Hb Hh) as H.
  destruct (bufio_Read r plen) as [[chunk e] r'].
  destruct H as (H1 & H2 & H3 & H4 & [(Hc & He & Hr)|(Hc & He)]); subst e.
  - exists []. subst chunk. split; [reflexivity|].
    split; [symmetry; exact Hr | constructor].
  - destruct (IH r') as (cs & Hs & Hcat & Hall).
    + rewrite H2. exact Hb.
    + exact H3.
    + rewrite H1, length_app in Hlen.
      assert (0 < length chunk)%nat by (destruct chunk; simpl; [congruence|lia]).
      lia.
    + rewrite Hs. exists (chunk :: cs). split; [reflexivity|]. split.
      * cbn [concat]. rewrite Hcat. symmetry. exact H1.
      * constructor; assumption.
Qed.

(** Without room in the buffer no read ever reports an error. *)
Lemma read_all_zero fuel r :
  unread r = [] -> held r = None -> read_all fuel r 0 = None.
Proof.
  revert r. induction fuel as [|fuel IH]; intros r Hu Hh; [reflexivity|].
  cbn [read_all bufio_Read]. rewrite Hu, Hh.
  rewrite IH by reflexivity. reflexivity.
Qed.

Lemma taken_plain opt a cs :
  taken opt a (map (fun c => (c, None)) cs) = (cs, None).
Proof.
  revert a. induction cs as [|c cs IH]; intros a; [reflexivity|].
  cbn [map taken]. rewrite IH. reflexivity.
Qed.

Lemma taken_then_end opt a cs e :
  taken opt a (map (fun c => (c, None)) cs ++ [([], Some e)]) =
  (cs ++ [[]], Some e).
Proof.
  revert a. induction cs as [|c cs IH]; intros a; [reflexivity|].
  cbn [map app taken]. rewrite IH. reflexivity.
Qed.

Lemma chunks_plain opt cs fin : chunks opt (plain cs fin) = cs.
Proof. unfold chunks, plain. cbn [reads]. rewrite taken_plain. reflexivity. Qed.

Lemma outcome_plain opt cs fin : outcome opt (plain cs fin) = fin.
Proof. unfold outcome, plain. cbn [reads]. rewrite taken_plain. reflexivity. Qed.

Lemma fold_process_chunk_snoc_nil m opt cs s :
  fold_left (process_chunk m opt) (cs ++ [[]]) s =
  fold_left (process_chunk m opt) cs s.
Proof. rewrite fold_left_app. reflexivity. Qed.

(** A reader that reports its end in a read of its own, with no bytes, is
    counted like the plain reader of the same chunks. *)
Lemma CountReader_then_end cs e fin m opt :
  CountReader (mkSource (map (fun c => (c, None)) cs ++ [([], Some e)]) fin)
              m opt =
  CountReader (plain cs e) m opt.
Proof.
  unfold CountReader. rewrite !scan_scanned.
  unfold scanned, chunks, outcome, plain. cbn [reads at_end].
  rewrite taken_then_end, taken_plain. cbn [fst snd].
  rewrite fold_process_chunk_snoc_nil. reflexivity.
Qed.

(** [CountBytes] returns exactly when the buffer size is positive, and then
    it is [CountReader] on some split of the data into chunks of at most
    that size, ended by [io.EOF]. *)
Lemma CountBytes_spec data m opt :
  match CountBytes data m opt with
  | Some r =>
    0 < BufferSize opt /\
    exists cs,
      r = CountReader (plain cs EOF) m opt /\ concat cs = data /\
      Forall (fun c => Z.of_nat (length c) <= BufferSize opt) cs
  | None => BufferSize opt <= 0
  end.
Proof.
  unfold CountBytes.
  destruct (BufferSize opt <? 0) eqn:E; [lia|].
  destruct (Z.to_nat (BufferSize opt)) as [|k] eqn:Ek.
  - rewrite read_all_zero by reflexivity. lia.
  - rewrite <- Ek.
    destruct (read_all_spec (length data + 2)
                (NewReaderSize (mkBytesReader data 0)
                               (Z.to_nat (BufferSize opt)))
                (Z.to_nat (BufferSize opt)))
      as (cs & Hs & Hcat & Hall).
    + lia.
    + cbn [NewReaderSize bufSize]. lia.
    + reflexivity.
    + unfold remaining. cbn. rewrite drop_0. lia.
    + rewrite Hs. split; [lia|]. exists cs.
      split; [apply CountReader_then_end|].
      split; [rewrite Hcat; unfold remaining; cbn; apply drop_0|].
      eapply Forall_impl; [exact Hall|]. cbn. intros c Hc. lia.
Qed.

(** ** Counters that were not asked for *)

Lemma CountReader_unselected src m opt :
  unselected_are_zero m (CountReader src m opt).
Proof.
  repeat split; intros H.
  - rewrite CountReader_Lines, H. reflexivity.
  - rewrite CountReader_Words, H. reflexivity.
  - rewrite CountReader_Chars, H. reflexivity.
  - apply CountReader_MaxLineBytes_unselected, H.
  - apply CountReader_MaxLineChars_unselected, H.
Qed.

(** C10.  For every source, metrics selection and options, [CountReader]
    sets [Bytes] to the number of bytes read (as a [uint64]) whether or not
    the Bytes metric is selected, and leaves the counter of every other
    unselected metric at zero; so does [CountBytes] whenever it returns,
    which it does exactly for a positive buffer size. *)
Theorem bytes_always_counted_others_only_on_request
    (src : Source) (data : list byte) (m : Metrics.t) (opt : Options) :
  (Bytes (CountReader src m opt) = wrap64 (total_bytes (chunks opt src)) /\
   unselected_are_zero m (CountReader src m opt)) /\
  match CountBytes data m opt with
  | Some r =>
    Bytes r = wrap64 (Z.of_nat (length data)) /\ unselected_are_zero m r
  | None => BufferSize opt <= 0
  end.
Proof.
  split.
  - split; [apply CountReader_Bytes | apply CountReader_unselected].
  - pose proof (CountBytes_spec data m opt) as H.
    destruct (CountBytes data m opt) as [r|]; [|exact H].
    destruct H as (_ & cs & -> & Hcat & _). split.
    + rewrite CountReader_Bytes, chunks_plain. unfold total_bytes.
      rewrite Hcat. reflexivity.
    + apply CountReader_unselected.
Qed.

(** ** Counts over a concatenation *)

Lemma count_newlines_app l1 l2 :
  count_newlines (l1 ++ l2) = count_newlines l1 + count_newlines l2.
Proof.
  unfold count_newlines. rewrite List.filter_app, length_app. lia.
Qed.

Lemma last_cons_default {A} (x d : A) (l : list A) :
  List.last (x :: l) d = List.last l x.
Proof.
  revert x d. induction l as [|y l IH]; intros x d; [reflexivity|].
  change (List.last (x :: y :: l) d) with (List.last (y :: l) d).
  rewrite (IH y d), (IH y x). reflexivity.
Qed.

Lemma words_from_app p l1 l2 :
  words_from p (l1 ++ l2) = words_from p l1 + words_from (List.last l1 p) l2.
Proof.
  revert p. induction l1 as [|sp l1 IH]; intros p.
  - cbn. lia.
  - cbn [app words_from]. rewrite IH, last_cons_default. lia.
Qed.

Lemma words_from_start l :
  words_from true l =
  words_from false l + match l with sp :: _ => if sp then 0 else 1 | [] => 0 end.
Proof. destruct l as [|[] l]; cbn; lia. Qed.

(** The sum of the two word counts exceeds the word count of the
    concatenation by one exactly when a word spans the junction. *)
Lemma words_from_junction (l1 l2 : list event) :
  words_from true (map ev_space (l1 ++ l2)) +
  (match last l1, head l2 with
   | Some e1, Some e2 => if negb (ev_space e1) && negb (ev_space e2)
                         then 1 else 0
   | _, _ => 0
   end) =
  words_from true (map ev_space l1) + words_from true (map ev_space l2).
Proof.
  rewrite map_app, words_from_app.
  destruct l1 as [|e l1] using rev_ind.
  - cbn. lia.
  - clear IHl1. rewrite last_snoc, map_app. cbn [map].
    rewrite List.last_last.
    destruct (ev_space e); cbn [negb andb].
    + destruct (head l2); lia.
    + rewrite (words_from_start (map ev_space l2)).
      destruct l2 as [|e2 l2]; cbn [head map]; [lia|].
      destruct (ev_space e2); cbn [negb]; lia.
Qed.

(** ** The fast path against forced decoding *)

Lemma rune_chunk_carry m s chunk :
  carry s = [] -> carry (rune_chunk m s chunk) = [].
Proof.
  intros H. rewrite rune_chunk_fold by exact H.
  rewrite (fold_ev_step_inv m carry) by apply ev_step_carry. exact H.
Qed.

Lemma decoding_chunk_carry m s chunk :
  carry s = [] -> carry (decoding_chunk m s chunk) = [].
Proof.
  intros H. unfold decoding_chunk.
  destruct (0 <? Z.of_nat (length chunk)); [|exact H].
  apply rune_chunk_carry. exact H.
Qed.

Lemma decoding_chunk_core m s chunk :
  carry s = [] ->
  core (decoding_chunk m s chunk) =
  fold_left (ev_step m) (decode_events (length chunk) chunk) (core s).
Proof.
  intros H. unfold decoding_chunk.
  destruct chunk as [|c chunk]; [reflexivity|].
  replace (0 <? Z.of_nat (length (c :: chunk))) with true
    by (symmetry; apply Z.ltb_lt; simpl; lia).
  rewrite rune_chunk_fold by exact H.
  rewrite core_fold. fold (add_bytes (Z.of_nat (length (c :: chunk))) s).
  rewrite core_add_bytes. reflexivity.
Qed.

Lemma decoding_chunk_Bytes m s chunk :
  carry s = [] ->
  Bytes (res (decoding_chunk m s chunk)) =
  if 0 <? Z.of_nat (length chunk)
  then add64 (Bytes (res s)) (Z.of_nat (length chunk)) else Bytes (res s).
Proof.
  intros Hc. unfold decoding_chunk.
  destruct (0 <? Z.of_nat (length chunk)); [|reflexivity].
  rewrite rune_chunk_fold by exact Hc.
  rewrite (fold_ev_step_inv m (fun s => Bytes (res s)))
    by apply ev_step_Bytes.
  reflexivity.
Qed.

Lemma process_chunk_Bytes_step m opt s chunk :
  between_reads opt s ->
  Bytes (res (process_chunk m opt s chunk)) =
  if 0 <? Z.of_nat (length chunk)
  then add64 (Bytes (res s)) (Z.of_nat (length chunk)) else Bytes (res s).
Proof.
  intros [Hc Hm]. destruct chunk as [|c chunk]; [reflexivity|].
  rewrite process_chunk_fold by (try assumption; discriminate).
  replace (0 <? Z.of_nat (length (c :: chunk))) with true
    by (symmetry; apply Z.ltb_lt; simpl; lia).
  cbn [set_asciiMode res].
  rewrite (fold_ev_step_inv m (fun s => Bytes (res s)))
    by apply ev_step_Bytes.
  reflexivity.
Qed.

Lemma in_step_chunk m opt s d chunk :
  Forall (fun c => bval c < 0x80) chunk ->
  in_step opt s d ->
  in_step opt (process_chunk m opt s chunk) (decoding_chunk m d chunk).
Proof.
  intros Ha (Hcore & Hb & Hs & Hd). split; [|split; [|split]].
  - rewrite process_chunk_core, decoding_chunk_core by assumption.
    rewrite Hcore. unfold chunk_events.
    destruct (locale.IsCOrPOSIX (Locale opt)); [|reflexivity].
    symmetry. apply ascii_chunk_decoded, Ha.
  - rewrite process_chunk_Bytes_step, decoding_chunk_Bytes by assumption.
    rewrite Hb. reflexivity.
  - apply process_chunk_between_reads, Hs.
  - apply decoding_chunk_carry, Hd.
Qed.

Lemma in_step_finish m opt s d e :
  in_step opt s d -> finish m (stop s e) = finish m (stop d e).
Proof.
  intros (Hcore & Hb & _ & _).
  rewrite (finish_core m (stop s e)), (finish_core m (stop d e)).
  destruct e as [|e]; cbn [stop].
  - rewrite Hcore, Hb. reflexivity.
  - rewrite !core_set_Err, Hcore.
    change (Bytes (res (with_res (set_Err (Some e)) s)))
      with (Bytes (res s)).
    change (Bytes (res (with_res (set_Err (Some e)) d)))
      with (Bytes (res d)).
    rewrite Hb. reflexivity.
Qed.

Lemma loops_agree m opt rs fin s d :
  Forall (fun rd => Forall (fun c => bval c < 0x80) (fst rd)) rs ->
  Forall (fun rd => fst rd = [] \/ snd rd = None) rs ->
  in_step opt s d ->
  finish m (read_loop m opt s rs fin) = finish m (decoding_loop m d rs fin).
Proof.
  intros Ha Hal. revert s d.
  induction rs as [|[chunk err] rs IH]; intros s d Hsd.
  - apply (in_step_finish m opt), Hsd.
  - apply Forall_cons in Ha as [Hc Ha]. apply Forall_cons in Hal as [Hl Hal].
    cbn [fst snd] in Hc, Hl.
    pose proof (in_step_chunk m opt s d chunk Hc Hsd) as Hstep.
    destruct Hsd as (_ & _ & [Hs1 Hs2] & _).
    cbn [read_loop decoding_loop].
    rewrite read_body_continued by assumption.
    destruct err as [e|].
    + destruct Hl as [-> | Hl]; [|discriminate].
      cbn [length Z.of_nat Z.ltb Z.compare andb].
      apply (in_step_finish m opt), Hstep.
    + destruct ((0 <? Z.of_nat (length chunk)) &&
                next_mode opt (asciiMode s) chunk);
        apply IH; assumption.
Qed.

(** C4.  For a reader none of whose reads brings a byte above 0x7F (and
    none of whose reads brings bytes and an error at once), under any
    locale classification and so in particular under a multibyte (UTF-8)
    one, [CountReader] returns the very result of the scan that decodes
    every chunk rune by rune: the fast path changes no metric. *)
Theorem fast_path_equals_full_decoding
    (src : Source) (m : Metrics.t) (opt : Options) :
  ascii_only src ->
  errors_come_alone src ->
  CountReader src m opt = CountReader_decoding src m.
Proof.
  intros Hascii Halone. unfold CountReader, CountReader_decoding, scan.
  apply loops_agree; try assumption.
  split; [reflexivity|]. split; [reflexivity|].
  split; [apply initial_between_reads | reflexivity].
Qed.

Lemma fast_path_equals_full_decoding_witness :
  CountReader (plain [bytes "hello "; bytes "wor"; bytes "ld" ++ [nl]] EOF)
              all_metrics (mkOptions 6 utf8) =
  CountReader_decoding
    (plain [bytes "hello "; bytes "wor"; bytes "ld" ++ [nl]] EOF)
    all_metrics.
Proof.
  apply fast_path_equals_full_decoding.
  - unfold ascii_only, plain. cbn [reads map fst].
    repeat (first [apply List.Forall_cons | apply List.Forall_nil]);
      reflexivity.
  - unfold errors_come_alone, plain. cbn [reads map snd].
    repeat (first [apply List.Forall_cons | apply List.Forall_nil]);
      right; reflexivity.
Defined.

(** With bytes and a failure in one read the two part ways: the fast path
    goes on to the next read and the failure is lost, the decoding scan
    records it. *)
Example fast_path_drops_error_that_comes_with_bytes :
  let src := mkSource [(bytes "ab", Some (Failed "EIO"%string))] EOF in
  Err (CountReader src lwbc (mkOptions 16 utf8)) = None /\
  Err (CountReader_decoding src lwbc) = Some "EIO"%string.
Proof. cbv zeta. split; vm_compute; reflexivity. Qed.

(** ** The mode never goes back *)

Lemma run_states_modes m opt s cs :
  between_reads opt s ->
  map asciiMode (run_states m opt s cs) = modes_from opt (asciiMode s) cs.
Proof.
  revert s. induction cs as [|c cs IH]; intros s H.
  - reflexivity.
  - cbn [run_states modes_from map]. f_equal.
    rewrite IH by (apply process_chunk_between_reads, H).
    rewrite process_chunk_mode by exact H. reflexivity.
Qed.

Lemma modes_from_false opt cs :
  modes_from opt false cs = repeat false (S (length cs)).
Proof.
  induction cs as [|c cs IH]; [reflexivity|].
  cbn [modes_from length repeat]. f_equal. exact IH.
Qed.

Lemma modes_from_c_locale opt cs :
  locale.IsCOrPOSIX (Locale opt) = true ->
  modes_from opt true cs = repeat true (S (length cs)).
Proof.
  intros H. induction cs as [|c cs IH]; [reflexivity|].
  cbn [modes_from length repeat]. f_equal.
  unfold next_mode. rewrite H. exact IH.
Qed.

Lemma modes_from_shape opt a cs :
  exists k : nat,
    modes_from opt a cs = repeat true k ++ repeat false (S (length cs) - k).
Proof.
  revert a. induction cs as [|c cs IH]; intros a.
  - destruct a; [exists 1%nat | exists 0%nat]; reflexivity.
  - destruct a.
    + destruct (IH (next_mode opt true c)) as [k Hk].
      exists (S k). cbn [modes_from]. rewrite Hk. reflexivity.
    + exists 0%nat. apply modes_from_false.
Qed.

(** C6.  Over a whole run the mode starts as the fast path exactly when the
    locale is C/POSIX or UTF-8, after each read it is the previous mode
    unless, outside the C locale, the chunk holds a byte of 0x80 or more,
    which switches it to decoding; so the modes are a run of fast-path
    followed by a run of decoding (at most one switch, never back), and
    under a C/POSIX locale the mode is the fast path throughout. *)
Theorem mode_switches_at_most_once_and_never_back
    (m : Metrics.t) (opt : Options) (src : Source) :
  mode_trace m opt src =
    modes_from opt
      (locale.IsCOrPOSIX (Locale opt) || locale.IsUTF8 (Locale opt))
      (chunks opt src) /\
  (exists k : nat,
      mode_trace m opt src =
      repeat true k ++ repeat false (S (length (chunks opt src)) - k)) /\
  (forall (size : Z) (enc : string) (u : bool),
      let c_locale := mkOptions size (locale.mkInfo enc u true) in
      mode_trace m c_locale src =
      repeat true (S (length (chunks c_locale src)))).
Proof.
  assert (H : forall o, mode_trace m o src =
                        modes_from o (asciiMode (initial o)) (chunks o src)).
  { intros o. unfold mode_trace.
    apply run_states_modes, initial_between_reads. }
  split; [apply H|]. split.
  - rewrite H. apply modes_from_shape.
  - intros size enc u. cbv zeta. rewrite H.
    apply modes_from_c_locale. reflexivity.
Qed.

(** The chunk in which the byte is seen is itself decoded, from its first
    byte on. *)
Lemma switch_applies_to_the_current_chunk m opt s chunk :
  asciiMode s = true ->
  locale.IsCOrPOSIX (Locale opt) = false ->
  has_high chunk = true ->
  route m opt s chunk = (rune_chunk m (set_asciiMode false s) chunk, false).
Proof.
  intros Ha Hc Hh. unfold route. rewrite Ha, Hc. cbn [negb].
  fold (has_high chunk). rewrite Hh. reflexivity.
Qed.

(** ** Where the code departs from the design *)

(** C2.  With only the maximum line length in bytes selected, the newline
    is not acted upon at all (the test is [m.Lines && b == '\n']), so the
    in-progress length is never reset: "a\nbb\nccc\n" yields 9, the length
    of the whole input, where the design asks for 3.  With Lines selected as
    well the same input yields 3. *)
Theorem max_line_length_needs_lines_selected :
  let input := bytes "a" ++ [nl] ++ bytes "bb" ++ [nl] ++ bytes "ccc" ++ [nl] in
  let opt := mkOptions 1024 utf8 in
  option_map MaxLineBytes
    (CountBytes input (Metrics.mk false false false false true false) opt) =
  Some 9 /\
  option_map MaxLineChars
    (CountBytes input (Metrics.mk false false false false false true) opt) =
  Some 9 /\
  option_map MaxLineBytes
    (CountBytes input (Metrics.mk true false false false true false) opt) =
  Some 3.
Proof. cbv zeta. repeat split; vm_compute; reflexivity. Qed.

(** C1.  The two bytes of "é" read with a buffer of one byte are two
    chunks; the decoder is run on each chunk to its end, so the first byte
    alone and the second byte alone are each rejected and counted as a
    character: Chars is 2, against 1 with a buffer of two bytes.  The same
    split turns the no-break space between "a" and "b" from white space into
    two non-space bytes: one word instead of two. *)
Theorem chunk_boundary_inside_a_code_point_changes_counts :
  let chars := Metrics.mk false false false true false false in
  let words := Metrics.mk false true false false false false in
  option_map Chars (CountBytes (bytes "é") chars (mkOptions 1 utf8)) = Some 2 /\
  option_map Chars (CountBytes (bytes "é") chars (mkOptions 2 utf8)) = Some 1 /\
  option_map Words
    (CountBytes (bytes "a" ++ [xc2; xa0] ++ bytes "b") words
                (mkOptions 2 utf8)) = Some 1 /\
  option_map Words
    (CountBytes (bytes "a" ++ [xc2; xa0] ++ bytes "b") words
                (mkOptions 4 utf8)) = Some 2.
Proof. cbv zeta. repeat split; vm_compute; reflexivity. Qed.

(** Where the split into chunks does not matter: a result is a function of
    the events, the number of bytes and the way the stream ends. *)
Lemma CountReader_plain_eq m opt cs1 cs2 fin :
  fold_left (ev_step m) (events opt (plain cs1 fin)) (core (initial opt)) =
  fold_left (ev_step m) (events opt (plain cs2 fin)) (core (initial opt)) ->
  total_bytes cs1 = total_bytes cs2 ->
  CountReader (plain cs1 fin) m opt = CountReader (plain cs2 fin) m opt.
Proof.
  intros He Hb. unfold CountReader.
  rewrite !scan_scanned, !outcome_plain.
  assert (Hc : core (scanned m opt (plain cs1 fin)) =
               core (scanned m opt (plain cs2 fin)))
    by (rewrite !scanned_core; exact He).
  assert (Hn : Bytes (res (scanned m opt (plain cs1 fin))) =
               Bytes (res (scanned m opt (plain cs2 fin)))).
  { unfold scanned. rewrite !chunks_plain.
    rewrite !(fold_process_chunk_Bytes m opt _ _ 0), Hb;
      try reflexivity; apply initial_between_reads. }
  rewrite (finish_core m (stop (scanned m opt (plain cs1 fin)) fin)),
    (finish_core m (stop (scanned m opt (plain cs2 fin)) fin)).
  destruct fin as [|e]; cbn [stop].
  - rewrite Hc, Hn. reflexivity.
  - rewrite !core_set_Err, Hc.
    change (Bytes (res (with_res (set_Err (Some e)) ?s)))
      with (Bytes (res s)).
    rewrite Hn. reflexivity.
Qed.

Lemma concat_map_map {A B} (f : A -> B) (ls : list (list A)) :
  concat (map (map f) ls) = map f (concat ls).
Proof.
  induction ls as [|l ls IH]; [reflexivity|].
  cbn [map concat]. rewrite IH, map_app. reflexivity.
Qed.

(** Under a C/POSIX locale every metric is the same however the bytes are
    split into chunks. *)
Lemma chunk_invariance_in_the_c_locale m opt cs1 cs2 fin :
  locale.IsCOrPOSIX (Locale opt) = true ->
  concat cs1 = concat cs2 ->
  CountReader (plain cs1 fin) m opt = CountReader (plain cs2 fin) m opt.
Proof.
  intros HC Hcat. apply CountReader_plain_eq.
  - unfold events. rewrite !chunks_plain. unfold chunk_events.
    rewrite HC.
    change (fun chunk : list byte => map Plain chunk) with (map Plain).
    rewrite !concat_map_map, Hcat. reflexivity.
  - unfold total_bytes. rewrite Hcat. reflexivity.
Qed.

(** So is it, under any locale, while no byte is above 0x7F. *)
Lemma chunk_invariance_on_ascii m opt cs1 cs2 fin :
  Forall (Forall (fun c => bval c < 0x80)) cs1 ->
  concat cs1 = concat cs2 ->
  CountReader (plain cs1 fin) m opt = CountReader (plain cs2 fin) m opt.
Proof.
  intros Ha Hcat.
  assert (Ha2 : Forall (Forall (fun c => bval c < 0x80)) cs2).
  { apply Forall_concat. rewrite <- Hcat. apply Forall_concat. exact Ha. }
  assert (H : forall cs s,
             Forall (Forall (fun c => bval c < 0x80)) cs ->
             fold_left (ev_step m) (concat (map (chunk_events opt) cs)) s =
             fold_left (ev_step m) (map Plain (concat cs)) s).
  { induction cs as [|c cs IH]; intros s Hcs; [reflexivity|].
    apply Forall_cons in Hcs as [Hc Hcs].
    cbn [map concat]. rewrite map_app, !fold_left_app, IH by exact Hcs.
    f_equal. unfold chunk_events.
    destruct (locale.IsCOrPOSIX (Locale opt)); [reflexivity|].
    apply ascii_chunk_decoded, Hc. }
  apply CountReader_plain_eq.
  - unfold events. rewrite !chunks_plain, !H, Hcat by assumption.
    reflexivity.
  - unfold total_bytes. rewrite Hcat. reflexivity.
Qed.

(** The carry buffer is always empty between reads: the decoding loop never
    leaves a partial code point for the next chunk. *)
Lemma carry_is_never_used m opt src :
  Forall (fun s => carry s = []) (run_states m opt (initial opt) (chunks opt src)).
Proof.
  assert (H : forall cs s, between_reads opt s ->
                Forall (fun s => carry s = []) (run_states m opt s cs)).
  { induction cs as [|c cs IH]; intros s Hs; cbn [run_states].
    - constructor; [apply Hs | constructor].
    - constructor; [apply Hs|].
      apply IH, process_chunk_between_reads, Hs. }
  apply H, initial_between_reads.
Qed.

(** ** The collector *)

Lemma seqZ_snoc (n : Z) : 0 <= n -> seqZ 0 (n + 1) = seqZ 0 n ++ [n].
Proof.
  intros H. rewrite seqZ_app by lia. f_equal.
Qed.

Lemma release_next_mono fuel c : next c <= next (release fuel c).
Proof.
  revert c. induction fuel as [|fuel IH]; intros c; cbn [release]; [lia|].
  destruct (pending c !! next c); [|lia].
  etransitivity; [|apply IH]. cbn. lia.
Qed.

Lemma release_exitCode fuel c : exitCode (release fuel c) = exitCode c.
Proof.
  revert c. induction fuel as [|fuel IH]; intros c; cbn [release];
    [reflexivity|].
  destruct (pending c !! next c); [|reflexivity]. rewrite IH. reflexivity.
Qed.

Lemma release_in_order fuel c :
  keyed c -> released_in_order c ->
  keyed (release fuel c) /\ released_in_order (release fuel c).
Proof.
  revert c. induction fuel as [|fuel IH]; intros c Hk [Ho Hn];
    cbn [release]; [split; [assumption | split; assumption]|].
  destruct (pending c !! next c) as [pr|] eqn:E;
    [|split; [assumption | split; assumption]].
  apply IH.
  - intros k r. cbn [pending]. intros H.
    apply lookup_delete_Some in H as [_ H]. apply Hk, H.
  - split; cbn [all next]; [|lia].
    rewrite map_app, Ho, seqZ_snoc by exact Hn. cbn [map].
    rewrite (Hk _ _ E). reflexivity.
Qed.

(** The pending map after the inner loop: the released keys are gone, the
    others are untouched. *)
Lemma release_pending fuel c k :
  pending (release fuel c) !! k =
  if bool_decide (next c <= k < next (release fuel c))
  then None else pending c !! k.
Proof.
  revert c. induction fuel as [|fuel IH]; intros c; cbn [release].
  - rewrite bool_decide_eq_false_2 by lia. reflexivity.
  - destruct (pending c !! next c) as [pr|] eqn:E.
    + rewrite IH. cbn [pending next].
      pose proof (release_next_mono fuel
                    (mkCollector (delete (next c) (pending c)) (next c + 1)
                                 (exitCode c) (all c ++ [pr]))) as Hm.
      cbn [next] in Hm.
      repeat case_bool_decide; try reflexivity; try lia.
      * destruct (decide (k = next c)) as [->|Hne]; [|lia].
        apply lookup_delete_eq.
      * apply lookup_delete_ne. lia.
    + rewrite bool_decide_eq_false_2 by lia. reflexivity.
Qed.

(** What is released is what was released before and what sat under the
    keys now passed. *)
Lemma release_all fuel c r :
  r ∈ all (release fuel c) <->
  r ∈ all c \/
  exists k, next c <= k < next (release fuel c) /\ pending c !! k = Some r.
Proof.
  revert c. induction fuel as [|fuel IH]; intros c; cbn [release].
  - split; [auto|]. intros [H|(k & Hk & _)]; [exact H | lia].
  - destruct (pending c !! next c) as [pr|] eqn:E.
    + set (c1 := mkCollector (delete (next c) (pending c)) (next c + 1)
                             (exitCode c) (all c ++ [pr])).
      pose proof (release_next_mono fuel c1) as Hm. cbn [c1 next] in Hm.
      rewrite IH. cbn [c1 all next pending]. fold c1.
      rewrite elem_of_app, list_elem_of_singleton. split.
      * intros [[H| ->]|(k & Hk & Hp)].
        -- left. exact H.
        -- right. exists (next c). split; [lia | exact E].
        -- right. exists k. apply lookup_delete_Some in Hp as [_ Hp].
           split; [lia | exact Hp].
      * intros [H|(k & Hk & Hp)]; [auto|].
        destruct (decide (k = next c)) as [->|Hne].
        -- left. right. congruence.
        -- right. exists k. split; [lia|].
           apply lookup_delete_Some. split; [congruence | exact Hp].
    + split; [auto|]. intros [H|(k & Hk & _)]; [exact H | lia].
Qed.

(** The inner loop is left by its [break], not for want of rounds. *)
Lemma release_reaches_break fuel c :
  (size (pending c) <= fuel)%nat ->
  pending (release fuel c) !! next (release fuel c) = None.
Proof.
  revert c. induction fuel as [|fuel IH]; intros c Hs; cbn [release].
  - assert (H : pending c = ∅) by (apply map_size_empty_inv; lia).
    rewrite H. apply lookup_empty.
  - destruct (pending c !! next c) as [pr|] eqn:E; [|exact E].
    apply IH. cbn [pending].
    pose proof (map_size_delete (next c) (pending c)) as Hd.
    rewrite E in Hd. cbn in Hd. lia.
Qed.

Lemma collect_snoc l r : collect (l ++ [r]) = receive (collect l) r.
Proof. unfold collect. rewrite fold_left_app. reflexivity. Qed.

Lemma receive_in_order c r :
  keyed c -> released_in_order c ->
  keyed (receive c r) /\ released_in_order (receive c r).
Proof.
  intros Hk Ho. unfold receive. apply release_in_order.
  - intros k r'. cbn [pending]. intros H.
    apply lookup_insert_Some in H as [[<- <-]|[_ H]]; [reflexivity|].
    apply Hk, H.
  - exact Ho.
Qed.

Lemma receive_break c r :
  pending (receive c r) !! next (receive c r) = None.
Proof. unfold receive. apply release_reaches_break. cbn [pending]. lia. Qed.

Lemma receive_exitCode c r :
  exitCode (receive c r) = if has_err r then 1 else exitCode c.
Proof.
  unfold receive. rewrite release_exitCode. cbn [exitCode]. unfold has_err.
  destruct (Err r); reflexivity.
Qed.

(** Whatever the order of arrival: the released results are those of index
    0 to [next - 1] in ascending order, and the result of index [next] has
    not arrived or the loop would have released it. *)
Lemma collect_in_order l :
  keyed (collect l) /\ released_in_order (collect l) /\
  (l <> [] -> pending (collect l) !! next (collect l) = None).
Proof.
  induction l as [|r l IH] using rev_ind.
  - split; [|split].
    + intros k r. cbn. rewrite lookup_empty. discriminate.
    + split; [reflexivity | cbn; lia].
    + congruence.
  - destruct IH as (Hk & Ho & _). rewrite collect_snoc.
    pose proof (receive_in_order (collect l) r Hk Ho) as [H1 H2].
    split; [exact H1|]. split; [exact H2|]. intros _. apply receive_break.
Qed.

Lemma collect_exitCode l :
  exitCode (collect l) = if existsb has_err l then 1 else 0.
Proof.
  induction l as [|r l IH] using rev_ind; [reflexivity|].
  rewrite collect_snoc, receive_exitCode, existsb_app, IH. cbn [existsb].
  rewrite orb_false_r.
  destruct (has_err r), (existsb has_err l); reflexivity.
Qed.

(** Nothing is released or pending that has not arrived. *)
Lemma collect_sound l :
  (forall r, r ∈ all (collect l) -> r ∈ l) /\
  (forall k r, pending (collect l) !! k = Some r -> r ∈ l).
Proof.
  induction l as [|x l IH] using rev_ind.
  - split.
    + cbn. intros r H. exact H.
    + intros k r. cbn. rewrite lookup_empty. discriminate.
  - destruct IH as [Ha Hp]. rewrite collect_snoc. unfold receive.
    set (c1 := mkCollector _ _ _ _).
    assert (Hp1 : forall k r, pending c1 !! k = Some r -> r ∈ l ++ [x]).
    { intros k r. cbn [c1 pending]. intros H.
      apply lookup_insert_Some in H as [[_ <-]|[_ H]].
      - apply elem_of_app. right. apply list_elem_of_singleton. reflexivity.
      - apply elem_of_app. left. eapply Hp, H. }
    split.
    + intros r H. apply release_all in H as [H|(k & _ & H)].
      * apply elem_of_app. left. apply Ha, H.
      * eapply Hp1, H.
    + intros k r. rewrite release_pending.
      case_bool_decide; [discriminate|]. apply Hp1.
Qed.

(** When no index arrives twice, every result that has arrived is released
    or pending under its index, and no released index is pending. *)
Lemma collect_complete l :
  NoDup (map Index l) ->
  (forall r, r ∈ l ->
     r ∈ all (collect l) \/ pending (collect l) !! Index r = Some r) /\
  (forall k r, pending (collect l) !! k = Some r ->
     ~ 0 <= k < next (collect l)).
Proof.
  induction l as [|x l IH] using rev_ind.
  - intros _. split.
    + intros r H. apply elem_of_nil in H. contradiction.
    + intros k r. cbn. rewrite lookup_empty. discriminate.
  - rewrite map_app. cbn [map]. intros Hnd.
    apply NoDup_app in Hnd as (Hnd & Hfresh & _).
    destruct (IH Hnd) as [Hc Hg]. clear IH.
    destruct (collect_in_order l) as (Hk & [Ho Hn] & _).
    destruct (collect_sound l) as [Hsa _].
    assert (Hx : ~ 0 <= Index x < next (collect l)).
    { intros Hr.
      assert (Hin : Index x ∈ map Index (all (collect l))).
      { rewrite Ho. apply elem_of_seqZ. lia. }
      apply list_elem_of_fmap in Hin as (y & Hy & Hyin).
      apply (Hfresh (Index x)).
      - apply list_elem_of_fmap. exists y. split; [exact Hy|].
        apply Hsa, Hyin.
      - apply list_elem_of_singleton. reflexivity. }
    rewrite collect_snoc. unfold receive.
    set (c1 := mkCollector _ _ _ _).
    pose proof (release_next_mono (size (pending c1)) c1) as Hm.
    cbn [c1 next] in Hm. fold c1 in Hm.
    split.
    + intros r Hr. rewrite release_all, release_pending.
      cbn [c1 all next pending]. fold c1.
      assert (Hr1 : r ∈ all (collect l) \/
                    <[Index x:=x]> (pending (collect l)) !! Index r = Some r).
      { apply elem_of_app in Hr as [Hr|Hr].
        - destruct (Hc r Hr) as [H|H]; [left; exact H|]. right.
          rewrite lookup_insert_ne; [exact H|].
          intros Heq. apply (Hfresh (Index x)).
          + rewrite Heq. apply list_elem_of_fmap. exists r. auto.
          + apply list_elem_of_singleton. reflexivity.
        - apply list_elem_of_singleton in Hr as ->. right.
          apply lookup_insert_eq. }
      destruct Hr1 as [H|H]; [left; left; exact H|].
      case_bool_decide as Hd.
      * left. right. exists (Index r). split; [exact Hd | exact H].
      * right. exact H.
    + intros k r. rewrite release_pending. cbn [c1 next pending]. fold c1.
      case_bool_decide as Hd; [discriminate|]. intros H Hr.
      apply lookup_insert_Some in H as [[<- <-]|[_ H]].
      * apply Hx. lia.
      * apply (Hg _ _ H). lia.
Qed.

(** When the indices that arrive are 0, ..., n-1 in some order, all of them
    are released, in ascending order, and nothing stays pending. *)
Lemma collect_permutation (l : list FileResult) (n : nat) :
  map Index l ≡ₚ seqZ 0 (Z.of_nat n) ->
  next (collect l) = Z.of_nat n /\
  map Index (all (collect l)) = seqZ 0 (Z.of_nat n) /\
  all (collect l) ≡ₚ l /\
  pending (collect l) = ∅.
Proof.
  intros Hperm.
  assert (Hnd : NoDup (map Index l)).
  { rewrite Hperm. apply NoDup_seqZ. }
  assert (Hidx : forall r, r ∈ l -> 0 <= Index r < Z.of_nat n).
  { intros r Hr.
    assert (H : Index r ∈ map Index l)
      by (apply list_elem_of_fmap; exists r; auto).
    rewrite Hperm in H. apply elem_of_seqZ in H. lia. }
  destruct (collect_in_order l) as (Hk & [Ho Hn] & Hb).
  destruct (collect_sound l) as [Hsa Hsp].
  destruct (collect_complete l Hnd) as [Hc Hg].
  assert (Hnext : next (collect l) = Z.of_nat n).
  { destruct (Z.lt_trichotomy (next (collect l)) (Z.of_nat n))
      as [Hlt|[Heq|Hgt]]; [|exact Heq|].
    - exfalso.
      assert (H : next (collect l) ∈ map Index l).
      { rewrite Hperm. apply elem_of_seqZ. lia. }
      apply list_elem_of_fmap in H as (r & Hr & Hin).
      assert (Hne : l <> []).
      { intros ->. apply elem_of_nil in Hin. contradiction. }
      destruct (Hc r Hin) as [H|H].
      + assert (H' : Index r ∈ map Index (all (collect l)))
          by (apply list_elem_of_fmap; exists r; auto).
        rewrite Ho in H'. apply elem_of_seqZ in H'. lia.
      + rewrite <- Hr, (Hb Hne) in H. discriminate.
    - exfalso.
      assert (H : Z.of_nat n ∈ map Index (all (collect l))).
      { rewrite Ho. apply elem_of_seqZ. lia. }
      apply list_elem_of_fmap in H as (r & Hr & Hin).
      apply Hsa, Hidx in Hin. lia. }
  split; [exact Hnext|]. split; [rewrite Ho, Hnext; reflexivity|].
  assert (Hempty : pending (collect l) = ∅).
  { apply map_empty. intros k.
    destruct (pending (collect l) !! k) as [r|] eqn:E; [|reflexivity].
    exfalso. apply (Hg _ _ E). rewrite <- (Hk _ _ E).
    rewrite Hnext. apply Hidx. eapply Hsp, E. }
  split; [|exact Hempty].
  apply NoDup_Permutation.
  - apply (NoDup_fmap_1 Index). change (NoDup (map Index (all (collect l)))).
    rewrite Ho. apply NoDup_seqZ.
  - apply (NoDup_fmap_1 Index). exact Hnd.
  - intros r. split; [apply Hsa|]. intros Hr.
    destruct (Hc r Hr) as [H|H]; [exact H|].
    rewrite Hempty, lookup_empty in H. discriminate.
Qed.

(** C8.  Whatever the order in which the results of inputs 0, ..., n-1
    arrive, the collector releases all of them in ascending index and keeps
    none; and at every moment of the run what has been released is the
    results 0, ..., next-1 in that order, so that while result [i] has not
    arrived no result of index [i] or more has been released. *)
Theorem results_are_released_in_input_order
    (arrivals : list FileResult) (n : nat) :
  Permutation (map Index arrivals) (seqZ 0 (Z.of_nat n)) ->
  map Index (all (collect arrivals)) = seqZ 0 (Z.of_nat n) /\
  Permutation (all (collect arrivals)) arrivals /\
  pending (collect arrivals) = ∅ /\
  forall pre post : list FileResult,
    arrivals = pre ++ post ->
    map Index (all (collect pre)) = seqZ 0 (next (collect pre)) /\
    forall i : Z,
      0 <= i -> ~ In i (map Index pre) -> next (collect pre) <= i.
Proof.
  intros Hperm.
  destruct (collect_permutation arrivals n Hperm) as (_ & H1 & H2 & H3).
  split; [exact H1|]. split; [exact H2|]. split; [exact H3|].
  intros pre post _.
  destruct (collect_in_order pre) as (_ & [Ho Hn] & _).
  destruct (collect_sound pre) as [Hsa _].
  split; [exact Ho|]. intros i Hi Hnot.
  destruct (Z.le_gt_cases (next (collect pre)) i) as [Hle|Hgt];
    [exact Hle|].
  exfalso. apply Hnot. apply list_elem_of_In.
  assert (H : i ∈ map Index (all (collect pre))).
  { rewrite Ho. apply elem_of_seqZ. lia. }
  apply list_elem_of_fmap in H as (r & -> & Hin).
  apply list_elem_of_fmap. exists r. split; [reflexivity|]. apply Hsa, Hin.
Qed.

Lemma results_are_released_in_input_order_witness :
  let r := fun i => set_Index i zeroResult in
  map Index (all (collect [r 2; r 0; r 1])) = [0; 1; 2].
Proof.
  cbv zeta.
  refine (proj1 (results_are_released_in_input_order
                   [set_Index 2 zeroResult; set_Index 0 zeroResult;
                    set_Index 1 zeroResult] 3 _)).
  change (Permutation [2; 0; 1] [0; 1; 2]).
  apply (perm_trans (l' := [0; 2; 1])).
  - apply perm_swap.
  - apply perm_skip. apply perm_swap.
Defined.

(** Three inputs whose results arrive as C, A, B: nothing is released on
    the arrival of C, A is released on its arrival, then B and C. *)
Example release_of_three :
  let r := fun i => set_Index i zeroResult in
  map Index (all (collect [r 2])) = [] /\
  map Index (all (collect [r 2; r 0])) = [0] /\
  map Index (all (collect [r 2; r 0; r 1])) = [0; 1; 2].
Proof. cbv zeta. repeat split; vm_compute; reflexivity. Qed.

(** ** Failed reads *)

Lemma add_to_totals_failed t r : has_err r = true -> add_to_totals t r = t.
Proof.
  unfold has_err, add_to_totals. destruct (Err r); [reflexivity|discriminate].
Qed.

Lemma fold_totals_skip l t :
  fold_left add_to_totals l t =
  fold_left add_to_totals (List.filter (fun x => negb (has_err x)) l) t.
Proof.
  revert t. induction l as [|r l IH]; intros t; [reflexivity|].
  cbn [fold_left List.filter]. destruct (has_err r) eqn:E; cbn [negb].
  - rewrite add_to_totals_failed by exact E. apply IH.
  - cbn [fold_left]. apply IH.
Qed.

(** The totals are the totals of the results without error. *)
Lemma compute_totals_skip l :
  compute_totals l =
  compute_totals (List.filter (fun x => negb (has_err x)) l).
Proof. apply fold_totals_skip. Qed.

(** A failure the loop acts upon is recorded, whatever was counted. *)
Lemma CountReader_failed src m opt e :
  outcome opt src = Failed e -> Err (CountReader src m opt) = Some e.
Proof. intros H. rewrite CountReader_Err, H. reflexivity. Qed.

(** When the failure comes in a read of its own, after the chunks [cs], the
    result the worker hands over carries the error together with the counts
    of everything read up to then: the bytes, and the lines, words and
    characters the same chunks would have given had the stream ended there,
    and the line maxima reached so far.  However the results arrive, the
    collector still releases that result and reports it on standard error,
    the totals are those of the results without error, and the exit status
    is 1. *)
Lemma read_error_alone_keeps_counts_and_stays_out_of_totals
    (cs : list (list byte)) (e : error) (m : Metrics.t) (opt : Options)
    (idx elapsed : Z) (name : string)
    (arrivals : list FileResult) (n : nat) :
  let src := plain cs (Failed e) in
  let fr := file_job idx name (Opened src) elapsed m opt in
  Permutation (map Index arrivals) (seqZ 0 (Z.of_nat n)) ->
  In fr arrivals ->
  (Err fr = Some e /\
   Bytes fr = wrap64 (total_bytes cs) /\
   Lines fr = Lines (CountReader (plain cs EOF) m opt) /\
   Words fr = Words (CountReader (plain cs EOF) m opt) /\
   Chars fr = Chars (CountReader (plain cs EOF) m opt) /\
   MaxLineBytes fr = MaxLineBytes (res (scanned m opt src)) /\
   MaxLineChars fr = MaxLineChars (res (scanned m opt src))) /\
  (let ok := fun x => negb (has_err x) in
   In fr (all (collect arrivals)) /\
   compute_totals (all (collect arrivals)) =
     compute_totals (List.filter ok (all (collect arrivals))) /\
   ~ In fr (List.filter ok (all (collect arrivals))) /\
   In (Stderr name e) (fst (report n arrivals)) /\
   snd (report n arrivals) = 1).
Proof.
  intros src fr Hperm Hin.
  assert (HErr : Err fr = Some e).
  { unfold fr, file_job. cbn [set_Index set_Duration set_Filename Err].
    apply CountReader_failed. apply outcome_plain. }
  split.
  - split; [exact HErr|].
    unfold fr, file_job.
    cbn [set_Index set_Duration set_Filename Bytes Lines Words Chars
         MaxLineBytes MaxLineChars].
    split; [unfold src; rewrite CountReader_Bytes, chunks_plain; reflexivity|].
    split; [rewrite !CountReader_Lines; unfold src, events;
            rewrite !chunks_plain; reflexivity|].
    split; [rewrite !CountReader_Words; unfold src, events;
            rewrite !chunks_plain; reflexivity|].
    split; [rewrite !CountReader_Chars; unfold src, events;
            rewrite !chunks_plain; reflexivity|].
    unfold CountReader. rewrite scan_scanned. subst src.
    rewrite outcome_plain. split; reflexivity.
  - cbv zeta.
    destruct (collect_permutation arrivals n Hperm) as (_ & _ & Hall & _).
    assert (Hrel : In fr (all (collect arrivals))).
    { apply list_elem_of_In. rewrite Hall. apply list_elem_of_In, Hin. }
    assert (Hbad : has_err fr = true) by (unfold has_err; rewrite HErr; auto).
    split; [exact Hrel|]. split; [apply compute_totals_skip|]. split.
    + intros H. apply List.filter_In in H as [_ H]. rewrite Hbad in H.
      discriminate.
    + unfold report. cbn [fst snd]. split.
      * apply in_or_app. left. apply in_map_iff. exists fr.
        split; [|exact Hrel]. unfold print_result. rewrite HErr.
        reflexivity.
      * rewrite collect_exitCode.
        replace (existsb has_err arrivals) with true; [reflexivity|].
        symmetry. apply existsb_exists. exists fr. auto.
Qed.

(** The counts at a failure, on an example: five bytes read over two reads
    before the third read fails. *)
Example partial_counts_at_failure :
  let fr := CountReader
              (plain [bytes "ab" ++ [nl]; bytes "cd"] (Failed "EIO"%string))
              all_metrics (mkOptions 4 utf8) in
  counts fr = [1; 2; 5; 5; 2; 2] /\ Err fr = Some "EIO"%string.
Proof. cbv zeta. split; vm_compute; reflexivity. Qed.

(** C7.  A read that returns bytes together with a failure, while the
    scanner is on the fast path: the bytes are counted, the [continue] at
    the end of the fast path skips the tests on [err], and the next read
    reports the end of the stream.  The result carries no error, it enters
    the totals, nothing is written to standard error and the exit status
    is 0, where the design asks for the error to be kept with the counts.
    The same read on the decoding path (here after a two-byte rune) keeps
    the error, and so does a failure that comes in a read of its own. *)
Theorem read_error_with_bytes_is_lost_on_the_fast_path :
  let opt := mkOptions 16 utf8 in
  let failing := fun data => mkSource [(data, Some (Failed "EIO"%string))] EOF in
  let fr := file_job 0 "a.txt" (Opened (failing (bytes "ab"))) 5 lwbc opt in
  (Err fr = None /\ Bytes fr = 2 /\
   report 1 [fr] = ([Stdout fr], 0) /\
   Bytes (compute_totals [fr]) = 2) /\
  Err (CountReader (failing (bytes "é")) lwbc opt) = Some "EIO"%string /\
  Err (CountReader (plain [bytes "ab"] (Failed "EIO"%string)) lwbc opt) =
    Some "EIO"%string.
Proof. cbv zeta. repeat split; vm_compute; reflexivity. Qed.

(** Two occurrences of ["-"] are computed from the same captured bytes and
    outcome, so their results differ at most in index and elapsed time. *)
Lemma stdin_occurrences_agree
    (i1 i2 d1 d2 : Z) (name : string) (data : list byte)
    (err : option error) (m : Metrics.t) (opt : Options) :
  option_map (fun r => set_Index 0 (set_Duration 0 r))
             (stdin_job i1 name data err d1 m opt) =
  option_map (fun r => set_Index 0 (set_Duration 0 r))
             (stdin_job i2 name data err d2 m opt).
Proof.
  unfold stdin_job.
  destruct err as [e|]; [reflexivity|].
  destruct (CountBytes data m opt); reflexivity.
Qed.

(** * Further properties of the code *)

(** ** The decoder, seen from its input *)

(** The leading byte decides the shape of the sequence. *)
Lemma first_range p0 :
  (first p0 = 0xF0 /\ p0 < 0x80) \/
  (first p0 = 0xF1 /\ (0x80 <= p0 < 0xC2 \/ 0xF5 <= p0)) \/
  (first p0 = 0x02 /\ 0xC2 <= p0 < 0xE0) \/
  (first p0 = 0x13 /\ p0 = 0xE0) \/
  (first p0 = 0x03 /\ 0xE1 <= p0 < 0xF0 /\ p0 <> 0xED) \/
  (first p0 = 0x23 /\ p0 = 0xED) \/
  (first p0 = 0x34 /\ p0 = 0xF0) \/
  (first p0 = 0x04 /\ 0xF1 <= p0 < 0xF4) \/
  (first p0 = 0x44 /\ p0 = 0xF4).
Proof.
  unfold first. split_ifs; lia.
Qed.

(** A rune put together from two bytes or more is not the newline. *)
Lemma low_rune X Y : Z.lor (Z.shiftl X 6) Y = 10 -> X = 0.
Proof.
  intros H. apply (f_equal (fun r => Z.shiftr r 6)) in H.
  rewrite Z.shiftr_lor, Z.shiftr_shiftl_l in H by lia.
  change (Z.shiftr 10 6) with 0 in H. apply Z.lor_eq_0_iff in H as [H _].
  rewrite Z.sub_diag, Z.shiftl_0_r in H. exact H.
Qed.

Lemma low_rune3 A B C :
  Z.lor (Z.lor (Z.shiftl A 12) (Z.shiftl B 6)) C = 10 -> A = 0 /\ B = 0.
Proof.
  intros H.
  replace (Z.lor (Z.shiftl A 12) (Z.shiftl B 6))
    with (Z.shiftl (Z.lor (Z.shiftl A 6) B) 6) in H
    by (rewrite Z.shiftl_lor, Z.shiftl_shiftl by lia; reflexivity).
  apply low_rune, Z.lor_eq_0_iff in H as [HA HB].
  apply Z.shiftl_eq_0_iff in HA; [tauto | lia].
Qed.

Lemma low_rune4 A B C D :
  Z.lor (Z.lor (Z.lor (Z.shiftl A 18) (Z.shiftl B 12)) (Z.shiftl C 6)) D = 10 ->
  A = 0 /\ B = 0.
Proof.
  intros H.
  replace (Z.lor (Z.lor (Z.shiftl A 18) (Z.shiftl B 12)) (Z.shiftl C 6))
    with (Z.shiftl (Z.lor (Z.lor (Z.shiftl A 12) (Z.shiftl B 6)) C) 6) in H
    by (rewrite !Z.shiftl_lor, !Z.shiftl_shiftl by lia; reflexivity).
  apply low_rune, Z.lor_eq_0_iff in H as [H _].
  apply Z.lor_eq_0_iff in H as [HA HB].
  apply Z.shiftl_eq_0_iff in HA; [|lia].
  apply Z.shiftl_eq_0_iff in HB; [tauto|lia].
Qed.

Lemma land_mask p k : Z.land p (Z.ones k) = 0 -> 0 <= k -> p mod 2 ^ k = 0.
Proof. intros H Hk. rewrite <- Z.land_ones by exact Hk. exact H. Qed.

(** What a round of the decoder can give: a rejected byte; an ASCII byte as
    itself; or a rune of two to four bytes, all of them above 0x7F, that is
    not the newline. *)
(** Closed bit arithmetic, evaluated. *)
Ltac closed_bits :=
  repeat match goal with
  | |- context [Z.land (Zpos ?a) (Zpos ?b)] =>
    let v := eval vm_compute in (Z.land (Zpos a) (Zpos b)) in
    change (Z.land (Zpos a) (Zpos b)) with v
  | |- context [Z.shiftr (Zpos ?a) (Zpos ?b)] =>
    let v := eval vm_compute in (Z.shiftr (Zpos a) (Zpos b)) in
    change (Z.shiftr (Zpos a) (Zpos b)) with v
  | |- context [Z.leb (Zpos ?a) (Zpos ?b)] =>
    let v := eval vm_compute in (Z.leb (Zpos a) (Zpos b)) in
    change (Z.leb (Zpos a) (Zpos b)) with v
  end.

Ltac decode_case :=
  cbn [length]; split_ifs; cbn [fst snd];
  try (left; repeat split; lia); try lia;
  right; right; unfold continuation in *; simpl in *.

Ltac wide_bytes :=
  repeat (apply List.Forall_cons; [lia|]); apply List.Forall_nil.

Ltac mask_zero E k :=
  apply (land_mask _ k) in E; [|lia];
  let v := eval vm_compute in (2 ^ k) in change (2 ^ k) with v in E;
  Z.to_euclidean_division_equations; lia.

Lemma DecodeRune_cases c data :
  let r := fst (DecodeRune (c :: data)) in
  let size := snd (DecodeRune (c :: data)) in
  (r = RuneError /\ size = 1 /\ 0x80 <= bval c) \/
  (r = bval c /\ size = 1 /\ bval c < 0x80) \/
  (1 < size /\ r <> 10 /\
   Forall (fun x => 0x80 <= bval x) (firstn (Z.to_nat size) (c :: data))).
Proof.
  cbv zeta. unfold DecodeRune.
  pose proof (bval_range c) as Hc.
  destruct (first_range (bval c)) as
    [[H R]|[[H R]|[[H R]|[[H R]|[[H R]|[[H R]|[[H R]|[[H R]|[H R]]]]]]]]];
    rewrite H; closed_bits; cbv iota; cbn [acceptRanges Z.eqb Pos.eqb fst snd].
  - right. left. cbn. lia.
  - left. cbn. repeat split; lia.
  - destruct data as [|c1 data]; decode_case.
    split; [lia|]. split; [|wide_bytes].
    intros E. apply low_rune in E. mask_zero E 5.
  - destruct data as [|c1 [|c2 data]]; decode_case.
    split; [lia|]. split; [|wide_bytes].
    intros E. apply low_rune3 in E as [_ E]. pose proof (bval_range c1).
    mask_zero E 6.
  - destruct data as [|c1 [|c2 data]]; decode_case.
    split; [lia|]. split; [|wide_bytes].
    intros E. apply low_rune3 in E as [E _]. mask_zero E 4.
  - destruct data as [|c1 [|c2 data]]; decode_case.
    split; [lia|]. split; [|wide_bytes].
    intros E. apply low_rune3 in E as [E _]. mask_zero E 4.
  - destruct data as [|c1 [|c2 [|c3 data]]]; decode_case.
    split; [lia|]. split; [|wide_bytes].
    intros E. apply low_rune4 in E as [_ E]. pose proof (bval_range c1).
    mask_zero E 6.
  - destruct data as [|c1 [|c2 [|c3 data]]]; decode_case.
    split; [lia|]. split; [|wide_bytes].
    intros E. apply low_rune4 in E as [E _]. mask_zero E 3.
  - destruct data as [|c1 [|c2 [|c3 data]]]; decode_case.
    split; [lia|]. split; [|wide_bytes].
    intros E. apply low_rune4 in E as [E _]. mask_zero E 3.
Qed.

(** The decoding loop, seen from its input: it cuts [data] into rejected
    bytes (all above 0x7F), ASCII bytes, and runs of two to four bytes above
    0x7F that make one rune other than the newline. *)
Lemma decode_events_shape (P : list byte -> list event -> Prop) :
  P [] [] ->
  (forall c rest evs,
      0x80 <= bval c -> P rest evs -> P (c :: rest) (Invalid c :: evs)) ->
  (forall c rest evs,
      bval c < 0x80 -> P rest evs -> P (c :: rest) (Rune (bval c) 1 :: evs)) ->
  (forall pre rest r evs,
      (1 < length pre)%nat -> r <> 10 ->
      Forall (fun x => 0x80 <= bval x) pre -> P rest evs ->
      P (pre ++ rest) (Rune r (Z.of_nat (length pre)) :: evs)) ->
  forall fuel data,
    (length data <= fuel)%nat -> P data (decode_events fuel data).
Proof.
  intros Hnil Hinv Hasc Hwide.
  induction fuel as [|fuel IH]; intros data Hlen.
  - destruct data; [exact Hnil | cbn in Hlen; lia].
  - destruct data as [|c rest]; [exact Hnil|].
    cbn [decode_events].
    pose proof (DecodeRune_cases c rest) as Hc.
    pose proof (DecodeRune_size c rest) as [Hs1 Hs2].
    pose proof (skipn_decoded_length c rest) as Hk.
    destruct (DecodeRune (c :: rest)) as [r size]. cbn [fst snd] in *.
    destruct Hc as [(-> & -> & Hh) | [(-> & -> & Hl) | (Hsz & Hr & Hall)]].
    + cbn [RuneError Z.eqb Pos.eqb andb].
      change (skipn 1 (c :: rest)) with rest.
      apply Hinv; [exact Hh|]. apply IH. cbn [length] in Hlen. lia.
    + replace (bval c =? RuneError) with false
        by (symmetry; apply Z.eqb_neq; unfold RuneError; lia).
      cbn [andb]. change (skipn (Z.to_nat 1) (c :: rest)) with rest.
      apply Hasc; [exact Hl|]. apply IH. cbn [length] in Hlen. lia.
    + replace (size =? 1) with false by (symmetry; apply Z.eqb_neq; lia).
      rewrite andb_false_r.
      assert (Hpre : length (firstn (Z.to_nat size) (c :: rest)) =
                     Z.to_nat size)
        by (apply firstn_length_le; lia).
      assert (Hgoal :
        P (firstn (Z.to_nat size) (c :: rest) ++
           skipn (Z.to_nat size) (c :: rest))
          (Rune r (Z.of_nat (length (firstn (Z.to_nat size) (c :: rest)))) ::
           decode_events fuel (skipn (Z.to_nat size) (c :: rest)))).
      { apply Hwide; [lia | exact Hr | exact Hall |].
        apply IH. cbn [length] in Hlen. lia. }
      rewrite firstn_skipn, Hpre, Z2Nat.id in Hgoal by lia. exact Hgoal.
Qed.

(** ** Lines are newline bytes *)

Lemma newlines_cons c data :
  newlines (c :: data) = (if bval c =? 10 then 1 else 0) + newlines data.
Proof.
  unfold newlines. cbn [List.filter].
  destruct (bval c =? 10); cbn [length]; lia.
Qed.

Lemma newlines_app l1 l2 : newlines (l1 ++ l2) = newlines l1 + newlines l2.
Proof.
  unfold newlines. rewrite List.filter_app, length_app. lia.
Qed.

Lemma newlines_high l :
  Forall (fun x => 0x80 <= bval x) l -> newlines l = 0.
Proof.
  induction 1 as [|c l Hc _ IH]; [reflexivity|].
  rewrite newlines_cons, IH.
  replace (bval c =? 10) with false by lia. reflexivity.
Qed.

Lemma count_newlines_cons e evs :
  count_newlines (e :: evs) =
  (if ev_newline e then 1 else 0) + count_newlines evs.
Proof.
  unfold count_newlines. cbn [List.filter].
  destruct (ev_newline e); cbn [length]; lia.
Qed.

Lemma decode_events_newlines fuel data :
  (length data <= fuel)%nat ->
  count_newlines (decode_events fuel data) = newlines data.
Proof.
  apply (decode_events_shape
           (fun data evs => count_newlines evs = newlines data)).
  - reflexivity.
  - intros c rest evs Hc IH. rewrite count_newlines_cons, newlines_cons, IH.
    reflexivity.
  - intros c rest evs Hc IH. rewrite count_newlines_cons, newlines_cons, IH.
    reflexivity.
  - intros pre rest r evs _ Hr Hall IH.
    rewrite count_newlines_cons, newlines_app, newlines_high, IH by exact Hall.
    cbn [ev_newline]. replace (r =? 10) with false by lia. reflexivity.
Qed.

Lemma chunk_events_newlines opt chunk :
  count_newlines (chunk_events opt chunk) = newlines chunk.
Proof.
  unfold chunk_events. destruct (locale.IsCOrPOSIX (Locale opt)).
  - induction chunk as [|c chunk IH]; [reflexivity|].
    cbn [map]. rewrite count_newlines_cons, newlines_cons, IH. reflexivity.
  - apply decode_events_newlines. lia.
Qed.

Lemma events_newlines_chunks opt cs :
  count_newlines (concat (map (chunk_events opt) cs)) = newlines (concat cs).
Proof.
  induction cs as [|c cs IH]; [reflexivity|].
  cbn [map concat]. rewrite count_newlines_app, newlines_app, IH,
    chunk_events_newlines. reflexivity.
Qed.

(** [CountBytes], when it returns and when it does not. *)
Lemma CountBytes_plain data m opt :
  0 < BufferSize opt ->
  exists cs,
    CountBytes data m opt = Some (CountReader (plain cs EOF) m opt) /\
    concat cs = data /\
    Forall (fun c => Z.of_nat (length c) <= BufferSize opt) cs.
Proof.
  intros Hb. pose proof (CountBytes_spec data m opt) as H.
  destruct (CountBytes data m opt) as [r|]; [|lia].
  destruct H as (_ & cs & -> & Hcat & Hall). exists cs. auto.
Qed.

Lemma CountBytes_none data m opt :
  BufferSize opt <= 0 -> CountBytes data m opt = None.
Proof.
  intros Hb. pose proof (CountBytes_spec data m opt) as H.
  destruct (CountBytes data m opt) as [r|]; [|reflexivity].
  destruct H as [H _]. lia.
Qed.

(** X1.  When the Lines metric is selected, [Lines] is the number of
    newline bytes among the bytes read (as a [uint64]), in every locale,
    for every split into reads and whatever invalid sequences the input
    holds; it is 0 when the metric is not selected.  So it is for
    [CountBytes] on its data; [CountBytes] returns exactly when the buffer
    size is positive. *)
Theorem lines_are_the_newline_bytes
    (src : Source) (data : list byte) (m : Metrics.t) (opt : Options) :
  Lines (CountReader src m opt) =
    (if Metrics.Lines m
     then wrap64 (newlines (concat (chunks opt src))) else 0) /\
  option_map Lines (CountBytes data m opt) =
    (if 0 <? BufferSize opt
     then Some (if Metrics.Lines m then wrap64 (newlines data) else 0)
     else None).
Proof.
  assert (H : forall s, Lines (CountReader s m opt) =
            (if Metrics.Lines m
             then wrap64 (newlines (concat (chunks opt s))) else 0)).
  { intros s. rewrite CountReader_Lines. unfold events.
    rewrite events_newlines_chunks. reflexivity. }
  split; [apply H|].
  destruct (0 <? BufferSize opt) eqn:E.
  - destruct (CountBytes_plain data m opt) as (cs & -> & Hcat & _); [lia|].
    cbn [option_map]. rewrite H, chunks_plain, Hcat. reflexivity.
  - rewrite CountBytes_none by lia. reflexivity.
Qed.

(** ** Line lengths *)

Lemma byte_step_high pre st :
  Forall (fun x => 0x80 <= bval x) pre ->
  fold_left byte_step pre st = (fst st, snd st + Z.of_nat (length pre)).
Proof.
  intros H. revert st. induction H as [|c pre Hc _ IH]; intros [mb cb].
  - cbn. f_equal. lia.
  - cbn [fold_left length]. unfold byte_step at 2.
    replace (bval c =? 10) with false by lia.
    rewrite IH. cbn [fst snd]. f_equal. lia.
Qed.

Lemma stands_for_nil : stands_for [] [].
Proof. repeat split; auto. Qed.

Lemma stands_for_app evs1 data1 evs2 data2 :
  stands_for evs1 data1 -> stands_for evs2 data2 ->
  stands_for (evs1 ++ evs2) (data1 ++ data2).
Proof.
  intros (Ho1 & Hw1 & Hl1 & Hf1) (Ho2 & Hw2 & Hl2 & Hf2).
  split; [apply Forall_app; auto|]. split; [|split].
  - unfold total_width in *. rewrite fold_right_app.
    rewrite length_app, Nat2Z.inj_add, <- Hw1, <- Hw2.
    clear. induction evs1 as [|e evs1 IH]; cbn [fold_right]; [lia|].
    rewrite IH. lia.
  - rewrite !length_app. lia.
  - intros st. rewrite !fold_left_app, Hf1, Hf2. reflexivity.
Qed.

Lemma stands_for_one e c :
  ev_ok e -> ev_width e = 1 -> ev_newline e = (bval c =? 10) ->
  stands_for [e] [c].
Proof.
  intros Hok Hw Hn. split; [repeat constructor; exact Hok|].
  split; [cbn; lia|]. split; [cbn; lia|].
  intros st. cbn [fold_left]. unfold line_step, byte_step.
  rewrite Hn, Hw. reflexivity.
Qed.

Lemma decode_events_stand_for fuel data :
  (length data <= fuel)%nat -> stands_for (decode_events fuel data) data.
Proof.
  apply (decode_events_shape (fun data evs => stands_for evs data)).
  - apply stands_for_nil.
  - intros c rest evs Hc IH.
    apply (stands_for_app [Invalid c] [c] evs rest); [|exact IH].
    apply stands_for_one; [exact Hc | reflexivity | reflexivity].
  - intros c rest evs Hc IH.
    apply (stands_for_app [Rune (bval c) 1] [c] evs rest); [|exact IH].
    apply stands_for_one; [cbn; lia | reflexivity | reflexivity].
  - intros pre rest r evs Hlen Hr Hall IH.
    apply (stands_for_app [Rune r (Z.of_nat (length pre))] pre evs rest);
      [|exact IH].
    split; [repeat constructor; cbn; lia|]. split; [cbn; lia|].
    split; [cbn; lia|].
    intros st. rewrite byte_step_high by exact Hall.
    cbn [fold_left]. unfold line_step. cbn [ev_newline ev_width].
    replace (r =? 10) with false by lia. reflexivity.
Qed.

Lemma plain_events_stand_for data : stands_for (map Plain data) data.
Proof.
  induction data as [|c data IH]; [apply stands_for_nil|].
  apply (stands_for_app [Plain c] [c] (map Plain data) data); [|exact IH].
  apply stands_for_one; [exact I | reflexivity | reflexivity].
Qed.

Lemma chunk_events_stand_for opt chunk :
  stands_for (chunk_events opt chunk) chunk.
Proof.
  unfold chunk_events. destruct (locale.IsCOrPOSIX (Locale opt)).
  - apply plain_events_stand_for.
  - apply decode_events_stand_for. lia.
Qed.

Lemma events_stand_for opt cs :
  stands_for (concat (map (chunk_events opt) cs)) (concat cs).
Proof.
  induction cs as [|c cs IH]; [apply stands_for_nil|].
  cbn [map concat].
  apply stands_for_app; [apply chunk_events_stand_for | exact IH].
Qed.

Lemma longest_line_fold data mb cb :
  Z.max (fst (fold_left byte_step data (mb, cb)))
        (snd (fold_left byte_step data (mb, cb))) =
  Z.max mb (longest_line cb data).
Proof.
  revert mb cb. induction data as [|c data IH]; intros mb cb.
  - reflexivity.
  - cbn [fold_left longest_line]. unfold byte_step at 2 4. cbn [fst snd].
    destruct (bval c =? 10); rewrite IH; lia.
Qed.

(** The comparisons of the code are maxima. *)
Lemma max_by_ltb a b : (if a <? b then b else a) = Z.max a b.
Proof. destruct (Z.ltb_spec a b); lia. Qed.

Section Lengths.

Variable m : Metrics.t.

Lemma ev_step_line_bytes s e :
  Metrics.Lines m = true -> Metrics.MaxLineBytes m = true ->
  ev_ok e -> 0 <= curLineBytes s -> curLineBytes s + ev_width e < 2 ^ 64 ->
  (MaxLineBytes (res (ev_step m s e)), curLineBytes (ev_step m s e)) =
  line_step ev_width (MaxLineBytes (res s), curLineBytes s) e.
Proof.
  intros HL HM Hok H0 Hb. split_state s.
  destruct e as [x|x|r size]; step_mk; rewrite HL, HM;
    cbn [res MaxLineBytes curLineBytes andb ev_ok ev_width] in *;
    unfold line_step; cbn [ev_newline ev_width fst snd].
  - destruct (bval x =? 10); cbn [andb].
    + rewrite max_by_ltb. reflexivity.
    + unfold add64. rewrite wrap64_small by lia. reflexivity.
  - replace (bval x =? 10) with false by lia. cbn [andb].
    unfold add64. rewrite wrap64_small by lia. reflexivity.
  - destruct (r =? 10); cbn [andb].
    + rewrite max_by_ltb. reflexivity.
    + unfold add64. rewrite wrap64_small by lia. reflexivity.
Qed.

Lemma total_width_cons e evs :
  total_width (e :: evs) = ev_width e + total_width evs.
Proof. reflexivity. Qed.

Lemma ev_ok_width e : ev_ok e -> 1 <= ev_width e.
Proof. destruct e; cbn; lia. Qed.

Lemma total_width_nonneg evs : Forall ev_ok evs -> 0 <= total_width evs.
Proof.
  induction 1 as [|e evs He _ IH]; [cbn; lia|].
  rewrite total_width_cons. apply ev_ok_width in He. lia.
Qed.

Lemma line_step_snd st e :
  0 <= snd st -> ev_ok e ->
  0 <= snd (line_step ev_width st e) <= snd st + ev_width e.
Proof.
  intros H0 He. apply ev_ok_width in He. unfold line_step.
  destruct (ev_newline e); cbn [snd]; lia.
Qed.

Lemma fold_line_bytes evs s :
  Metrics.Lines m = true -> Metrics.MaxLineBytes m = true ->
  Forall ev_ok evs -> 0 <= curLineBytes s ->
  curLineBytes s + total_width evs < 2 ^ 64 ->
  (MaxLineBytes (res (fold_left (ev_step m) evs s)),
   curLineBytes (fold_left (ev_step m) evs s)) =
  fold_left (line_step ev_width) evs (MaxLineBytes (res s), curLineBytes s).
Proof.
  intros HL HM Hok. revert s.
  induction Hok as [|e evs He Hok IH]; intros s H0 Hb; [reflexivity|].
  rewrite total_width_cons in Hb.
  pose proof (total_width_nonneg evs Hok) as Hn.
  pose proof (ev_step_line_bytes s e HL HM He H0 ltac:(lia)) as Hstep.
  pose proof (line_step_snd (MaxLineBytes (res s), curLineBytes s) e H0 He)
    as Hs.
  rewrite <- Hstep in Hs. cbn [snd] in Hs.
  cbn [fold_left]. rewrite IH by lia. rewrite Hstep. reflexivity.
Qed.

(** Without the Lines metric no newline is acted upon: the line in
    progress only grows, and no maximum is recorded during the scan. *)
Lemma ev_step_one_line s e :
  Metrics.Lines m = false ->
  MaxLineBytes (res (ev_step m s e)) = MaxLineBytes (res s) /\
  MaxLineChars (res (ev_step m s e)) = MaxLineChars (res s) /\
  curLineBytes (ev_step m s e) =
    (if Metrics.MaxLineBytes m then add64 (curLineBytes s) (ev_width e)
     else curLineBytes s) /\
  curLineChars (ev_step m s e) =
    (if Metrics.MaxLineChars m then add64 (curLineChars s) 1
     else curLineChars s).
Proof.
  intros HL. split_state s.
  destruct e as [x|x|r size]; step_mk; rewrite HL;
    cbn [res MaxLineBytes MaxLineChars curLineBytes curLineChars andb
         ev_width]; auto.
Qed.

Lemma fold_one_line evs s x y :
  Metrics.Lines m = false ->
  curLineBytes s = wrap64 x -> curLineChars s = wrap64 y ->
  let s' := fold_left (ev_step m) evs s in
  MaxLineBytes (res s') = MaxLineBytes (res s) /\
  MaxLineChars (res s') = MaxLineChars (res s) /\
  curLineBytes s' =
    wrap64 (x + if Metrics.MaxLineBytes m then total_width evs else 0) /\
  curLineChars s' =
    wrap64 (y + if Metrics.MaxLineChars m then Z.of_nat (length evs) else 0).
Proof.
  intros HL. cbv zeta. revert s x y.
  induction evs as [|e evs IH]; intros s x y Hx Hy.
  - cbn [fold_left total_width fold_right length Z.of_nat].
    rewrite Hx, Hy.
    destruct (Metrics.MaxLineBytes m), (Metrics.MaxLineChars m);
      rewrite ?Z.add_0_r; auto.
  - cbn [fold_left].
    destruct (ev_step_one_line s e HL) as (H1 & H2 & H3 & H4).
    destruct (IH (ev_step m s e)
                 (x + if Metrics.MaxLineBytes m then ev_width e else 0)
                 (y + if Metrics.MaxLineChars m then 1 else 0))
      as (I1 & I2 & I3 & I4).
    + rewrite H3, Hx. destruct (Metrics.MaxLineBytes m);
        [apply add64_wrap_l | rewrite Z.add_0_r; reflexivity].
    + rewrite H4, Hy. destruct (Metrics.MaxLineChars m);
        [apply add64_wrap_l | rewrite Z.add_0_r; reflexivity].
    + rewrite I1, I2, I3, I4, H1, H2, total_width_cons.
      repeat split; f_equal;
        destruct (Metrics.MaxLineBytes m), (Metrics.MaxLineChars m);
        cbn [length]; lia.
Qed.

(** The code after the loop, on a state without an error. *)
Lemma finish_maxima s :
  Err (res s) = None ->
  MaxLineBytes (finish m s) =
    (if Metrics.MaxLineBytes m
     then Z.max (MaxLineBytes (res s)) (curLineBytes s)
     else MaxLineBytes (res s)) /\
  MaxLineChars (finish m s) =
    (if Metrics.MaxLineChars m
     then Z.max (MaxLineChars (res s)) (curLineChars s)
     else MaxLineChars (res s)).
Proof.
  intros HE. destruct s as [[i f l w b c mb mc err d] p cb cc a ca].
  cbn [res Err] in HE. subst.
  unfold finish. cbn [res Err MaxLineBytes MaxLineChars curLineBytes
                      curLineChars].
  rewrite <- !max_by_ltb.
  destruct (Metrics.MaxLineBytes m), (Metrics.MaxLineChars m); cbn [andb];
    destruct (mb <? cb); cbn [set_MaxLineBytes MaxLineChars MaxLineBytes];
    destruct (mc <? cc); split; reflexivity.
Qed.

End Lengths.

Lemma longest_line_ge cur data : cur <= longest_line cur data.
Proof.
  revert cur. induction data as [|c data IH]; intros cur; cbn [longest_line].
  - lia.
  - destruct (bval c =? 10); [lia|]. specialize (IH (cur + 1)). lia.
Qed.

Section Maxima.

Variable m : Metrics.t.
Variable opt : Options.

(** At end of input the two maxima are those the code after the loop
    makes of the state the events lead to. *)
Lemma CountReader_maxima src :
  outcome opt src = EOF ->
  let s := fold_left (ev_step m) (events opt src) (core (initial opt)) in
  Err (res s) = None /\
  MaxLineBytes (CountReader src m opt) = MaxLineBytes (finish m s) /\
  MaxLineChars (CountReader src m opt) = MaxLineChars (finish m s).
Proof.
  intros Ho. cbv zeta. split.
  - rewrite (fold_ev_step_inv m (fun s => Err (res s)))
      by apply ev_step_Err. reflexivity.
  - unfold CountReader. rewrite scan_scanned, Ho. cbn [stop].
    rewrite finish_core, scanned_core. split; reflexivity.
Qed.

Lemma events_total_width src :
  Forall ev_ok (events opt src) /\
  total_width (events opt src) = total_bytes (chunks opt src) /\
  Z.of_nat (length (events opt src)) <= total_bytes (chunks opt src).
Proof.
  destruct (events_stand_for opt (chunks opt src)) as (H1 & H2 & H3 & _).
  unfold events, total_bytes. split; [exact H1|]. split; [exact H2|]. lia.
Qed.

Lemma CountReader_longest_line src :
  Metrics.Lines m = true -> Metrics.MaxLineBytes m = true ->
  outcome opt src = EOF -> total_bytes (chunks opt src) < 2 ^ 64 ->
  MaxLineBytes (CountReader src m opt) =
  longest_line 0 (concat (chunks opt src)).
Proof.
  intros HL HM Ho Hb.
  destruct (CountReader_maxima src Ho) as (HE & -> & _).
  destruct (finish_maxima m _ HE) as [-> _]. rewrite HM.
  destruct (events_total_width src) as (Hok & Hw & _).
  pose proof (fold_line_bytes m (events opt src) (core (initial opt))
                HL HM Hok) as Hf.
  cbn [core initial set_asciiMode with_res res curLineBytes MaxLineBytes
       zeroResult set_Bytes] in Hf.
  specialize (Hf ltac:(lia) ltac:(lia)).
  destruct (events_stand_for opt (chunks opt src)) as (_ & _ & _ & Hs).
  unfold events in Hf at 3. rewrite Hs in Hf.
  pose proof (longest_line_fold (concat (chunks opt src)) 0 0) as Hl.
  rewrite <- Hf in Hl. cbn [fst snd] in Hl.
  unfold initial in Hl |- *. cbn [core set_asciiMode with_res res] in Hl |- *.
  rewrite Hl. pose proof (longest_line_ge 0 (concat (chunks opt src))). lia.
Qed.

Lemma CountReader_one_line src :
  Metrics.Lines m = false -> outcome opt src = EOF ->
  MaxLineBytes (CountReader src m opt) =
    (if Metrics.MaxLineBytes m then wrap64 (total_bytes (chunks opt src))
     else 0) /\
  MaxLineChars (CountReader src m opt) =
    (if Metrics.MaxLineChars m
     then wrap64 (Z.of_nat (length (events opt src))) else 0).
Proof.
  intros HL Ho.
  destruct (CountReader_maxima src Ho) as (HE & -> & ->).
  destruct (finish_maxima m _ HE) as [-> ->].
  destruct (fold_one_line m (events opt src) (core (initial opt)) 0 0 HL
              eq_refl eq_refl) as (H1 & H2 & H3 & H4).
  rewrite H1, H2, H3, H4.
  destruct (events_total_width src) as (_ & -> & _).
  cbn [core initial set_asciiMode with_res res MaxLineBytes MaxLineChars
       zeroResult set_Bytes].
  split.
  - destruct (Metrics.MaxLineBytes m); [|reflexivity].
    rewrite Z.add_0_l.
    pose proof (wrap64_range (total_bytes (chunks opt src))). lia.
  - destruct (Metrics.MaxLineChars m); [|reflexivity].
    rewrite Z.add_0_l.
    pose proof (wrap64_range (Z.of_nat (length (events opt src)))). lia.
Qed.

End Maxima.

(** ** Characters, bytes and the buffer size *)

(** [CountReader] reads nothing of the options but the locale. *)
Lemma CountReader_locale src m opt1 opt2 :
  Locale opt1 = Locale opt2 ->
  CountReader src m opt1 = CountReader src m opt2.
Proof.
  destruct opt1 as [b1 l1], opt2 as [b2 l2]. cbn [Locale]. intros ->.
  reflexivity.
Qed.

Lemma events_count_plain opt cs :
  locale.IsCOrPOSIX (Locale opt) = true \/
  Forall (Forall (fun c => bval c < 0x80)) cs ->
  Z.of_nat (length (concat (map (chunk_events opt) cs))) = total_bytes cs.
Proof.
  intros H. unfold total_bytes. f_equal.
  induction cs as [|c cs IH]; [reflexivity|].
  cbn [map concat]. rewrite !length_app, IH.
  - f_equal. unfold chunk_events.
    destruct (locale.IsCOrPOSIX (Locale opt)) eqn:E; [apply length_map|].
    destruct H as [H|H]; [discriminate|].
    apply Forall_cons in H as [H _].
    rewrite decode_events_ascii by exact H. apply length_map.
  - destruct H as [H|H]; [left; exact H|].
    right. apply Forall_cons in H as [_ H]. exact H.
Qed.

(** X2.  With the Lines metric and the maximum line length in bytes both
    selected, at end of input [MaxLineBytes] is the length in bytes of the
    longest line (its newline not counted, the unterminated last line
    included), in every locale and for every split into reads, as long as
    the input has fewer than 2^64 bytes. *)
Theorem max_line_bytes_is_the_longest_line
    (src : Source) (data : list byte) (m : Metrics.t) (opt : Options) :
  Metrics.Lines m = true -> Metrics.MaxLineBytes m = true ->
  (outcome opt src = EOF -> total_bytes (chunks opt src) < 2 ^ 64 ->
   MaxLineBytes (CountReader src m opt) =
   longest_line 0 (concat (chunks opt src))) /\
  (0 < BufferSize opt -> Z.of_nat (length data) < 2 ^ 64 ->
   option_map MaxLineBytes (CountBytes data m opt) =
   Some (longest_line 0 data)).
Proof.
  intros HL HM. split.
  - apply CountReader_longest_line; assumption.
  - intros Hb Hlen.
    destruct (CountBytes_plain data m opt Hb) as (cs & -> & Hcat & _).
    cbn [option_map]. f_equal.
    rewrite CountReader_longest_line; try assumption.
    + rewrite chunks_plain, Hcat. reflexivity.
    + apply outcome_plain.
    + rewrite chunks_plain. unfold total_bytes. rewrite Hcat. exact Hlen.
Qed.

Lemma max_line_bytes_is_the_longest_line_witness :
  option_map MaxLineBytes
    (CountBytes (bytes "a" ++ [nl] ++ bytes "bb" ++ [nl] ++ bytes "ccc" ++ [nl])
                (Metrics.mk true false false false true false)
                (mkOptions 4 utf8)) = Some 3.
Proof.
  apply (max_line_bytes_is_the_longest_line
           (plain [] EOF)
           (bytes "a" ++ [nl] ++ bytes "bb" ++ [nl] ++ bytes "ccc" ++ [nl])
           (Metrics.mk true false false false true false)
           (mkOptions 4 utf8) eq_refl eq_refl).
  - reflexivity.
  - vm_compute. reflexivity.
Defined.

(** X3.  Without the Lines metric no newline ends a line: at end of input
    the maximum line length in bytes, when selected, is the byte count of
    the whole input, and the maximum in characters is the number of
    characters of the whole input (what the Chars metric counts). *)
Theorem without_lines_the_input_is_one_line
    (src : Source) (m : Metrics.t) (opt : Options) :
  Metrics.Lines m = false -> outcome opt src = EOF ->
  MaxLineBytes (CountReader src m opt) =
    (if Metrics.MaxLineBytes m then Bytes (CountReader src m opt) else 0) /\
  MaxLineChars (CountReader src m opt) =
    (if Metrics.MaxLineChars m
     then wrap64 (Z.of_nat (length (events opt src))) else 0).
Proof.
  intros HL Ho. rewrite CountReader_Bytes.
  apply CountReader_one_line; assumption.
Qed.

Lemma without_lines_the_input_is_one_line_witness :
  let src := plain [bytes "one"; [nl]; bytes "three"] EOF in
  let m := Metrics.mk false false false false true true in
  let opt := mkOptions 16 utf8 in
  MaxLineBytes (CountReader src m opt) = 9 /\
  MaxLineChars (CountReader src m opt) = 9.
Proof.
  cbv zeta.
  pose proof (without_lines_the_input_is_one_line
                (plain [bytes "one"; [nl]; bytes "three"] EOF)
                (Metrics.mk false false false false true true)
                (mkOptions 16 utf8) eq_refl eq_refl) as [H1 H2].
  split; [rewrite H1 | rewrite H2]; vm_compute; reflexivity.
Defined.

(** X4.  [Chars] never exceeds [Bytes] (for an input of fewer than 2^64
    bytes); under a C/POSIX locale, or when no byte of the input is above
    0x7F, the Chars metric, when selected, equals the byte count. *)
Theorem chars_against_bytes
    (src : Source) (m : Metrics.t) (opt : Options) :
  (total_bytes (chunks opt src) < 2 ^ 64 ->
   Chars (CountReader src m opt) <= Bytes (CountReader src m opt)) /\
  (locale.IsCOrPOSIX (Locale opt) = true \/
   Forall (Forall (fun c => bval c < 0x80)) (chunks opt src) ->
   Chars (CountReader src m opt) =
   if Metrics.Chars m then Bytes (CountReader src m opt) else 0).
Proof.
  rewrite CountReader_Chars, CountReader_Bytes. split.
  - intros Hb. destruct (events_total_width opt src) as (_ & _ & Hle).
    assert (0 <= total_bytes (chunks opt src))
      by (unfold total_bytes; lia).
    destruct (Metrics.Chars m).
    + rewrite !wrap64_small by lia. exact Hle.
    + rewrite wrap64_small by lia. lia.
  - intros H. destruct (Metrics.Chars m); [|reflexivity].
    unfold events. rewrite events_count_plain by exact H. reflexivity.
Qed.

Lemma chars_against_bytes_witness :
  let src := plain [bytes "na"; [xc3; xaf]; bytes "ve"] EOF in
  Chars (CountReader src lwbc (mkOptions 16 utf8)) <=
    Bytes (CountReader src lwbc (mkOptions 16 utf8)) /\
  Chars (CountReader src lwbc (mkOptions 16 posix)) =
    Bytes (CountReader src lwbc (mkOptions 16 posix)).
Proof.
  cbv zeta. split.
  - apply (chars_against_bytes
             (plain [bytes "na"; [xc3; xaf]; bytes "ve"] EOF) lwbc
             (mkOptions 16 utf8)).
    vm_compute. reflexivity.
  - apply (chars_against_bytes
             (plain [bytes "na"; [xc3; xaf]; bytes "ve"] EOF) lwbc
             (mkOptions 16 posix)).
    left. reflexivity.
Defined.

(** X5.  Under a C/POSIX locale, or on data without a byte above 0x7F,
    [CountBytes] returns the same result for every two positive buffer
    sizes. *)
Theorem buffer_size_is_immaterial_without_multibyte
    (data : list byte) (m : Metrics.t) (opt1 opt2 : Options) :
  0 < BufferSize opt1 -> 0 < BufferSize opt2 ->
  Locale opt1 = Locale opt2 ->
  locale.IsCOrPOSIX (Locale opt1) = true \/
  Forall (fun c => bval c < 0x80) data ->
  CountBytes data m opt1 = CountBytes data m opt2.
Proof.
  intros H1 H2 Hloc Hcase.
  destruct (CountBytes_plain data m opt1 H1) as (cs1 & -> & Hc1 & _).
  destruct (CountBytes_plain data m opt2 H2) as (cs2 & -> & Hc2 & _).
  f_equal. rewrite <- (CountReader_locale _ m opt1 opt2 Hloc).
  destruct Hcase as [HC|Ha].
  - apply chunk_invariance_in_the_c_locale; [exact HC | congruence].
  - apply chunk_invariance_on_ascii; [|congruence].
    apply Forall_concat. rewrite Hc1. exact Ha.
Qed.

Lemma buffer_size_is_immaterial_without_multibyte_witness :
  CountBytes (bytes "two words" ++ [nl]) all_metrics (mkOptions 1 utf8) =
  CountBytes (bytes "two words" ++ [nl]) all_metrics (mkOptions 4096 utf8).
Proof.
  apply buffer_size_is_immaterial_without_multibyte.
  - reflexivity.
  - reflexivity.
  - reflexivity.
  - right. repeat (apply List.Forall_cons; [reflexivity|]).
    apply List.Forall_nil.
Defined.

(** X6.  With a buffer of length 0 a read of the buffered reader returns
    no bytes and a nil error and leaves the reader as it was; so no number
    of reads reaches an error and the read loop of [CountReader] does not
    end.  [CountBytes] with [BufferSize] 0 does not return. *)
Theorem zero_buffer_size_never_reaches_the_end
    (rd : bytesReader) (size fuel : nat) (data : list byte)
    (m : Metrics.t) (loc : locale.Info) :
  let r := NewReaderSize rd size in
  bufio_Read r 0 = ([], None, r) /\
  read_all fuel r 0 = None /\
  CountBytes data m (mkOptions 0 loc) = None.
Proof.
  cbv zeta. split; [reflexivity|]. split.
  - apply read_all_zero; reflexivity.
  - apply CountBytes_none. cbn. lia.
Qed.

(** ** The in-memory reader *)

Lemma read_all_pieces fuel r plen :
  (0 < plen)%nat -> (0 < bufSize r)%nat -> held r = None ->
  (length (remaining r) < fuel)%nat ->
  exists cs,
    read_all fuel r plen =
      Some (mkSource (map (fun c => (c, None)) cs ++ [([], Some EOF)]) EOF) /\
    concat cs = remaining r /\
    Forall (fun c => c <> [] /\ (length c <= plen)%nat) cs.
Proof.
  intros Hp. revert r.
  induction fuel as [|fuel IH]; intros r Hb Hh Hlen; [lia|].
  cbn [read_all].
  pose proof (bufio_Read_spec r plen Hp Hb Hh) as H.
  destruct (bufio_Read r plen) as [[chunk e] r'].
  destruct H as (H1 & H2 & H3 & H4 & [(Hc & He & Hr)|(Hc & He)]); subst e.
  - exists []. subst chunk. split; [reflexivity|].
    split; [symmetry; exact Hr | constructor].
  - destruct (IH r') as (cs & Hs & Hcat & Hall).
    + rewrite H2. exact Hb.
    + exact H3.
    + rewrite H1, length_app in Hlen.
      assert (0 < length chunk)%nat
        by (destruct chunk; simpl; [congruence|lia]).
      lia.
    + rewrite Hs. exists (chunk :: cs). split; [reflexivity|]. split.
      * cbn [concat]. rewrite Hcat. symmetry. exact H1.
      * constructor; [split|]; assumption.
Qed.

(** X7.  The reads that [CountBytes] makes on its in-memory reader, with a
    buffer of [size] > 0 bytes, deliver the data in order, without loss or
    repetition, in non-empty pieces of at most [size] bytes, each with a nil
    error, followed by one read of no bytes and [io.EOF]. *)
Theorem in_memory_reader_delivers_the_data (data : list byte) (size : nat) :
  (0 < size)%nat ->
  exists cs : list (list byte),
    read_all (length data + 2)
             (NewReaderSize (mkBytesReader data 0) size) size =
      Some (mkSource (map (fun c => (c, None)) cs ++ [([], Some EOF)]) EOF) /\
    concat cs = data /\
    Forall (fun c => c <> [] /\ (length c <= size)%nat) cs.
Proof.
  intros Hs.
  destruct (read_all_pieces (length data + 2)
              (NewReaderSize (mkBytesReader data 0) size) size)
    as (cs & H1 & H2 & H3).
  - exact Hs.
  - cbn [NewReaderSize bufSize]. lia.
  - reflexivity.
  - unfold remaining. cbn. rewrite drop_0. lia.
  - exists cs. split; [exact H1|]. split; [|exact H3].
    rewrite H2. unfold remaining. cbn. apply drop_0.
Qed.

Lemma in_memory_reader_delivers_the_data_witness :
  exists cs : list (list byte),
    read_all 13 (NewReaderSize (mkBytesReader (bytes "hello world") 0) 5) 5 =
      Some (mkSource (map (fun c => (c, None)) cs ++ [([], Some EOF)]) EOF) /\
    concat cs = bytes "hello world" /\
    Forall (fun c => c <> [] /\ (length c <= 5)%nat) cs.
Proof.
  apply (in_memory_reader_delivers_the_data (bytes "hello world") 5). lia.
Defined.

(** Eleven bytes through a buffer of five. *)
Example in_memory_reads_of_five :
  option_map (fun s => map fst (reads s))
    (read_all 13 (NewReaderSize (mkBytesReader (bytes "hello world") 0) 5) 5) =
  Some [bytes "hello"; bytes " worl"; bytes "d"; []].
Proof. vm_compute. reflexivity. Qed.

(** ** Well-formed UTF-8 *)

Lemma land_shiftl_small x y k :
  0 <= k -> 0 <= y < 2 ^ k -> Z.land (Z.shiftl x k) y = 0.
Proof.
  intros Hk Hy. apply Z.bits_inj'. intros n Hn.
  rewrite Z.land_spec, Z.bits_0.
  destruct (Z.lt_ge_cases n k) as [Hlt|Hge].
  - rewrite Z.shiftl_spec_low by exact Hlt. reflexivity.
  - destruct (Z.eq_dec y 0) as [->|Hy0];
      [rewrite Z.bits_0; apply andb_false_r|].
    rewrite (Z.bits_above_log2 y n); [apply andb_false_r | lia |].
    assert (Z.log2 y < k) by (apply Z.log2_lt_pow2; lia). lia.
Qed.

Lemma lor_shiftl_small x y k :
  0 <= k -> 0 <= y < 2 ^ k -> Z.lor (Z.shiftl x k) y = x * 2 ^ k + y.
Proof.
  intros Hk Hy.
  pose proof (Z.add_lor_land (Z.shiftl x k) y) as H.
  rewrite land_shiftl_small in H by assumption.
  rewrite Z.shiftl_mul_pow2 in H |- * by exact Hk. lia.
Qed.

Lemma land_mod p k : 0 <= k -> Z.land p (Z.ones k) = p mod 2 ^ k.
Proof. intros Hk. apply Z.land_ones, Hk. Qed.

Ltac divmod := Z.to_euclidean_division_equations; lia.

Ltac pick_first H :=
  match goal with
  | |- first ?p = _ =>
    destruct (first_range p)
      as [[H ?]|[[H ?]|[[H ?]|[[H ?]|[[H ?]|[[H ?]|[[H ?]|[[H ?]|[H ?]]]]]]]]];
    try exact H; exfalso; divmod
  end.

Lemma rune_of_two r :
  0x80 <= r < 0x800 ->
  Z.lor (Z.shiftl (Z.land (0xC0 + r / 64) 0x1F) 6) (Z.land (0x80 + r mod 64) 0x3F)
  = r.
Proof.
  intros Hr. change 0x1F with (Z.ones 5). change 0x3F with (Z.ones 6).
  rewrite !land_mod by lia. change (2 ^ 5) with 32. change (2 ^ 6) with 64.
  rewrite lor_shiftl_small by (change (2 ^ 6) with 64; divmod).
  change (2 ^ 6) with 64. divmod.
Qed.

Lemma rune_of_three r :
  0x800 <= r < 0x10000 ->
  Z.lor (Z.lor (Z.shiftl (Z.land (0xE0 + r / 4096) 0x0F) 12)
               (Z.shiftl (Z.land (0x80 + (r / 64) mod 64) 0x3F) 6))
        (Z.land (0x80 + r mod 64) 0x3F) = r.
Proof.
  intros Hr. change 0x0F with (Z.ones 4). change 0x3F with (Z.ones 6).
  rewrite !land_mod by lia. change (2 ^ 4) with 16. change (2 ^ 6) with 64.
  replace (Z.lor (Z.shiftl ((224 + r / 4096) mod 16) 12)
                 (Z.shiftl ((128 + (r / 64) mod 64) mod 64) 6))
    with (Z.shiftl (Z.lor (Z.shiftl ((224 + r / 4096) mod 16) 6)
                          ((128 + (r / 64) mod 64) mod 64)) 6)
    by (rewrite Z.shiftl_lor, Z.shiftl_shiftl by lia; reflexivity).
  rewrite (lor_shiftl_small _ ((128 + (r / 64) mod 64) mod 64))
    by (change (2 ^ 6) with 64; divmod).
  rewrite lor_shiftl_small by (change (2 ^ 6) with 64; divmod).
  change (2 ^ 6) with 64. divmod.
Qed.

Lemma rune_of_four r :
  0x10000 <= r <= 0x10FFFF ->
  Z.lor (Z.lor (Z.lor (Z.shiftl (Z.land (0xF0 + r / 262144) 0x07) 18)
                      (Z.shiftl (Z.land (0x80 + (r / 4096) mod 64) 0x3F) 12))
               (Z.shiftl (Z.land (0x80 + (r / 64) mod 64) 0x3F) 6))
        (Z.land (0x80 + r mod 64) 0x3F) = r.
Proof.
  intros Hr. change 0x07 with (Z.ones 3). change 0x3F with (Z.ones 6).
  rewrite !land_mod by lia. change (2 ^ 3) with 8. change (2 ^ 6) with 64.
  set (a := (240 + r / 262144) mod 8).
  set (b := (128 + (r / 4096) mod 64) mod 64).
  set (c := (128 + (r / 64) mod 64) mod 64).
  set (d := (128 + r mod 64) mod 64).
  replace (Z.lor (Z.lor (Z.shiftl a 18) (Z.shiftl b 12)) (Z.shiftl c 6))
    with (Z.shiftl (Z.lor (Z.shiftl (Z.lor (Z.shiftl a 6) b) 6) c) 6)
    by (rewrite !Z.shiftl_lor, !Z.shiftl_shiftl by lia; reflexivity).
  assert (Hb : 0 <= b < 2 ^ 6) by (unfold b; change (2 ^ 6) with 64; divmod).
  assert (Hc : 0 <= c < 2 ^ 6) by (unfold c; change (2 ^ 6) with 64; divmod).
  assert (Hd : 0 <= d < 2 ^ 6) by (unfold d; change (2 ^ 6) with 64; divmod).
  rewrite (lor_shiftl_small a b), (lor_shiftl_small _ c),
    (lor_shiftl_small _ d) by (assumption || lia).
  change (2 ^ 6) with 64. unfold a, b, c, d. divmod.
Qed.

Ltac decided :=
  repeat match goal with
         | |- context [if ?c then _ else _] =>
           first [ replace c with true by (symmetry; divmod)
                 | replace c with false by (symmetry; divmod)
                 | replace c with false by (symmetry; apply Z.ltb_ge; lia) ]
         end.

Lemma DecodeRune_encoded r bs rest :
  scalar r -> map bval bs = utf8_bytes r ->
  DecodeRune (bs ++ rest) = (r, utf8_size r) /\
  Z.of_nat (length bs) = utf8_size r.
Proof.
  intros Hs Hb. unfold utf8_bytes, utf8_size in *.
  destruct (r <? 0x80) eqn:E1; [|destruct (r <? 0x800) eqn:E2;
    [|destruct (r <? 0x10000) eqn:E3]].
  - destruct bs as [|c0 [|c1 bs]]; try discriminate.
    cbn [map] in Hb. injection Hb as H0. split; [|reflexivity].
    cbn [app]. rewrite DecodeRune_ascii by lia. rewrite H0. reflexivity.
  - destruct bs as [|c0 [|c1 [|c2 bs]]]; try discriminate.
    cbn [map] in Hb. injection Hb as H0 H1. split; [|reflexivity].
    cbn [app]. unfold DecodeRune.
    assert (Hf : first (bval c0) = 0x02) by pick_first H.
    rewrite Hf. closed_bits. cbv iota.
    cbn [acceptRanges Z.eqb Pos.eqb fst snd length].
    rewrite H0, H1. decided. rewrite rune_of_two by lia. reflexivity.
  - destruct bs as [|c0 [|c1 [|c2 [|c3 bs]]]]; try discriminate.
    cbn [map] in Hb. injection Hb as H0 H1 H2. split; [|reflexivity].
    cbn [app]. unfold DecodeRune, continuation.
    destruct Hs as [Hs|Hs].
    + destruct (Z.lt_ge_cases r 0x1000) as [Hlo|Hhi].
      * assert (Hf : first (bval c0) = 0x13) by pick_first H.
        rewrite Hf. closed_bits. cbv iota.
        cbn [acceptRanges Z.eqb Pos.eqb fst snd length].
        rewrite H0, H1, H2. decided. cbn [negb].
        rewrite rune_of_three by lia. reflexivity.
      * destruct (Z.lt_ge_cases r 0xD000) as [Hmid|Hd].
        -- assert (Hf : first (bval c0) = 0x03) by pick_first H.
           rewrite Hf. closed_bits. cbv iota.
           cbn [acceptRanges Z.eqb Pos.eqb fst snd length].
           rewrite H0, H1, H2. decided. cbn [negb].
           rewrite rune_of_three by lia. reflexivity.
        -- assert (Hf : first (bval c0) = 0x23) by pick_first H.
           rewrite Hf. closed_bits. cbv iota.
           cbn [acceptRanges Z.eqb Pos.eqb fst snd length].
           rewrite H0, H1, H2. decided. cbn [negb].
           rewrite rune_of_three by lia. reflexivity.
    + assert (Hf : first (bval c0) = 0x03) by pick_first H.
      rewrite Hf. closed_bits. cbv iota.
      cbn [acceptRanges Z.eqb Pos.eqb fst snd length].
      rewrite H0, H1, H2. decided. cbn [negb].
      rewrite rune_of_three by lia. reflexivity.
  - destruct bs as [|c0 [|c1 [|c2 [|c3 [|c4 bs]]]]]; try discriminate.
    cbn [map] in Hb. injection Hb as H0 H1 H2 H3. split; [|reflexivity].
    cbn [app]. unfold DecodeRune, continuation.
    assert (Hr : 0x10000 <= r <= 0x10FFFF) by (destruct Hs; lia).
    destruct (Z.lt_ge_cases r 0x40000) as [Hlo|Hhi].
    + assert (Hf : first (bval c0) = 0x34) by pick_first H.
      rewrite Hf. closed_bits. cbv iota.
      cbn [acceptRanges Z.eqb Pos.eqb fst snd length].
      rewrite H0, H1, H2, H3. decided. cbn [negb].
      rewrite rune_of_four by lia. reflexivity.
    + destruct (Z.lt_ge_cases r 0x100000) as [Hmid|Hd].
      * assert (Hf : first (bval c0) = 0x04) by pick_first H.
        rewrite Hf. closed_bits. cbv iota.
        cbn [acceptRanges Z.eqb Pos.eqb fst snd length].
        rewrite H0, H1, H2, H3. decided. cbn [negb].
        rewrite rune_of_four by lia. reflexivity.
      * assert (Hf : first (bval c0) = 0x44) by pick_first H.
        rewrite Hf. closed_bits. cbv iota.
        cbn [acceptRanges Z.eqb Pos.eqb fst snd length].
        rewrite H0, H1, H2, H3. decided. cbn [negb].
        rewrite rune_of_four by lia. reflexivity.
Qed.

Lemma utf8_size_range r : 1 <= utf8_size r <= 4.
Proof. unfold utf8_size. split_ifs; lia. Qed.

Lemma decode_events_encoded rs data :
  encodes rs data ->
  forall fuel, (length data <= fuel)%nat ->
  decode_events fuel data = map rune_event rs.
Proof.
  induction 1 as [|r rs bs rest Hs Hb _ IH]; intros fuel Hlen.
  - destruct fuel; reflexivity.
  - destruct (DecodeRune_encoded r bs rest Hs Hb) as [Hd Hn].
    pose proof (utf8_size_range r) as Hr.
    destruct bs as [|c bs]; [cbn [length] in Hn; lia|].
    destruct fuel as [|fuel]; [cbn [app length] in Hlen; lia|].
    change ((c :: bs) ++ rest) with (c :: (bs ++ rest)) in *.
    cbn [decode_events]. rewrite Hd.
    replace ((r =? RuneError) && (utf8_size r =? 1)) with false.
    + cbn [map]. f_equal.
      change (c :: (bs ++ rest)) with ((c :: bs) ++ rest).
      replace (Z.to_nat (utf8_size r)) with (length (c :: bs)) by lia.
      rewrite drop_app_length. apply IH.
      cbn [length] in Hlen. rewrite length_app in Hlen. lia.
    + symmetry. apply andb_false_iff.
      unfold utf8_size, RuneError. destruct (r <? 0x80) eqn:E.
      * left. lia.
      * right. split_ifs; reflexivity.
Qed.

Lemma events_encoded opt rss cs fin :
  locale.IsCOrPOSIX (Locale opt) = false ->
  Forall2 encodes rss cs ->
  events opt (plain cs fin) = map rune_event (concat rss).
Proof.
  intros HC H. unfold events. rewrite chunks_plain.
  induction H as [|rs chunk rss cs Hrs _ IH]; [reflexivity|].
  cbn [map concat]. rewrite map_app, IH. f_equal.
  unfold chunk_events. rewrite HC.
  apply decode_events_encoded; [exact Hrs | lia].
Qed.

Lemma bufio_Read_direct r plen :
  (0 < plen)%nat -> unread r = [] -> held r = None ->
  (bufSize r <= plen)%nat ->
  bufio_Read r plen =
    (let '(chunk, e, rd') := bytesReader_Read (rd r) plen in
     (chunk, e, mkBufioReader rd' (bufSize r) [] None)).
Proof.
  intros Hp Hu Hh Hb. destruct plen as [|k]; [lia|].
  unfold bufio_Read. rewrite Hu, Hh.
  destruct (Nat.leb_spec (bufSize r) (S k)); [reflexivity | lia].
Qed.

Lemma CountReader_empty_chunk m opt fin :
  CountReader (plain [] fin) m opt = CountReader (plain [[]] fin) m opt.
Proof.
  unfold CountReader. rewrite !scan_scanned.
  unfold scanned, chunks, outcome, plain. cbn [reads at_end].
  rewrite !taken_plain. reflexivity.
Qed.

(** A buffer that holds all the data takes it in one read. *)
Lemma CountBytes_whole data m opt :
  16 <= BufferSize opt -> Z.of_nat (length data) <= BufferSize opt ->
  CountBytes data m opt = Some (CountReader (plain [data] EOF) m opt).
Proof.
  intros H16 Hlen. unfold CountBytes.
  replace (BufferSize opt <? 0) with false by lia.
  set (size := Z.to_nat (BufferSize opt)).
  assert (Hsize : (16 <= size)%nat) by (unfold size; lia).
  assert (Hdata : (length data <= size)%nat) by (unfold size; lia).
  replace (length data + 2)%nat with (S (S (length data))) by lia.
  unfold NewReaderSize. rewrite Nat.max_l by exact Hsize.
  cbn [read_all].
  rewrite bufio_Read_direct by (cbn [bufSize unread held]; (lia || reflexivity)).
  unfold bytesReader_Read at 1. cbn [rd b off bufSize].
  destruct data as [|c data].
  - cbn [length Nat.leb]. f_equal; rewrite <- CountReader_empty_chunk;
      apply (CountReader_then_end [] EOF EOF m opt).
  - cbn [length Nat.leb]. rewrite drop_0, firstn_all2 by exact Hdata.
    rewrite bufio_Read_direct
      by (cbn [bufSize unread held]; (lia || reflexivity)).
    unfold bytesReader_Read. cbn [rd b off bufSize Nat.add].
    rewrite Nat.leb_refl. cbn [reads at_end].
    f_equal; apply (CountReader_then_end [c :: data] EOF EOF m opt).
Qed.

(** X21.  Outside the C and POSIX locales, when every read holds the UTF-8
    forms of whole scalar values (no code point is cut by a read, no byte
    is outside such a form), the Chars metric, when selected, is the number
    of those scalar values and the Words metric, when selected, is the
    number of maximal runs of values that [unicode.IsSpace] rejects.  So it
    is for [CountBytes] on well-formed data that fits a buffer of at least
    16 bytes. *)
Theorem characters_are_code_points
    (rss : list (list Z)) (cs : list (list byte)) (fin : ending)
    (rs : list Z) (data : list byte) (m : Metrics.t) (opt : Options) :
  locale.IsCOrPOSIX (Locale opt) = false ->
  (Forall2 encodes rss cs ->
   let r := CountReader (plain cs fin) m opt in
   Chars r =
     (if Metrics.Chars m then wrap64 (Z.of_nat (length (concat rss)))
      else 0) /\
   Words r =
     (if Metrics.Words m
      then wrap64 (words_from true (map IsSpace (concat rss))) else 0)) /\
  (encodes rs data ->
   16 <= BufferSize opt -> Z.of_nat (length data) <= BufferSize opt ->
   option_map Chars (CountBytes data m opt) =
   Some (if Metrics.Chars m then wrap64 (Z.of_nat (length rs)) else 0)).
Proof.
  intros HC.
  assert (H : forall rss cs fin, Forall2 encodes rss cs ->
            Chars (CountReader (plain cs fin) m opt) =
              (if Metrics.Chars m then wrap64 (Z.of_nat (length (concat rss)))
               else 0) /\
            Words (CountReader (plain cs fin) m opt) =
              (if Metrics.Words m
               then wrap64 (words_from true (map IsSpace (concat rss)))
               else 0)).
  { intros rss' cs' fin' Henc.
    rewrite CountReader_Chars, CountReader_Words,
      (events_encoded opt rss' cs' fin' HC Henc).
    rewrite length_map, map_map. split; reflexivity. }
  split; [apply H|].
  intros Henc H16 Hlen. rewrite CountBytes_whole by assumption.
  cbn [option_map]. f_equal.
  destruct (H [rs] [data] EOF) as [Hc _].
  - repeat constructor. exact Henc.
  - rewrite Hc. cbn [concat]. rewrite app_nil_r. reflexivity.
Qed.

Lemma characters_are_code_points_witness :
  let cs := [[x68; xc3; xa9; x20]; [xe2; x82; xac; xf0; x9f; x98; x80]] in
  let opt := mkOptions 16 utf8 in
  Chars (CountReader (plain cs EOF) lwbc opt) = 5 /\
  Words (CountReader (plain cs EOF) lwbc opt) = 2 /\
  option_map Chars (CountBytes (concat cs) lwbc opt) = Some 5.
Proof.
  cbv zeta.
  assert (H1 : encodes [0x68; 0xE9; 0x20] [x68; xc3; xa9; x20]).
  { refine (encodes_cons 0x68 _ [x68] _ _ eq_refl _); [left; lia|].
    refine (encodes_cons 0xE9 _ [xc3; xa9] _ _ eq_refl _); [left; lia|].
    refine (encodes_cons 0x20 _ [x20] _ _ eq_refl _); [left; lia|].
    exact encodes_nil. }
  assert (H2 : encodes [0x20AC; 0x1F600] [xe2; x82; xac; xf0; x9f; x98; x80]).
  { refine (encodes_cons 0x20AC _ [xe2; x82; xac] _ _ eq_refl _);
      [left; lia|].
    refine (encodes_cons 0x1F600 _ [xf0; x9f; x98; x80] _ _ eq_refl _);
      [right; lia|].
    exact encodes_nil. }
  destruct (characters_are_code_points
              [[0x68; 0xE9; 0x20]; [0x20AC; 0x1F600]]
              [[x68; xc3; xa9; x20]; [xe2; x82; xac; xf0; x9f; x98; x80]]
              EOF [0x68; 0xE9; 0x20; 0x20AC; 0x1F600]
              [x68; xc3; xa9; x20; xe2; x82; xac; xf0; x9f; x98; x80]
              lwbc (mkOptions 16 utf8) eq_refl) as [Ha Hb].
  destruct Ha as [Hc Hw].
  { constructor; [exact H1|]. constructor; [exact H2|]. constructor. }
  split; [rewrite Hc; reflexivity|].
  split; [rewrite Hw; reflexivity|].
  apply Hb.
  - refine (encodes_cons 0x68 _ [x68] _ _ eq_refl _); [left; lia|].
    refine (encodes_cons 0xE9 _ [xc3; xa9] _ _ eq_refl _); [left; lia|].
    refine (encodes_cons 0x20 _ [x20] _ _ eq_refl _); [left; lia|].
    exact H2.
  - cbn. lia.
  - cbn. lia.
Defined.

(** ** Bytes the decoder rejects *)

(** After the UTF-8 forms of whole scalar values the decoder goes on with
    what follows them. *)
Lemma decode_events_after_encoded rs pre :
  encodes rs pre ->
  forall rest fuel, (length (pre ++ rest) <= fuel)%nat ->
  decode_events fuel (pre ++ rest) =
  map rune_event rs ++ decode_events (length rest) rest.
Proof.
  induction 1 as [|r rs bs tl Hs Hb _ IH]; intros rest fuel Hlen.
  - cbn [app map]. apply decode_events_fuel; [exact Hlen | lia].
  - rewrite <- app_assoc in Hlen |- *.
    destruct (DecodeRune_encoded r bs (tl ++ rest) Hs Hb) as [Hd Hn].
    pose proof (utf8_size_range r) as Hr.
    destruct bs as [|c bs]; [cbn [length] in Hn; lia|].
    destruct fuel as [|fuel]; [cbn [app length] in Hlen; lia|].
    change ((c :: bs) ++ tl ++ rest) with (c :: (bs ++ tl ++ rest)) in *.
    cbn [decode_events]. rewrite Hd.
    replace ((r =? RuneError) && (utf8_size r =? 1)) with false.
    + cbn [map app]. f_equal.
      change (c :: (bs ++ tl ++ rest)) with ((c :: bs) ++ tl ++ rest).
      replace (Z.to_nat (utf8_size r)) with (length (c :: bs)) by lia.
      rewrite drop_app_length. apply IH.
      cbn [length] in Hlen. rewrite length_app in Hlen. lia.
    + symmetry. apply andb_false_iff.
      unfold utf8_size, RuneError. destruct (r <? 0x80) eqn:E.
      * left. lia.
      * right. split_ifs; reflexivity.
Qed.

Lemma decode_events_rejected c post fuel :
  DecodeRune (c :: post) = (RuneError, 1) ->
  (length (c :: post) <= fuel)%nat ->
  decode_events fuel (c :: post) =
  Invalid c :: decode_events (length post) post.
Proof.
  intros H Hlen. destruct fuel as [|fuel]; [cbn [length] in Hlen; lia|].
  cbn [decode_events]. rewrite H. cbn [Z.eqb RuneError andb].
  change (skipn 1 (c :: post)) with post. f_equal.
  apply decode_events_fuel; [cbn [length] in Hlen; lia | lia].
Qed.

Lemma events_around opt before chunk after fin :
  events opt (plain (before ++ [chunk] ++ after) fin) =
  events opt (plain before fin) ++ chunk_events opt chunk ++
  events opt (plain after fin).
Proof.
  unfold events. rewrite !chunks_plain, !map_app, !concat_app.
  cbn [map concat]. rewrite app_nil_r. reflexivity.
Qed.

Lemma total_bytes_around before pre c post after :
  total_bytes (before ++ [pre ++ c :: post] ++ after) =
  total_bytes (before ++ [pre ++ post] ++ after) + 1.
Proof.
  unfold total_bytes. rewrite !concat_app. cbn [concat].
  rewrite ?length_app. cbn [length]. rewrite ?length_app. cbn [length]. lia.
Qed.

Lemma count_newlines_rejected l1 c l2 :
  0x80 <= bval c ->
  count_newlines (l1 ++ Invalid c :: l2) = count_newlines (l1 ++ l2).
Proof.
  intros Hc. unfold count_newlines. rewrite !List.filter_app.
  cbn [List.filter ev_newline].
  replace (bval c =? 10) with false by lia. reflexivity.
Qed.

(** C5.  Let the decoder reject the sequence that starts with the byte [c]
    and goes on with [post].

    In the decoding loop, from any state: the round takes exactly that one
    byte; it adds one to [Chars] when selected and one to each in-progress
    line length that is tracked; it tests the byte for being the newline;
    it leaves the error field alone; and the loop then runs on [post] from
    the state so updated, to the end of the data.

    In a whole scan outside the C and POSIX locales, where the byte comes in
    a read after the UTF-8 forms [pre] of whole scalar values, among any
    reads [before] and [after]: the characters the scan sees are those seen
    without the byte, with one character more in its place, so the decoder
    resumes at the very next byte; [Chars], when selected, and [Bytes] are
    one more than without the byte, [Lines] is the same (a rejected byte is
    never the newline), and the scan ends as it does without the byte, on
    the end the reader reports. *)
Theorem invalid_sequence_is_one_character_of_one_byte
    (m : Metrics.t) (opt : Options) (s : Counting) (rs : list Z)
    (before after : list (list byte)) (pre post : list byte) (c : byte)
    (fin : ending) :
  DecodeRune (c :: post) = (RuneError, 1) ->
  let s' := fst (decode_step m s (c :: post)) in
  let nl := Metrics.Lines m && (bval c =? 10) in
  let l1 := events opt (plain before fin) ++ map rune_event rs in
  let l2 := chunk_events opt post ++ events opt (plain after fin) in
  let with_it := plain (before ++ [pre ++ c :: post] ++ after) fin in
  let without := plain (before ++ [pre ++ post] ++ after) fin in
  (snd (decode_step m s (c :: post)) = post /\
   Chars (res s') =
     (if Metrics.Chars m then add64 (Chars (res s)) 1 else Chars (res s)) /\
   Lines (res s') = (if nl then add64 (Lines (res s)) 1 else Lines (res s)) /\
   curLineBytes s' =
     (if nl then 0
      else if Metrics.MaxLineBytes m then add64 (curLineBytes s) 1
           else curLineBytes s) /\
   curLineChars s' =
     (if nl then 0
      else if Metrics.MaxLineChars m then add64 (curLineChars s) 1
           else curLineChars s) /\
   Err (res s') = Err (res s) /\
   decode_loop m (length (c :: post)) s (c :: post) =
     decode_loop m (length post) s' post /\
   snd (decode_loop m (length post) s' post) = []) /\
  (locale.IsCOrPOSIX (Locale opt) = false -> encodes rs pre ->
   events opt with_it = l1 ++ Invalid c :: l2 /\
   events opt without = l1 ++ l2 /\
   Chars (CountReader with_it m opt) =
     (if Metrics.Chars m then add64 (Chars (CountReader without m opt)) 1
      else 0) /\
   Bytes (CountReader with_it m opt) =
     add64 (Bytes (CountReader without m opt)) 1 /\
   Lines (CountReader with_it m opt) = Lines (CountReader without m opt) /\
   Err (CountReader with_it m opt) = Err (CountReader without m opt) /\
   Err (CountReader with_it m opt) =
     match fin with EOF => None | Failed e => Some e end).
Proof.
  intros H. cbv zeta. split.
  - assert (Hstep : decode_step m s (c :: post) = (invalid_byte m s c, post)).
    { unfold decode_step. rewrite H. reflexivity. }
    rewrite Hstep. cbn [fst snd].
    change (invalid_byte m s c) with (ev_step m s (Invalid c)).
    assert (Hloop : decode_loop m (length (c :: post)) s (c :: post) =
                    decode_loop m (length post) (ev_step m s (Invalid c)) post).
    { rewrite !decode_loop_fold by lia.
      rewrite (decode_events_rejected c post _ H) by lia. reflexivity. }
    assert (Hend : snd (decode_loop m (length post)
                                    (ev_step m s (Invalid c)) post) = []).
    { rewrite decode_loop_fold by lia. reflexivity. }
    revert Hloop Hend.
    generalize (decode_loop m (length (c :: post)) s (c :: post)).
    generalize (decode_loop m (length post)). intros f p Hloop Hend.
    split_state s. rewrite invalid_mk in Hloop, Hend |- *.
    cbv zeta in Hloop, Hend |- *.
    cbn [res Chars Lines Err curLineBytes curLineChars] in Hloop, Hend |- *.
    repeat split; assumption.
  - intros HC Henc.
    assert (Hhigh : 0x80 <= bval c).
    { destruct (Z.lt_ge_cases (bval c) 0x80) as [Hlo|Hhi]; [|exact Hhi].
      rewrite DecodeRune_ascii in H by (pose proof (bval_range c); lia).
      injection H as H. unfold RuneError in H. lia. }
    assert (E1 : events opt (plain (before ++ [pre ++ c :: post] ++ after) fin)
                 = (events opt (plain before fin) ++ map rune_event rs) ++
                   Invalid c :: chunk_events opt post ++
                   events opt (plain after fin)).
    { rewrite events_around. unfold chunk_events at 1. rewrite HC.
      rewrite (decode_events_after_encoded rs pre Henc) by lia.
      rewrite (decode_events_rejected c post _ H) by lia.
      unfold chunk_events. rewrite HC. rewrite <- !app_assoc. reflexivity. }
    assert (E2 : events opt (plain (before ++ [pre ++ post] ++ after) fin)
                 = (events opt (plain before fin) ++ map rune_event rs) ++
                   chunk_events opt post ++ events opt (plain after fin)).
    { rewrite events_around. unfold chunk_events at 1. rewrite HC.
      rewrite (decode_events_after_encoded rs pre Henc) by lia.
      unfold chunk_events. rewrite HC. rewrite <- !app_assoc. reflexivity. }
    split; [exact E1|]. split; [exact E2|].
    rewrite !CountReader_Chars, !CountReader_Bytes, !CountReader_Lines,
      !CountReader_Err, !chunks_plain, !outcome_plain, E1, E2.
    rewrite total_bytes_around, count_newlines_rejected by exact Hhigh.
    repeat split.
    + destruct (Metrics.Chars m); [|reflexivity].
      rewrite add64_wrap_l. f_equal. rewrite !length_app. cbn [length].
      rewrite !length_app. lia.
    + rewrite add64_wrap_l. reflexivity.
Qed.

Lemma invalid_sequence_is_one_character_of_one_byte_witness :
  let opt := mkOptions 1024 utf8 in
  let with_it := plain [bytes "ab"; [xc3; xa9; x80; xc3; xa9]; [nl]] EOF in
  let without := plain [bytes "ab"; [xc3; xa9; xc3; xa9]; [nl]] EOF in
  DecodeRune [x80; xc3; xa9] = (RuneError, 1) /\
  counts (CountReader without all_metrics opt) = [1; 1; 7; 5; 6; 4] /\
  Chars (CountReader with_it all_metrics opt) = 6 /\
  Bytes (CountReader with_it all_metrics opt) = 8 /\
  Lines (CountReader with_it all_metrics opt) = 1 /\
  Err (CountReader with_it all_metrics opt) = None.
Proof.
  cbv zeta. split; [reflexivity|]. split; [vm_compute; reflexivity|].
  destruct (invalid_sequence_is_one_character_of_one_byte
              all_metrics (mkOptions 1024 utf8) (initial (mkOptions 1024 utf8))
              [0xE9] [bytes "ab"] [[nl]] [xc3; xa9] [xc3; xa9] x80 EOF
              eq_refl) as [_ Hscan].
  destruct Hscan as (_ & _ & Hc & Hb & Hl & _ & He).
  - reflexivity.
  - refine (encodes_cons 0xE9 _ [xc3; xa9] _ _ eq_refl encodes_nil).
    left. lia.
  - change ([bytes "ab"] ++ [[xc3; xa9] ++ x80 :: [xc3; xa9]] ++ [[nl]])
      with [bytes "ab"; [xc3; xa9; x80; xc3; xa9]; [nl]] in *.
    change ([bytes "ab"] ++ [[xc3; xa9] ++ [xc3; xa9]] ++ [[nl]])
      with [bytes "ab"; [xc3; xa9; xc3; xa9]; [nl]] in *.
    rewrite Hc, Hb, Hl, He. repeat split; vm_compute; reflexivity.
Defined.

(** A lone continuation byte between two valid two-byte runes: three
    characters, five bytes, and the scan goes on to the end. *)
Example lone_continuation_byte :
  option_map counts
    (CountBytes (bytes "é" ++ [x80] ++ bytes "é")
                (Metrics.mk false false true true false false)
                (mkOptions 1024 utf8)) =
  Some [0; 0; 5; 3; 0; 0].
Proof. vm_compute. reflexivity. Qed.

(** ** The sum law, for every split into reads *)

Lemma encodes_app rs1 d1 rs2 d2 :
  encodes rs1 d1 -> encodes rs2 d2 -> encodes (rs1 ++ rs2) (d1 ++ d2).
Proof.
  induction 1 as [|r rs bs rest Hs Hb _ IH]; intros H2; [exact H2|].
  rewrite <- app_assoc. cbn [app]. constructor; auto.
Qed.

Lemma encodes_concat rss cs :
  Forall2 encodes rss cs -> encodes (concat rss) (concat cs).
Proof.
  induction 1 as [|rs c rss cs H _ IH]; [constructor|].
  cbn [concat]. apply encodes_app; assumption.
Qed.

(** In the C locale no character is more than a byte. *)
Lemma whole_characters_c_locale opt cs :
  locale.IsCOrPOSIX (Locale opt) = true -> whole_characters opt cs.
Proof.
  intros HC. unfold whole_characters, chunk_events. rewrite HC.
  induction cs as [|c cs IH]; [reflexivity|].
  cbn [map concat]. rewrite IH, map_app. reflexivity.
Qed.

(** Reads that hold the UTF-8 forms of whole scalar values cut none. *)
Lemma whole_characters_encoded opt rss cs :
  Forall2 encodes rss cs -> whole_characters opt cs.
Proof.
  intros H.
  destruct (locale.IsCOrPOSIX (Locale opt)) eqn:HC;
    [apply whole_characters_c_locale; exact HC|].
  unfold whole_characters.
  transitivity (map rune_event (concat rss)).
  - induction H as [|rs c rss cs Hrs _ IH]; [reflexivity|].
    cbn [map concat]. rewrite map_app, IH. f_equal.
    unfold chunk_events. rewrite HC.
    apply decode_events_encoded; [exact Hrs | lia].
  - unfold chunk_events. rewrite HC. symmetry.
    apply decode_events_encoded; [apply encodes_concat; exact H | lia].
Qed.

Lemma events_whole opt cs fin :
  whole_characters opt cs ->
  events opt (plain cs fin) = chunk_events opt (concat cs).
Proof. intros H. unfold events. rewrite chunks_plain. exact H. Qed.

Lemma events_of_concatenation opt cs1 cs2 cs fin1 fin2 fin :
  concat cs = concat cs1 ++ concat cs2 ->
  whole_characters opt cs1 -> whole_characters opt cs2 ->
  whole_characters opt cs ->
  whole_characters opt [concat cs1; concat cs2] ->
  events opt (plain cs fin) =
  events opt (plain cs1 fin1) ++ events opt (plain cs2 fin2).
Proof.
  intros Hcat H1 H2 H HJ.
  rewrite !events_whole by assumption. rewrite Hcat.
  unfold whole_characters in HJ. cbn [map concat] in HJ.
  rewrite !app_nil_r in HJ. symmetry. exact HJ.
Qed.

(** C3, as stated, fails in two ways.  On the word count: "ab" and "cd" hold
    one word each, their concatenation "abcd" holds one word, not two,
    whether it comes in one read or in two.  On the character count: the
    two bytes of "é", one in each stream, are two characters, and their
    concatenation, read in one piece, is one. *)
Lemma sum_idempotence_fails :
  let opt := mkOptions 1024 utf8 in
  let w := Metrics.mk false true false false false false in
  let ch := Metrics.mk false false false true false false in
  add64 (Words (CountReader (plain [bytes "ab"] EOF) w opt))
        (Words (CountReader (plain [bytes "cd"] EOF) w opt)) = 2 /\
  Words (CountReader (plain [bytes "abcd"] EOF) w opt) = 1 /\
  Words (CountReader (plain [bytes "ab"; bytes "cd"] EOF) w opt) = 1 /\
  add64 (Chars (CountReader (plain [[xc3]] EOF) ch opt))
        (Chars (CountReader (plain [[xa9]] EOF) ch opt)) = 2 /\
  Chars (CountReader (plain [[xc3; xa9]] EOF) ch opt) = 1 /\
  ~ (forall (cs1 cs2 cs : list (list byte)) (m : Metrics.t) (o : Options),
        concat cs = concat cs1 ++ concat cs2 ->
        Words (CountReader (plain cs EOF) m o) =
        add64 (Words (CountReader (plain cs1 EOF) m o))
              (Words (CountReader (plain cs2 EOF) m o))) /\
  ~ (forall (cs1 cs2 cs : list (list byte)) (m : Metrics.t) (o : Options),
        concat cs = concat cs1 ++ concat cs2 ->
        Chars (CountReader (plain cs EOF) m o) =
        add64 (Chars (CountReader (plain cs1 EOF) m o))
              (Chars (CountReader (plain cs2 EOF) m o))).
Proof.
  cbv zeta. do 5 (split; [vm_compute; reflexivity|]). split.
  - intros H.
    specialize (H [bytes "ab"] [bytes "cd"] [bytes "abcd"]
                  (Metrics.mk false true false false false false)
                  (mkOptions 1024 utf8) eq_refl).
    vm_compute in H. discriminate H.
  - intros H.
    specialize (H [[xc3]] [[xa9]] [[xc3; xa9]]
                  (Metrics.mk false false false true false false)
                  (mkOptions 1024 utf8) eq_refl).
    vm_compute in H. discriminate H.
Qed.

(** C3, amended.  Take two streams and any stream that delivers the bytes
    of the first followed by the bytes of the second, each of the three
    split into reads in any way, all counted under the same metrics and
    options.  The Lines and the Bytes counts of the two add up (in
    [uint64]) to those of the concatenation.  When moreover no read of the
    three, nor the junction of the two streams, falls inside a multi-byte
    character, the Chars counts add up as well, and the Words counts add up
    to the Words count of the concatenation plus one when a word spans the
    junction, that is when the last character of the first stream and the
    first character of the second are both not white space, and to exactly
    that count otherwise.  No read falls inside a character under a C or
    POSIX locale, nor when every read holds the UTF-8 forms of whole scalar
    values. *)
Theorem sums_over_concatenation
    (cs1 cs2 cs : list (list byte)) (fin1 fin2 : ending)
    (m : Metrics.t) (opt : Options) :
  concat cs = concat cs1 ++ concat cs2 ->
  let s1 := plain cs1 fin1 in
  let s2 := plain cs2 fin2 in
  let r1 := CountReader s1 m opt in
  let r2 := CountReader s2 m opt in
  let r := CountReader (plain cs fin2) m opt in
  Lines r = add64 (Lines r1) (Lines r2) /\
  Bytes r = add64 (Bytes r1) (Bytes r2) /\
  (whole_characters opt cs1 -> whole_characters opt cs2 ->
   whole_characters opt cs ->
   whole_characters opt [concat cs1; concat cs2] ->
   Chars r = add64 (Chars r1) (Chars r2) /\
   add64 (Words r)
         (if Metrics.Words m && spans_junction opt s1 s2 then 1 else 0) =
   add64 (Words r1) (Words r2)) /\
  (forall cs0 : list (list byte),
     locale.IsCOrPOSIX (Locale opt) = true \/
     (exists rss, Forall2 encodes rss cs0) ->
     whole_characters opt cs0).
Proof.
  intros Hcat. cbv zeta. split; [|split; [|split]].
  - rewrite !CountReader_Lines. unfold events. rewrite !chunks_plain.
    rewrite !events_newlines_chunks, Hcat, newlines_app.
    destruct (Metrics.Lines m); [|reflexivity].
    rewrite add64_wrap. reflexivity.
  - rewrite !CountReader_Bytes, !chunks_plain. unfold total_bytes.
    rewrite Hcat, length_app, Nat2Z.inj_add, add64_wrap. reflexivity.
  - intros H1 H2 H HJ.
    pose proof (events_of_concatenation opt cs1 cs2 cs fin1 fin2 fin2
                  Hcat H1 H2 H HJ) as E.
    split.
    + rewrite !CountReader_Chars, E.
      destruct (Metrics.Chars m); [|reflexivity].
      rewrite length_app, Nat2Z.inj_add, add64_wrap. reflexivity.
    + rewrite !CountReader_Words, E.
      destruct (Metrics.Words m); [|reflexivity]. cbn [andb].
      rewrite add64_wrap, add64_wrap_l. f_equal.
      rewrite <- (words_from_junction (events opt (plain cs1 fin1))
                                      (events opt (plain cs2 fin2))).
      unfold spans_junction.
      destruct (last (events opt (plain cs1 fin1))),
               (head (events opt (plain cs2 fin2))); reflexivity.
  - intros cs0 [HC|[rss H]].
    + apply whole_characters_c_locale. exact HC.
    + apply (whole_characters_encoded opt rss). exact H.
Qed.

Lemma sums_over_concatenation_witness :
  let opt := mkOptions 1024 utf8 in
  let cs1 := [[xc3; xa9]; [x20; x61]] in
  let cs2 := [[x62]; [nl]] in
  let cs := [[xc3; xa9; x20]; [x61; x62; nl]] in
  let r1 := CountReader (plain cs1 EOF) lwbc opt in
  let r2 := CountReader (plain cs2 EOF) lwbc opt in
  let r := CountReader (plain cs EOF) lwbc opt in
  counts r = [1; 2; 6; 5; 0; 0] /\
  Lines r = add64 (Lines r1) (Lines r2) /\
  Bytes r = add64 (Bytes r1) (Bytes r2) /\
  Chars r = add64 (Chars r1) (Chars r2) /\
  add64 (Words r1) (Words r2) = 3.
Proof.
  cbv zeta. split; [vm_compute; reflexivity|].
  destruct (sums_over_concatenation
              [[xc3; xa9]; [x20; x61]] [[x62]; [nl]]
              [[xc3; xa9; x20]; [x61; x62; nl]] EOF EOF lwbc
              (mkOptions 1024 utf8) eq_refl) as (HL & HB & HCW & Hwhole).
  assert (E1 : encodes [0xE9] [xc3; xa9]).
  { refine (encodes_cons 0xE9 _ [xc3; xa9] _ _ eq_refl encodes_nil).
    left. lia. }
  assert (E2 : encodes [0x20; 0x61] [x20; x61]).
  { refine (encodes_cons 0x20 _ [x20] _ _ eq_refl _); [left; lia|].
    refine (encodes_cons 0x61 _ [x61] _ _ eq_refl encodes_nil). left. lia. }
  assert (E3 : encodes [0x62] [x62]).
  { refine (encodes_cons 0x62 _ [x62] _ _ eq_refl encodes_nil). left. lia. }
  assert (E4 : encodes [0x0A] [nl]).
  { refine (encodes_cons 0x0A _ [nl] _ _ eq_refl encodes_nil). left. lia. }
  assert (E5 : encodes [0xE9; 0x20] [xc3; xa9; x20]).
  { refine (encodes_cons 0xE9 _ [xc3; xa9] _ _ eq_refl _); [left; lia|].
    refine (encodes_cons 0x20 _ [x20] _ _ eq_refl encodes_nil). left. lia. }
  assert (E6 : encodes [0x61; 0x62; 0x0A] [x61; x62; nl]).
  { refine (encodes_cons 0x61 _ [x61] _ _ eq_refl _); [left; lia|].
    refine (encodes_cons 0x62 _ [x62] _ _ eq_refl _); [left; lia|].
    exact E4. }
  destruct HCW as [HC HW].
  - apply Hwhole. right. exists [[0xE9]; [0x20; 0x61]].
    repeat constructor; assumption.
  - apply Hwhole. right. exists [[0x62]; [0x0A]].
    repeat constructor; assumption.
  - apply Hwhole. right. exists [[0xE9; 0x20]; [0x61; 0x62; 0x0A]].
    repeat constructor; assumption.
  - apply Hwhole. right. exists [[0xE9; 0x20; 0x61]; [0x62; 0x0A]].
    constructor; [apply (encodes_app [0xE9] [xc3; xa9] _ _ E1 E2)|].
    constructor; [apply (encodes_app [0x62] [x62] _ _ E3 E4)|]. constructor.
  - split; [exact HL|]. split; [exact HB|]. split; [exact HC|].
    rewrite <- HW. vm_compute. reflexivity.
Defined.

(** ** Formatting *)

(** Strings. *)
Lemma append_cons c (s t : string) :
  String.append (String c s) t = String c (String.append s t).
Proof. reflexivity. Qed.

Lemma append_nil (t : string) : String.append EmptyString t = t.
Proof. reflexivity. Qed.

Lemma length_append (s t : string) :
  String.length (String.append s t) = (String.length s + String.length t)%nat.
Proof.
  induction s as [|c s IH]; [reflexivity|].
  rewrite append_cons. cbn [String.length Nat.add]. f_equal. exact IH.
Qed.

(** The decimal form of a number: its length grows with the number. *)
Lemma digits_S fuel v :
  digits (S fuel) v =
  if v <? 10 then String (digit v) EmptyString
  else String.append (digits fuel (v / 10))
                     (String (digit (v mod 10)) EmptyString).
Proof. reflexivity. Qed.

Lemma digits_bounds k v :
  0 <= v < 2 ^ Z.of_nat (S k) ->
  let n := Z.of_nat (String.length (digits (S k) v)) in
  1 <= n /\ v < 10 ^ n /\ (n = 1 \/ 10 ^ (n - 1) <= v).
Proof.
  revert v. induction k as [|k IH]; intros v Hv; cbv zeta.
  - change (2 ^ Z.of_nat 1) with 2 in Hv. rewrite digits_S.
    replace (v <? 10) with true by lia. cbn. lia.
  - rewrite digits_S. destruct (v <? 10) eqn:E.
    + cbn. lia.
    + apply Z.ltb_ge in E.
      rewrite length_append. cbn [String.length].
      assert (Hq : 0 <= v / 10 < 2 ^ Z.of_nat (S k)).
      { rewrite (Nat2Z.inj_succ (S k)), Z.pow_succ_r in Hv by lia.
        split; [apply Z.div_pos; lia|].
        apply Z.div_lt_upper_bound; lia. }
      specialize (IH (v / 10) Hq). cbv zeta in IH.
      set (n := Z.of_nat (String.length (digits (S k) (v / 10)))) in *.
      replace (Z.of_nat (String.length (digits (S k) (v / 10)) + 1))
        with (n + 1)
        by (unfold n; lia).
      destruct IH as (H1 & H2 & H3).
      split; [lia|]. split.
      * rewrite Z.pow_add_r by lia. change (10 ^ 1) with 10.
        pose proof (Z.div_mod v 10 ltac:(lia)).
        pose proof (Z.mod_pos_bound v 10 ltac:(lia)). lia.
      * right. replace (n + 1 - 1) with n by lia.
        destruct H3 as [-> | H3]; [change (10 ^ 1) with 10; lia|].
        replace n with (n - 1 + 1) by lia.
        rewrite Z.pow_add_r by lia. change (10 ^ 1) with 10.
        pose proof (Z.div_mod v 10 ltac:(lia)).
        pose proof (Z.mod_pos_bound v 10 ltac:(lia)). lia.
Qed.

Lemma FormatUint_bounds v :
  0 <= v ->
  let n := Z.of_nat (String.length (FormatUint v)) in
  1 <= n /\ v < 10 ^ n /\ (n = 1 \/ 10 ^ (n - 1) <= v).
Proof.
  intros Hv. unfold FormatUint. apply digits_bounds. split; [exact Hv|].
  rewrite Nat2Z.inj_succ, Z2Nat.id by apply Z.log2_nonneg.
  destruct (Z.eq_dec v 0) as [->|Hn]; [cbn; lia|].
  apply Z.log2_spec. lia.
Qed.

Lemma FormatUint_negative v :
  v < 0 -> String.length (FormatUint v) = 1%nat.
Proof.
  intros Hv. unfold FormatUint. rewrite Z.log2_nonpos by lia.
  cbn [Z.to_nat digits]. replace (v <? 10) with true by lia. reflexivity.
Qed.

Lemma FormatUint_length_mono v w :
  v <= w ->
  (String.length (FormatUint v) <= String.length (FormatUint w))%nat.
Proof.
  intros Hvw.
  destruct (Z.lt_ge_cases v 0) as [Hneg|Hv].
  - rewrite (FormatUint_negative v Hneg).
    destruct (Z.lt_ge_cases w 0) as [Hw|Hw].
    + rewrite (FormatUint_negative w Hw). lia.
    + pose proof (FormatUint_bounds w Hw) as H. cbv zeta in H. lia.
  - pose proof (FormatUint_bounds v Hv) as (V1 & V2 & V3).
    pose proof (FormatUint_bounds w ltac:(lia)) as (W1 & W2 & W3).
    set (n := Z.of_nat (String.length (FormatUint v))) in *.
    set (k := Z.of_nat (String.length (FormatUint w))) in *.
    assert (n <= k); [|lia].
    destruct (Z.le_gt_cases n k) as [|Hgt]; [assumption|exfalso].
    destruct V3 as [V3|V3]; [lia|].
    assert (10 ^ k <= 10 ^ (n - 1)) by (apply Z.pow_le_mono_r; lia).
    lia.
Qed.

(** Its digits write the number back. *)
Lemma decimal_value_append acc s t :
  decimal_value acc (String.append s t) =
  decimal_value (decimal_value acc s) t.
Proof.
  revert acc. induction s as [|c s IH]; intros acc; [reflexivity|].
  rewrite append_cons. cbn [decimal_value]. apply IH.
Qed.

Lemma code_digit d : 0 <= d < 10 -> code (digit d) = 48 + d.
Proof.
  intros H.
  assert (C : d = 0 \/ d = 1 \/ d = 2 \/ d = 3 \/ d = 4 \/ d = 5 \/ d = 6 \/
              d = 7 \/ d = 8 \/ d = 9) by lia.
  repeat (destruct C as [-> | C]; [reflexivity|]). subst d. reflexivity.
Qed.

Lemma digits_value k v :
  0 <= v < 2 ^ Z.of_nat (S k) -> decimal_value 0 (digits (S k) v) = v.
Proof.
  revert v. induction k as [|k IH]; intros v Hv; rewrite digits_S.
  - change (2 ^ Z.of_nat 1) with 2 in Hv.
    replace (v <? 10) with true by lia.
    cbn [decimal_value]. rewrite code_digit by lia. lia.
  - destruct (v <? 10) eqn:E.
    + apply Z.ltb_lt in E. cbn [decimal_value].
      rewrite code_digit by lia. lia.
    + apply Z.ltb_ge in E.
      assert (Hq : 0 <= v / 10 < 2 ^ Z.of_nat (S k)).
      { rewrite (Nat2Z.inj_succ (S k)), Z.pow_succ_r in Hv by lia.
        split; [apply Z.div_pos; lia|].
        apply Z.div_lt_upper_bound; lia. }
      rewrite decimal_value_append, (IH _ Hq). cbn [decimal_value].
      pose proof (Z.mod_pos_bound v 10 ltac:(lia)).
      rewrite code_digit by lia.
      pose proof (Z.div_mod v 10 ltac:(lia)). lia.
Qed.

Lemma FormatUint_value v : 0 <= v -> decimal_value 0 (FormatUint v) = v.
Proof.
  intros Hv. unfold FormatUint. apply digits_value. split; [exact Hv|].
  rewrite Nat2Z.inj_succ, Z2Nat.id by apply Z.log2_nonneg.
  destruct (Z.eq_dec v 0) as [->|Hn]; [cbn; lia|].
  apply Z.log2_spec. lia.
Qed.

(** Padding. *)
Lemma spaces_S n : spaces (S n) = String " " (spaces n).
Proof. reflexivity. Qed.

Lemma spaces_shift n s :
  String.append (spaces (S n)) s = String.append (spaces n) (String " " s).
Proof.
  induction n as [|n IH]; [reflexivity|].
  rewrite (spaces_S (S n)), append_cons, IH, (spaces_S n), append_cons.
  reflexivity.
Qed.

Lemma length_spaces n : String.length (spaces n) = n.
Proof.
  induction n as [|n IH]; [reflexivity|].
  rewrite spaces_S. cbn [String.length]. f_equal. exact IH.
Qed.

Lemma pad_spec fuel s width :
  width - Z.of_nat (String.length s) <= Z.of_nat fuel ->
  pad fuel s width =
  String.append (spaces (Z.to_nat (width - Z.of_nat (String.length s)))) s.
Proof.
  revert s. induction fuel as [|fuel IH]; intros s Hf; cbn [pad].
  - replace (Z.to_nat (width - Z.of_nat (String.length s))) with 0%nat by lia.
    reflexivity.
  - destruct (Z.of_nat (String.length s) <? width) eqn:E.
    + apply Z.ltb_lt in E. rewrite IH by (cbn [String.length]; lia).
      cbn [String.length].
      replace (Z.to_nat (width - Z.of_nat (String.length s)))
        with (S (Z.to_nat (width - Z.of_nat (S (String.length s))))) by lia.
      rewrite spaces_shift. reflexivity.
    + apply Z.ltb_ge in E.
      replace (Z.to_nat (width - Z.of_nat (String.length s))) with 0%nat by lia.
      reflexivity.
Qed.

Lemma padRight_spec v width :
  padRight v width =
  String.append
    (spaces (Z.to_nat (width - Z.of_nat (String.length (FormatUint v)))))
    (FormatUint v).
Proof. unfold padRight. apply pad_spec. lia. Qed.

Lemma padRight_length v width :
  Z.of_nat (String.length (padRight v width)) =
  Z.max width (Z.of_nat (String.length (FormatUint v))).
Proof.
  rewrite padRight_spec, length_append, length_spaces. lia.
Qed.

(** The width covers every counter that is printed. *)
Lemma raise_columns m max r :
  raise m max r = fold_left Z.max (columns m r) max.
Proof.
  assert (sel : forall (b : bool) a x,
             (if b && (a <? x) then x else a) = if b then Z.max a x else a).
  { intros [] a x; cbn [andb]; [apply max_by_ltb | reflexivity]. }
  unfold raise, columns. rewrite !sel.
  destruct (Metrics.Lines m), (Metrics.Words m), (Metrics.Chars m),
    (Metrics.Bytes m), (Metrics.MaxLineBytes m), (Metrics.MaxLineChars m);
    reflexivity.
Qed.

Lemma fold_max_bounds l a :
  a <= fold_left Z.max l a /\ Forall (fun v => v <= fold_left Z.max l a) l.
Proof.
  revert a. induction l as [|x l IH]; intros a; cbn [fold_left].
  - split; [lia | constructor].
  - destruct (IH (Z.max a x)) as [H1 H2]. split; [lia|].
    constructor; [lia | exact H2].
Qed.

Lemma raise_bounds m max r :
  max <= raise m max r /\ Forall (fun v => v <= raise m max r) (columns m r).
Proof. rewrite raise_columns. apply fold_max_bounds. Qed.

(** The largest counter that [ComputeWidth] has seen. *)
Lemma widest_bounds m (results : list FileResult) a :
  let top := fold_left (fun max r =>
                          match Err r with
                          | Some _ => max
                          | None => raise m max r
                          end) results a in
  a <= top /\
  forall r, In r results -> Err r = None ->
            Forall (fun v => v <= top) (columns m r).
Proof.
  cbv zeta. revert a. induction results as [|x l IH]; intros a; cbn [fold_left].
  - split; [lia|]. intros r [].
  - destruct (Err x) eqn:E.
    + destruct (IH a) as [H1 H2]. split; [exact H1|].
      intros r [->|Hr] He; [congruence|]. apply H2; assumption.
    + destruct (IH (raise m a x)) as [H1 H2].
      destruct (raise_bounds m a x) as [R1 R2].
      split; [lia|]. intros r [->|Hr] He; [|apply H2; assumption].
      eapply Forall_impl; [exact R2|]. cbn. intros v Hv. lia.
Qed.

Lemma FormatLine_columns r m width :
  FormatLine r m width =
  join (map (fun v => padRight v width) (columns m r) ++
        (if String.eqb (Filename r) EmptyString then [] else [Filename r])).
Proof.
  unfold FormatLine, columns.
  destruct (Metrics.Lines m), (Metrics.Words m), (Metrics.Chars m),
    (Metrics.Bytes m), (Metrics.MaxLineBytes m), (Metrics.MaxLineChars m),
    (String.eqb (Filename r) EmptyString); reflexivity.
Qed.

Lemma join_fold_length ps p :
  Z.of_nat (String.length
    (fold_left (fun out q => String.append out (String.append " " q)) ps p)) =
  Z.of_nat (String.length p) +
  fold_right (fun q n => Z.of_nat (String.length q) + 1 + n) 0 ps.
Proof.
  revert p. induction ps as [|q ps IH]; intros p; cbn [fold_left fold_right].
  - lia.
  - rewrite IH, !length_append. cbn [String.length]. lia.
Qed.

Lemma join_same_width w (cols : list string) :
  Forall (fun c => Z.of_nat (String.length c) = w) cols ->
  Z.of_nat (String.length (join cols)) =
  Z.of_nat (length cols) * w + Z.max 0 (Z.of_nat (length cols) - 1).
Proof.
  intros H. destruct cols as [|p ps]; [reflexivity|].
  apply Forall_cons in H as [Hp Hps].
  unfold join. rewrite join_fold_length, Hp.
  replace (fold_right (fun q n => Z.of_nat (String.length q) + 1 + n) 0 ps)
    with (Z.of_nat (length ps) * (w + 1)).
  - cbn [length]. lia.
  - clear Hp. induction Hps as [|q ps Hq _ IH]; [reflexivity|].
    cbn [fold_right length]. rewrite <- IH, Hq. lia.
Qed.

(** X16.  [padRight] puts the decimal form of the number at the right end
    of a field of [width] bytes, the padding of spaces on its left; a
    number wider than the field is kept whole; and the digits written are
    those of the number. *)
Theorem padRight_pads_on_the_left (v width : Z) :
  let s := FormatUint v in
  let n := Z.of_nat (String.length s) in
  padRight v width = String.append (spaces (Z.to_nat (width - n))) s /\
  Z.of_nat (String.length (padRight v width)) = Z.max width n /\
  1 <= n /\
  (0 <= v -> decimal_value 0 s = v).
Proof.
  cbv zeta. split; [apply padRight_spec|]. split; [apply padRight_length|].
  split; [|apply FormatUint_value].
  destruct (Z.lt_ge_cases v 0) as [Hv|Hv].
  - rewrite FormatUint_negative by exact Hv. lia.
  - apply (FormatUint_bounds v Hv).
Qed.

Lemma padRight_pads_on_the_left_witness :
  padRight 42 5 = "   42"%string /\ decimal_value 0 (FormatUint 42) = 42.
Proof.
  destruct (padRight_pads_on_the_left 42 5) as (H1 & _ & _ & H2).
  split; [rewrite H1; reflexivity | apply H2; lia].
Defined.

(** X17.  With the width [ComputeWidth] returns, which is at least 7, the
    line [FormatLine] makes of any result without error of the list, or of
    the totals, is the selected counters in the order lines, words, chars,
    bytes, max-line-bytes, max-line-chars and then the file name if there
    is one, joined by single spaces; every counter takes exactly that width,
    so the numeric part has the same length on every line. *)
Theorem columns_line_up
    (results : list FileResult) (totals : FileResult) (m : Metrics.t)
    (r : FileResult) :
  let w := ComputeWidth results totals m in
  let cols := map (fun v => padRight v w) (columns m r) in
  (In r results /\ Err r = None) \/ r = totals ->
  7 <= w /\
  FormatLine r m w =
    join (cols ++
          (if String.eqb (Filename r) EmptyString then [] else [Filename r])) /\
  Forall (fun c => Z.of_nat (String.length c) = w) cols /\
  Z.of_nat (String.length (join cols)) =
    Z.of_nat (length (columns m r)) * w +
    Z.max 0 (Z.of_nat (length (columns m r)) - 1).
Proof.
  cbv zeta. intros Hr.
  assert (Hw : 7 <= ComputeWidth results totals m).
  { unfold ComputeWidth.
    destruct (Z.ltb_spec
                (Z.of_nat (String.length (FormatUint
                   (raise m (fold_left (fun max r0 =>
                      match Err r0 with
                      | Some _ => max
                      | None => raise m max r0
                      end) results 0) totals)))) 7); lia. }
  assert (Hcols :
    Forall (fun c => Z.of_nat (String.length c) =
                     ComputeWidth results totals m)
           (map (fun v => padRight v (ComputeWidth results totals m))
                (columns m r))).
  { apply Forall_map.
    pose proof (widest_bounds m results 0) as [_ Hres]. cbv zeta in Hres.
    set (top := fold_left _ results 0) in *.
    destruct (raise_bounds m top totals) as [Ht1 Ht2].
    assert (Hle : Forall (fun v => v <= raise m top totals) (columns m r)).
    { destruct Hr as [[Hin He]| ->]; [|exact Ht2].
      eapply Forall_impl; [apply Hres; assumption|].
      cbn. intros v Hv. lia. }
    eapply Forall_impl; [exact Hle|]. cbn. intros v Hv.
    rewrite padRight_length.
    apply FormatUint_length_mono in Hv.
    unfold ComputeWidth in *. fold top in Hw |- *.
    destruct (Z.ltb_spec
                (Z.of_nat (String.length (FormatUint (raise m top totals))))
                7); lia. }
  split; [exact Hw|]. split; [apply FormatLine_columns|].
  split; [exact Hcols|].
  rewrite (join_same_width _ _ Hcols), length_map. reflexivity.
Qed.

(** The decimal form, on examples up to the largest [uint64]. *)
Example FormatUint_examples :
  FormatUint 0 = "0"%string /\ FormatUint 7 = "7"%string /\
  FormatUint 1234567 = "1234567"%string /\
  FormatUint (2 ^ 64 - 1) = "18446744073709551615"%string.
Proof. repeat split; vm_compute; reflexivity. Qed.

(** A line of the default metrics. *)
Example FormatLine_example :
  let r := set_Filename "a.txt"
             (set_Bytes 1234 (set_Words 56 (set_Lines 7 zeroResult))) in
  let m := Metrics.mk true true true false false false in
  FormatLine r m (ComputeWidth [r] r m) =
  "      7      56    1234 a.txt"%string.
Proof. vm_compute. reflexivity. Qed.

Lemma columns_line_up_witness :
  let r1 := set_Filename "a.txt"
              (set_Bytes 1234567890 (set_Words 56 (set_Lines 7 zeroResult))) in
  let r2 := set_Filename "b.txt"
              (set_Bytes 12 (set_Words 3 (set_Lines 1 zeroResult))) in
  let m := Metrics.mk true true true false false false in
  let w := ComputeWidth [r1; r2] r1 m in
  w = 10 /\
  FormatLine r2 m w = "         1          3         12 b.txt"%string.
Proof.
  cbv zeta. split; [vm_compute; reflexivity|].
  pose proof (columns_line_up
    [set_Filename "a.txt"
       (set_Bytes 1234567890 (set_Words 56 (set_Lines 7 zeroResult)));
     set_Filename "b.txt"
       (set_Bytes 12 (set_Words 3 (set_Lines 1 zeroResult)))]
    (set_Filename "a.txt"
       (set_Bytes 1234567890 (set_Words 56 (set_Lines 7 zeroResult))))
    (Metrics.mk true true true false false false)
    (set_Filename "b.txt"
       (set_Bytes 12 (set_Words 3 (set_Lines 1 zeroResult))))) as H.
  cbv zeta in H. destruct H as (_ & H & _).
  - left. split; [right; left; reflexivity | reflexivity].
  - rewrite H. vm_compute. reflexivity.
Defined.

(** ** The run: inputs, standard input, totals and exit status *)

(** *** Names read with --files0-from *)

Lemma ReadAll_loop_plain acc cs fin :
  ReadAll_loop acc (map (fun c => (c, None)) cs) fin =
  (acc ++ concat cs, match fin with EOF => None | Failed e => Some e end).
Proof.
  revert acc. induction cs as [|c cs IH]; intros acc;
    cbn [map ReadAll_loop concat].
  - rewrite app_nil_r. reflexivity.
  - rewrite IH, <- app_assoc. reflexivity.
Qed.

Lemma ReadAll_plain cs fin :
  ReadAll (plain cs fin) =
  (concat cs, match fin with EOF => None | Failed e => Some e end).
Proof. unfold ReadAll, plain. cbn [reads at_end]. apply ReadAll_loop_plain. Qed.

Lemma Split_nonempty s sep : Split s sep <> [].
Proof.
  destruct s as [|c s]; cbn [Split]; [discriminate|].
  destruct (Ascii.eqb c sep); [discriminate|].
  destruct (Split s sep); discriminate.
Qed.

Lemma Split_whole n : has_NUL n = false -> Split n NUL = [n].
Proof.
  induction n as [|c n IH]; intros H; [reflexivity|].
  cbn [has_NUL] in H. apply orb_false_elim in H as [Hc Hn].
  cbn [Split]. rewrite Hc, (IH Hn). reflexivity.
Qed.

Lemma Split_first n rest :
  has_NUL n = false ->
  Split (String.append n (String NUL rest)) NUL = n :: Split rest NUL.
Proof.
  induction n as [|c n IH]; intros H.
  - change (String.append EmptyString (String NUL rest))
      with (String NUL rest).
    cbn [Split]. rewrite Ascii.eqb_refl. reflexivity.
  - cbn [has_NUL] in H. apply orb_false_elim in H as [Hc Hn].
    change (String.append (String c n) (String NUL rest))
      with (String c (String.append n (String NUL rest))).
    cbn [Split]. rewrite Hc, (IH Hn). reflexivity.
Qed.

Lemma Split_pieces s : Forall (fun p => has_NUL p = false) (Split s NUL).
Proof.
  induction s as [|c s IH]; [repeat constructor|].
  cbn [Split]. destruct (Ascii.eqb c NUL) eqn:E.
  - constructor; [reflexivity | exact IH].
  - destruct (Split s NUL) as [|p ps];
      [repeat constructor; cbn; rewrite E; reflexivity|].
    apply Forall_cons in IH as [Hp Hps].
    constructor; [|exact Hps]. cbn [has_NUL]. rewrite E, Hp. reflexivity.
Qed.

Lemma names_of_terminated names :
  Forall is_name names -> names_of (terminated names) = names.
Proof.
  unfold names_of. induction 1 as [|n ns [Hne Hnul] _ IH]; [reflexivity|].
  cbn [terminated]. rewrite Split_first by exact Hnul.
  cbn [List.filter]. apply String.eqb_neq in Hne. rewrite Hne. cbn [negb].
  f_equal. exact IH.
Qed.

Lemma names_of_separated names :
  Forall is_name names -> names_of (separated names) = names.
Proof.
  unfold names_of. induction 1 as [|n ns [Hne Hnul] Hns IH]; [reflexivity|].
  apply String.eqb_neq in Hne.
  destruct ns as [|n' ns].
  - cbn [separated]. rewrite Split_whole by exact Hnul.
    cbn [List.filter]. rewrite Hne. reflexivity.
  - change (separated (n :: n' :: ns))
      with (String.append n (String NUL (separated (n' :: ns)))).
    rewrite Split_first by exact Hnul.
    cbn [List.filter]. rewrite Hne. cbn [negb]. f_equal. exact IH.
Qed.

Lemma names_of_valid s : Forall is_name (names_of s).
Proof.
  unfold names_of. pose proof (Split_pieces s) as H.
  induction H as [|p ps Hp _ IH]; [constructor|].
  cbn [List.filter]. destruct (String.eqb p EmptyString) eqn:E; cbn [negb].
  - exact IH.
  - constructor; [|exact IH]. split; [apply String.eqb_neq, E | exact Hp].
Qed.

(** X14.  A file that holds names, none empty and none with a NUL byte,
    each followed by a NUL byte or with a NUL byte between them, is read
    back by [readFiles0From] as exactly those names in that order, however
    the reads split the file. *)
Theorem files0_from_reads_back_the_names
    (names : list string) (cs : list (list byte)) :
  Forall is_name names ->
  string_of_list_byte (concat cs) = terminated names \/
  string_of_list_byte (concat cs) = separated names ->
  readFiles0From (Opened (plain cs EOF)) = inr names.
Proof.
  intros Hn Hc. unfold readFiles0From. rewrite ReadAll_plain.
  fold NUL. fold (names_of (string_of_list_byte (concat cs))).
  destruct Hc as [-> | ->];
    [rewrite names_of_terminated | rewrite names_of_separated]; auto.
Qed.

Lemma files0_from_reads_back_the_names_witness :
  readFiles0From
    (Opened (plain [list_byte_of_string "a.txt"; [x00];
                    list_byte_of_string "b c"] EOF)) =
  inr ["a.txt"%string; "b c"%string].
Proof.
  apply files0_from_reads_back_the_names.
  - repeat (apply List.Forall_cons; [split; [discriminate | reflexivity]|]).
    apply List.Forall_nil.
  - right. reflexivity.
Defined.

(** X15.  Whatever the file holds, no name [readFiles0From] returns is
    empty or has a NUL byte; when the file cannot be opened, or a read
    fails, it returns the error and no name, and an empty file gives no
    name. *)
Theorem files0_from_names_are_never_empty
    (f : opened) (cs : list (list byte)) (e : error) :
  match readFiles0From f with
  | inr names => Forall is_name names
  | inl _ => True
  end /\
  readFiles0From (OpenFailed e) = inl e /\
  readFiles0From (Opened (plain cs (Failed e))) = inl e /\
  readFiles0From (Opened (plain [] EOF)) = inr [].
Proof.
  split; [|split; [reflexivity|split; [|reflexivity]]].
  - unfold readFiles0From. destruct f as [e'|src]; [exact I|].
    destruct (ReadAll src) as [data [e'|]]; [exact I|].
    apply names_of_valid.
  - unfold readFiles0From. rewrite ReadAll_plain. reflexivity.
Qed.

(** *** What is counted, and where from *)

(** X13.  Whatever the flags, at least one metric is selected, so that
    every line [FormatLine] makes has between one and six counters: the
    flags as given when one of the six counting flags is set, lines, words
    and bytes otherwise.  And the list of inputs is never empty: it is the
    operands followed by the names of --files0-from, or standard input
    alone. *)
Theorem something_is_always_counted
    (cfg : cliConfig.t) (files names : list string) (r : FileResult) :
  let m := metrics cfg in
  let flag :=
    cliConfig.countBytes cfg || cliConfig.countChars cfg ||
    cliConfig.countLines cfg || cliConfig.countWords cfg ||
    cliConfig.countMaxBytes cfg || cliConfig.countMaxChars cfg in
  (1 <= length (columns m r) <= 6)%nat /\
  m = (if flag
       then Metrics.mk (cliConfig.countLines cfg) (cliConfig.countWords cfg)
                       (cliConfig.countBytes cfg) (cliConfig.countChars cfg)
                       (cliConfig.countMaxBytes cfg)
                       (cliConfig.countMaxChars cfg)
       else Metrics.mk true true true false false false) /\
  inputs files names <> [] /\
  inputs files names =
    (if (length files + length names =? 0)%nat then ["-"%string]
     else files ++ names).
Proof.
  cbv zeta. unfold metrics, inputs, columns.
  split; [|split; [|split]].
  - destruct (cliConfig.countBytes cfg), (cliConfig.countChars cfg),
      (cliConfig.countLines cfg), (cliConfig.countWords cfg),
      (cliConfig.countMaxBytes cfg), (cliConfig.countMaxChars cfg);
      cbn; lia.
  - destruct (cliConfig.countBytes cfg || cliConfig.countChars cfg ||
              cliConfig.countLines cfg || cliConfig.countWords cfg ||
              cliConfig.countMaxBytes cfg || cliConfig.countMaxChars cfg);
      reflexivity.
  - destruct (files ++ names); discriminate.
  - rewrite <- length_app. destruct (files ++ names); reflexivity.
Qed.

(** *** Standard input *)

(** X11.  When reading standard input fails, after the chunks [cs], the
    result for "-" carries the error and no count at all, although
    [io.ReadAll] has returned the bytes read; the same stream read as a
    named file gives the error together with the bytes counted so far. *)
Theorem failed_standard_input_has_no_counts
    (cs : list (list byte)) (e : error) (idx elapsed : Z) (name : string)
    (m : Metrics.t) (opt : Options) :
  let src := plain cs (Failed e) in
  ReadAll src = (concat cs, Some e) /\
  stdin_job idx name (fst (ReadAll src)) (snd (ReadAll src)) elapsed m opt =
    Some (set_Index idx (set_Duration elapsed (failed_result name e))) /\
  counts (failed_result name e) = [0; 0; 0; 0; 0; 0] /\
  Bytes (file_job idx name (Opened src) elapsed m opt) =
    wrap64 (total_bytes cs) /\
  Err (file_job idx name (Opened src) elapsed m opt) = Some e.
Proof.
  cbv zeta. rewrite ReadAll_plain. cbn [fst snd].
  split; [reflexivity|]. split; [reflexivity|]. split; [reflexivity|].
  unfold file_job.
  change (Bytes (set_Index idx (set_Duration elapsed (set_Filename name ?r))))
    with (Bytes r).
  change (Err (set_Index idx (set_Duration elapsed (set_Filename name ?r))))
    with (Err r).
  rewrite CountReader_Bytes, CountReader_Err, chunks_plain, outcome_plain.
  split; reflexivity.
Qed.

(** X12.  Under a C/POSIX locale, or when no byte is above 0x7F, a stream
    that ends without error gives the same result read as standard input
    (slurped by [io.ReadAll] and counted from memory) and read as a file,
    for every positive buffer size and however the reads of the one and of
    the other split the stream. *)
Theorem standard_input_counts_like_a_file
    (cs1 cs2 : list (list byte)) (idx elapsed : Z) (name : string)
    (m : Metrics.t) (opt : Options) :
  0 < BufferSize opt ->
  concat cs1 = concat cs2 ->
  locale.IsCOrPOSIX (Locale opt) = true \/
  Forall (fun c => bval c < 0x80) (concat cs1) ->
  let slurped := ReadAll (plain cs1 EOF) in
  stdin_job idx name (fst slurped) (snd slurped) elapsed m opt =
  Some (file_job idx name (Opened (plain cs2 EOF)) elapsed m opt).
Proof.
  intros Hb Hsame Hcase. cbv zeta. rewrite ReadAll_plain. cbn [fst snd].
  unfold stdin_job, file_job.
  destruct (CountBytes_plain (concat cs1) m opt Hb) as (cs & -> & Hcat & _).
  cbn [option_map]. do 4 f_equal.
  destruct Hcase as [HC|Ha].
  - apply chunk_invariance_in_the_c_locale; [exact HC | congruence].
  - apply chunk_invariance_on_ascii; [|congruence].
    apply Forall_concat. rewrite Hcat. exact Ha.
Qed.

Lemma standard_input_counts_like_a_file_witness :
  let slurped := ReadAll (plain [bytes "to be or"; bytes " not"; [nl]] EOF) in
  stdin_job 0 "-" (fst slurped) (snd slurped) 3 lwbc (mkOptions 4 utf8) =
  Some (file_job 0 "-"
          (Opened (plain [bytes "to b"; bytes "e or"; bytes " not" ++ [nl]]
                         EOF))
          3 lwbc (mkOptions 4 utf8)).
Proof.
  cbv zeta.
  apply (standard_input_counts_like_a_file
           [bytes "to be or"; bytes " not"; [nl]]
           [bytes "to b"; bytes "e or"; bytes " not" ++ [nl]]).
  - reflexivity.
  - reflexivity.
  - right. repeat (apply List.Forall_cons; [reflexivity|]).
    apply List.Forall_nil.
Defined.

(** *** Arrival order and exit status *)

(** Two lists with the same distinct indices in the same order, one a
    permutation of the other, are the same list. *)
Lemma same_keys_same_list (l1 l2 : list FileResult) :
  map Index l1 = map Index l2 -> NoDup (map Index l1) -> l1 ≡ₚ l2 ->
  l1 = l2.
Proof.
  revert l2. induction l1 as [|x l1 IH]; intros l2 Hk Hnd Hp.
  - destruct l2; [reflexivity|discriminate].
  - destruct l2 as [|y l2]; [discriminate|].
    cbn [map] in Hk, Hnd. injection Hk as Hxy Hk.
    apply NoDup_cons in Hnd as [Hx Hnd].
    assert (Hin : x ∈ y :: l2) by (rewrite <- Hp; left).
    apply elem_of_cons in Hin as [->|Hin].
    + f_equal. apply IH; [exact Hk | exact Hnd|].
      apply (Permutation_cons_inv Hp).
    + exfalso. apply Hx. rewrite Hk.
      apply list_elem_of_fmap. exists x. split; [|exact Hin].
      reflexivity.
Qed.

Lemma existsb_perm {A} (f : A -> bool) l1 l2 :
  l1 ≡ₚ l2 -> existsb f l1 = existsb f l2.
Proof.
  induction 1 as [|x l1 l2 _ IH|x y l|l1 l2 l3 _ IH1 _ IH2]; cbn [existsb].
  - reflexivity.
  - rewrite IH. reflexivity.
  - destruct (f x), (f y); reflexivity.
  - congruence.
Qed.

(** X8.  When the results of inputs 0, ..., n-1 arrive in two different
    orders, the collector releases the same list and the run writes the
    same lines, in the same order, with the same totals and the same exit
    status. *)
Theorem output_does_not_depend_on_arrival_order
    (a1 a2 : list FileResult) (n k : nat) :
  Permutation (map Index a1) (seqZ 0 (Z.of_nat n)) ->
  Permutation a1 a2 ->
  all (collect a1) = all (collect a2) /\ report k a1 = report k a2.
Proof.
  intros H1 H12.
  assert (H2 : map Index a2 ≡ₚ seqZ 0 (Z.of_nat n)).
  { rewrite <- H1. apply Permutation_map. symmetry. exact H12. }
  destruct (collect_permutation a1 n H1) as (_ & K1 & P1 & _).
  destruct (collect_permutation a2 n H2) as (_ & K2 & P2 & _).
  assert (Hall : all (collect a1) = all (collect a2)).
  { apply same_keys_same_list.
    - congruence.
    - rewrite K1. apply NoDup_seqZ.
    - rewrite P1, P2. exact H12. }
  split; [exact Hall|]. unfold report.
  rewrite Hall, !collect_exitCode, (existsb_perm has_err a1 a2 H12).
  reflexivity.
Qed.

Lemma output_does_not_depend_on_arrival_order_witness :
  let r := fun i => set_Index i zeroResult in
  report 3 [r 2; r 0; r 1] = report 3 [r 0; r 1; r 2].
Proof.
  cbv zeta.
  refine (proj2 (output_does_not_depend_on_arrival_order
                   [set_Index 2 zeroResult; set_Index 0 zeroResult;
                    set_Index 1 zeroResult]
                   [set_Index 0 zeroResult; set_Index 1 zeroResult;
                    set_Index 2 zeroResult] 3 3 _ _)).
  - change (Permutation [2; 0; 1] [0; 1; 2]).
    apply (perm_trans (l' := [0; 2; 1])).
    + apply perm_swap.
    + apply perm_skip. apply perm_swap.
  - apply (perm_trans (l' := [set_Index 0 zeroResult; set_Index 2 zeroResult;
                              set_Index 1 zeroResult])).
    + apply perm_swap.
    + apply perm_skip. apply perm_swap.
Defined.

(** X9.  The exit status is 1 when some result carries an error and 0
    otherwise, whatever the order of arrival; it is 0 exactly when no input
    failed. *)
Theorem exit_status_tells_whether_an_input_failed
    (n : nat) (arrivals : list FileResult) :
  snd (report n arrivals) = (if existsb has_err arrivals then 1 else 0) /\
  (snd (report n arrivals) = 0 <-> Forall (fun r => Err r = None) arrivals).
Proof.
  assert (H : snd (report n arrivals) =
              if existsb has_err arrivals then 1 else 0)
    by (unfold report; cbn [snd]; apply collect_exitCode).
  split; [exact H|]. rewrite H. split.
  - intros H0. apply List.Forall_forall. intros r Hr.
    destruct (Err r) as [e|] eqn:E; [|reflexivity].
    replace (existsb has_err arrivals) with true in H0; [discriminate|].
    symmetry. apply existsb_exists. exists r. split; [exact Hr|].
    unfold has_err. rewrite E. reflexivity.
  - intros Hall. replace (existsb has_err arrivals) with false; [reflexivity|].
    symmetry. apply not_true_is_false. intros Hex.
    apply existsb_exists in Hex as (r & Hr & He).
    rewrite List.Forall_forall in Hall. specialize (Hall r Hr).
    unfold has_err in He. rewrite Hall in He. discriminate.
Qed.

(** *** Totals *)

Lemma add_to_totals_mk i f l w b c mb mc e d r :
  Err r = None ->
  add_to_totals (mkFileResult i f l w b c mb mc e d) r =
  mkFileResult i f (add64 l (Lines r)) (add64 w (Words r))
    (add64 b (Bytes r)) (add64 c (Chars r))
    (Z.max mb (MaxLineBytes r)) (Z.max mc (MaxLineChars r)) e d.
Proof.
  intros He. unfold add_to_totals. rewrite He.
  rewrite <- (max_by_ltb mb), <- (max_by_ltb mc).
  generalize (Lines r), (Words r), (Bytes r), (Chars r), (MaxLineBytes r),
    (MaxLineChars r).
  intros lr wr br cr mbr mcr.
  unfold set_Lines, set_Words, set_Bytes, set_Chars.
  cbn [Index Filename Lines Words Bytes Chars MaxLineBytes MaxLineChars Err
       Duration].
  destruct (mb <? mbr); unfold set_MaxLineBytes; cbn [MaxLineChars];
    destruct (mc <? mcr); reflexivity.
Qed.

Lemma fold_totals_sums l i f x y z u mb mc e d :
  Forall (fun r => Err r = None) l ->
  fold_left add_to_totals l
    (mkFileResult i f (wrap64 x) (wrap64 y) (wrap64 z) (wrap64 u) mb mc e d) =
  mkFileResult i f
    (wrap64 (x + sum_of Lines l)) (wrap64 (y + sum_of Words l))
    (wrap64 (z + sum_of Bytes l)) (wrap64 (u + sum_of Chars l))
    (fold_left Z.max (map MaxLineBytes l) mb)
    (fold_left Z.max (map MaxLineChars l) mc) e d.
Proof.
  intros H. revert x y z u mb mc.
  induction H as [|r l Hr _ IH]; intros x y z u mb mc.
  - cbn [fold_left sum_of fold_right map]. rewrite !Z.add_0_r. reflexivity.
  - cbn [fold_left map]. rewrite add_to_totals_mk by exact Hr.
    rewrite !add64_wrap_l, IH. unfold sum_of. cbn [fold_right].
    rewrite !Z.add_assoc. reflexivity.
Qed.

Lemma fold_max_of f l a :
  0 <= a -> fold_left Z.max (map f l) a = Z.max a (max_of f l).
Proof.
  revert a. induction l as [|r l IH]; intros a Ha.
  - cbn. lia.
  - cbn [map fold_left max_of fold_right]. rewrite IH by lia.
    fold (max_of f l). lia.
Qed.

Lemma max_of_nonneg f l : 0 <= max_of f l.
Proof. induction l as [|r l IH]; cbn; [lia|]. fold (max_of f l). lia. Qed.

Lemma without_error_ok l : Forall (fun r => Err r = None) (without_error l).
Proof.
  unfold without_error. apply List.Forall_forall. intros r Hr.
  apply List.filter_In in Hr as [_ Hr]. unfold has_err in Hr.
  destruct (Err r); [discriminate|reflexivity].
Qed.

(** X10.  The totals are, counter by counter, the sums (as [uint64]) of
    the lines, words, bytes and characters of the results without error,
    and the largest of their line maxima; results with an error count for
    nothing, and the totals carry no error. *)
Theorem totals_are_the_sums_of_the_results_without_error
    (results : list FileResult) :
  let ok := without_error results in
  let t := compute_totals results in
  Lines t = wrap64 (sum_of Lines ok) /\
  Words t = wrap64 (sum_of Words ok) /\
  Bytes t = wrap64 (sum_of Bytes ok) /\
  Chars t = wrap64 (sum_of Chars ok) /\
  MaxLineBytes t = max_of MaxLineBytes ok /\
  MaxLineChars t = max_of MaxLineChars ok /\
  Err t = None.
Proof.
  cbv zeta. rewrite compute_totals_skip. fold (without_error results).
  pose proof (fold_totals_sums (without_error results) 0 EmptyString
                0 0 0 0 0 0 None 0 (without_error_ok results)) as H.
  change (wrap64 0) with 0 in H. fold zeroResult in H.
  unfold compute_totals. rewrite H.
  cbn [Lines Words Bytes Chars MaxLineBytes MaxLineChars Err].
  rewrite !fold_max_of by lia.
  pose proof (max_of_nonneg MaxLineBytes (without_error results)).
  pose proof (max_of_nonneg MaxLineChars (without_error results)).
  rewrite !Z.add_0_l. repeat split; lia.
Qed.

(** ** Locale detection *)

(** The cases of the package's tests. *)
Example normalizeEncoding_tests (u : beyond_ascii) :
  map (normalizeEncoding u)
      ["UTF-8"; "utf8"; "UTF8"; "C"; "POSIX"; "posix"; "c"; "ISO-8859-1";
       "iso_8859_1"; "charset=utf-8"; "csutf8"; "  UTF-8  "]%string =
  ["utf-8"; "utf-8"; "utf-8"; "C"; "POSIX"; "POSIX"; "C"; "iso-8859-1";
   "iso-8859-1"; "utf-8"; "utf-8"; "utf-8"]%string.
Proof. vm_compute. reflexivity. Qed.

Example Detect_tests (u : beyond_ascii) :
  Detect u "iso-8859-1" (env3 "en_US.UTF-8" "" "") =
    locale.mkInfo "iso-8859-1" false false /\
  Detect u "" (env3 "en_US.UTF-8" "C" "de_DE.ISO-8859-1") =
    locale.mkInfo "utf-8" true false /\
  Detect u "" (env3 "" "C" "en_US.UTF-8") = locale.mkInfo "C" false true /\
  Detect u "" (env3 "" "" "de_DE.ISO-8859-1") =
    locale.mkInfo "iso-8859-1" false false /\
  Detect u "" (env3 "POSIX" "" "") = locale.mkInfo "C" false true /\
  Detect u "" (env3 "" "" "") = locale.mkInfo "utf-8" true false.
Proof. repeat split; vm_compute; reflexivity. Qed.

Section DetectionFacts.

Variable u : beyond_ascii.

Lemma eqb_exclusive (s a b : string) :
  a <> b -> String.eqb s a && String.eqb s b = false.
Proof.
  intros Hab. destruct (String.eqb_spec s a) as [->|]; [|reflexivity].
  cbn [andb]. apply String.eqb_neq. exact Hab.
Qed.

(** X18.  Whatever the override and the environment, [Detect] never sets
    both flags; [IsUTF8] holds exactly when the encoding is "utf-8"; and
    [IsCOrPOSIX] holds only with the encoding "C" or "POSIX". *)
Theorem locale_flags_agree_with_the_encoding override getenv :
  let i := Detect u override getenv in
  locale.IsUTF8 i = String.eqb (locale.Encoding i) "utf-8" /\
  locale.IsUTF8 i && locale.IsCOrPOSIX i = false /\
  (if locale.IsCOrPOSIX i
   then locale.Encoding i = "C"%string \/ locale.Encoding i = "POSIX"%string
   else True).
Proof.
  cbv zeta. unfold Detect.
  destruct (negb (String.eqb override EmptyString)); cbv zeta.
  - cbn [locale.IsUTF8 locale.IsCOrPOSIX locale.Encoding].
    split; [reflexivity|]. split.
    + rewrite andb_orb_distrib_r, !eqb_exclusive by discriminate. reflexivity.
    + destruct (String.eqb_spec (normalizeEncoding u override) "C") as [->|];
        [left; reflexivity|].
      destruct (String.eqb_spec (normalizeEncoding u override) "POSIX")
        as [->|];
        [right; reflexivity | exact I].
  - destruct (String.eqb _ EmptyString); [repeat split; auto|].
    destruct (String.eqb _ "C" || String.eqb _ "POSIX");
      cbn [locale.IsUTF8 locale.IsCOrPOSIX locale.Encoding].
    + split; [reflexivity|]. split; [reflexivity|]. left. reflexivity.
    + split; [reflexivity|]. split; [apply andb_false_r | exact I].
Qed.


Lemma Detect_environment getenv :
  Detect u EmptyString getenv =
  let val := environment_value getenv in
  if String.eqb val EmptyString then locale.mkInfo "utf-8" true false
  else if String.eqb val "C" || String.eqb val "POSIX"
       then locale.mkInfo "C" false true
       else
         let i := IndexByte val "." in
         let enc :=
           normalizeEncoding u
             (if (0 <=? i) && (i + 1 <? Z.of_nat (String.length val))
              then from (Z.to_nat (i + 1)) val else "utf-8"%string) in
         locale.mkInfo enc (String.eqb enc "utf-8") false.
Proof. reflexivity. Qed.

Lemma normalizeEncoding_utf8 : normalizeEncoding u "utf-8" = "utf-8"%string.
Proof. reflexivity. Qed.

(** X19.  Without an override the locale comes from [LC_ALL], else from
    [LC_CTYPE], else from [LANG]; it is C/POSIX exactly when that value is
    "C" or "POSIX" as written.  A value other than these two with no '.',
    or whose first '.' is its last byte, means UTF-8, like an unset
    environment.  A value whose first '.' has bytes after it has all of
    them for its codeset, normalised: "a.b." gives "b.", which is not
    UTF-8. *)
Theorem locale_from_the_environment (getenv : string -> string) :
  let val := environment_value getenv in
  let i := Detect u EmptyString getenv in
  val =
    (if negb (String.eqb (getenv "LC_ALL"%string) EmptyString)
     then getenv "LC_ALL"%string
     else if negb (String.eqb (getenv "LC_CTYPE"%string) EmptyString)
          then getenv "LC_CTYPE"%string
          else getenv "LANG"%string) /\
  locale.IsCOrPOSIX i =
    (String.eqb val "C" || String.eqb val "POSIX") /\
  (val <> "C"%string -> val <> "POSIX"%string ->
   IndexByte val "." = -1 \/
   IndexByte val "." = Z.of_nat (String.length val) - 1 ->
   i = locale.mkInfo "utf-8" true false) /\
  (0 <= IndexByte val "." < Z.of_nat (String.length val) - 1 ->
   i = (let enc :=
          normalizeEncoding u (from (Z.to_nat (IndexByte val "." + 1)) val) in
        locale.mkInfo enc (String.eqb enc "utf-8") false)).
Proof.
  cbv zeta. split.
  { unfold environment_value. cbn [firstNonEmpty].
    destruct (String.eqb (getenv "LC_ALL"%string) EmptyString); [|reflexivity].
    destruct (String.eqb (getenv "LC_CTYPE"%string) EmptyString);
      [|reflexivity].
    cbn [negb].
    destruct (String.eqb_spec (getenv "LANG"%string) EmptyString) as [->|];
      reflexivity. }
  rewrite Detect_environment. cbv zeta.
  destruct (String.eqb_spec (environment_value getenv) EmptyString) as [E|E].
  - rewrite E. split; [reflexivity|]. split; [reflexivity|].
    cbn [IndexByte]. lia.
  - destruct (String.eqb (environment_value getenv) "C" ||
              String.eqb (environment_value getenv) "POSIX") eqn:EC.
    + split; [reflexivity|]. split.
      * intros H1 H2.
        apply orb_true_iff in EC as [EC|EC]; apply String.eqb_eq in EC;
          contradiction.
      * intros Hi.
        apply orb_true_iff in EC as [EC|EC]; apply String.eqb_eq in EC;
          rewrite EC in Hi; vm_compute in Hi; destruct Hi as [Hi _];
          exfalso; apply Hi; reflexivity.
    + split; [reflexivity|]. split.
      * intros _ _ Hi.
        replace ((0 <=? IndexByte (environment_value getenv) ".") &&
                 (IndexByte (environment_value getenv) "." + 1 <?
                  Z.of_nat (String.length (environment_value getenv))))
          with false by (symmetry; destruct Hi as [-> | ->]; lia).
        rewrite normalizeEncoding_utf8. reflexivity.
      * intros Hi.
        replace ((0 <=? IndexByte (environment_value getenv) ".") &&
                 (IndexByte (environment_value getenv) "." + 1 <?
                  Z.of_nat (String.length (environment_value getenv))))
          with true by (symmetry; apply andb_true_iff; lia).
        reflexivity.
Qed.


(** *** Encoding names *)

Lemma prefix_underscore c t :
  String.prefix "_" (String c t) = Ascii.eqb c "_".
Proof.
  cbn [String.prefix]. destruct (ascii_dec "_" c) as [<-|Hc].
  - destruct t; reflexivity.
  - symmetry. apply Ascii.eqb_neq. congruence.
Qed.

Lemma ReplaceAll_underscore t : ReplaceAll t "_" "-" = map_string dash t.
Proof.
  unfold ReplaceAll. induction t as [|c t IH]; [reflexivity|].
  cbn [replace_from map_string]. rewrite prefix_underscore.
  unfold dash at 1. destruct (Ascii.eqb c "_").
  - cbn [String.length Nat.sub]. rewrite IH. reflexivity.
  - rewrite IH. reflexivity.
Qed.

Lemma dash_facts c :
  (code (dash c) <? 0x80) = (code c <? 0x80) /\
  (0x80 <=? code (dash c)) = (0x80 <=? code c) /\
  space (dash c) = space c /\
  dash (lower c) = lower (dash c).
Proof.
  destruct c as [[] [] [] [] [] [] [] []]; vm_compute; auto.
Qed.

Lemma isASCII_dash s : isASCII (map_string dash s) = isASCII s.
Proof.
  unfold isASCII. induction s as [|c s IH]; [reflexivity|].
  cbn [map_string all_bytes]. rewrite IH.
  destruct (dash_facts c) as (-> & _). reflexivity.
Qed.

Lemma map_string_list f s :
  list_ascii_of_string (map_string f s) = map f (list_ascii_of_string s).
Proof.
  induction s as [|c s IH]; [reflexivity|]. cbn. f_equal. exact IH.
Qed.

Lemma string_of_map f l :
  string_of_list_ascii (map f l) = map_string f (string_of_list_ascii l).
Proof.
  induction l as [|c l IH]; [reflexivity|]. cbn. f_equal. exact IH.
Qed.

Lemma trim_start_dash s :
  isASCII s = true ->
  exists t, trim_start u s = inr t /\ isASCII t = true /\
            trim_start u (map_string dash s) = inr (map_string dash t).
Proof.
  unfold isASCII. induction s as [|c s IH]; intros H.
  - exists EmptyString. auto.
  - cbn [all_bytes] in H. apply andb_true_iff in H as [Hc Hs].
    cbn [trim_start map_string].
    destruct (dash_facts c) as (_ & -> & -> & _).
    replace (0x80 <=? code c) with false by lia.
    destruct (space c).
    + apply IH, Hs.
    + exists (String c s). split; [reflexivity|]. split; [|reflexivity].
      cbn [all_bytes]. rewrite Hc, Hs. reflexivity.
Qed.

Lemma trim_stop_dash r :
  forallb (fun c => code c <? 0x80) r = true ->
  trim_stop u (map dash r) = map_string dash (trim_stop u r).
Proof.
  induction r as [|c r IH]; intros H; [reflexivity|].
  cbn [forallb] in H. apply andb_true_iff in H as [Hc Hr].
  cbn [map trim_stop].
  destruct (dash_facts c) as (_ & -> & -> & _).
  replace (0x80 <=? code c) with false by lia.
  destruct (space c); [apply IH, Hr|].
  change (dash c :: map dash r) with (map dash (c :: r)).
  rewrite <- map_rev, string_of_map. reflexivity.
Qed.

Lemma isASCII_list s :
  isASCII s = forallb (fun c => code c <? 0x80) (list_ascii_of_string s).
Proof.
  unfold isASCII. induction s as [|c s IH]; [reflexivity|].
  cbn. rewrite IH. reflexivity.
Qed.

Lemma forallb_reversed {A} (f : A -> bool) (l : list A) :
  forallb f (rev l) = forallb f l.
Proof.
  induction l as [|x l IH]; [reflexivity|].
  cbn [rev forallb]. rewrite forallb_app, IH. cbn [forallb].
  rewrite andb_true_r. apply andb_comm.
Qed.

Lemma TrimSpace_dash s :
  isASCII s = true ->
  TrimSpace u (map_string dash s) = map_string dash (TrimSpace u s).
Proof.
  intros H. unfold TrimSpace.
  destruct (trim_start_dash s H) as (t & -> & Ht & ->).
  rewrite map_string_list, <- map_rev. apply trim_stop_dash.
  rewrite forallb_reversed, <- isASCII_list. exact Ht.
Qed.

Lemma isASCII_lower s : isASCII s = true -> isASCII (map_string lower s) = true.
Proof.
  unfold isASCII. induction s as [|c s IH]; [reflexivity|].
  cbn [map_string all_bytes]. intros H.
  apply andb_true_iff in H as [Hc Hs]. rewrite (IH Hs), andb_true_r.
  revert Hc. destruct c as [[] [] [] [] [] [] [] []]; vm_compute; auto.
Qed.

(** On a name without a byte above 0x7F, [normalizeEncoding] is a function
    of its canonical form. *)
Lemma normalizeEncoding_canonical s :
  isASCII s = true ->
  normalizeEncoding u s =
  (let s := ReplaceAll (TrimSpace u (canonical s)) "charset=" "" in
   let s := ReplaceAll s "cs" "" in
   let s := TrimPrefix s "" in
   if String.eqb s "utf8" then "utf-8"%string
   else if String.eqb s "c" then "C"%string
   else if String.eqb s "posix" then "POSIX"%string
   else s).
Proof.
  intros H. unfold normalizeEncoding, canonical, ToLower. rewrite H.
  rewrite ReplaceAll_underscore, TrimSpace_dash by (apply isASCII_lower, H).
  reflexivity.
Qed.

Lemma contains_removed c old k t :
  contains c t = false -> contains c (replace_from old EmptyString k t) = false.
Proof.
  revert k. induction t as [|x t IH]; intros k H; [reflexivity|].
  cbn [contains] in H. apply orb_false_elim in H as [Hx Ht].
  cbn [replace_from]. destruct k as [|k]; [|apply IH, Ht].
  destruct (String.prefix old (String x t)).
  - change (String.append EmptyString ?s) with s. apply IH, Ht.
  - cbn [contains]. rewrite Hx. apply IH, Ht.
Qed.

Lemma contains_dash t : contains "_" (map_string dash t) = false.
Proof.
  induction t as [|c t IH]; [reflexivity|].
  cbn [map_string contains]. rewrite IH, orb_false_r.
  unfold dash. destruct (Ascii.eqb c "_") eqn:E; [reflexivity | exact E].
Qed.

Lemma TrimPrefix_empty s : TrimPrefix s EmptyString = s.
Proof. unfold TrimPrefix. destruct s; reflexivity. Qed.

(** X20.  [normalizeEncoding] never returns a name with an underscore;
    and on names without a byte above 0x7F it tells neither upper from
    lower case nor '_' from '-': two names with the same canonical form are
    normalised to the same name. *)
Theorem encoding_names_ignore_case_and_underscores (s t : string) :
  contains "_" (normalizeEncoding u s) = false /\
  (isASCII s = true -> isASCII t = true -> canonical s = canonical t ->
   normalizeEncoding u s = normalizeEncoding u t).
Proof.
  split.
  - unfold normalizeEncoding. rewrite ReplaceAll_underscore, TrimPrefix_empty.
    set (r := ReplaceAll (ReplaceAll _ "charset=" "") "cs" "").
    assert (Hr : contains "_" r = false).
    { unfold r, ReplaceAll. apply contains_removed, contains_removed.
      apply contains_dash. }
    destruct (String.eqb r "utf8"); [reflexivity|].
    destruct (String.eqb r "c"); [reflexivity|].
    destruct (String.eqb r "posix"); [reflexivity | exact Hr].
  - intros Hs Ht Hc.
    rewrite (normalizeEncoding_canonical s Hs),
      (normalizeEncoding_canonical t Ht), Hc. reflexivity.
Qed.

End DetectionFacts.

Lemma locale_from_the_environment_witness :
  Detect ascii_only_text EmptyString (env3 "" "" "en_US") =
    locale.mkInfo "utf-8" true false /\
  Detect ascii_only_text EmptyString (env3 "" "en_US." "C") =
    locale.mkInfo "utf-8" true false /\
  Detect ascii_only_text EmptyString (env3 "a.b." "" "") =
    locale.mkInfo "b." false false.
Proof.
  split; [|split].
  - refine (proj1 (proj2 (proj2 (locale_from_the_environment ascii_only_text
                                   (env3 "" "" "en_US")))) _ _ _).
    + discriminate.
    + discriminate.
    + left. reflexivity.
  - refine (proj1 (proj2 (proj2 (locale_from_the_environment ascii_only_text
                                   (env3 "" "en_US." "C")))) _ _ _).
    + discriminate.
    + discriminate.
    + right. reflexivity.
  - refine (eq_trans
              (proj2 (proj2 (proj2 (locale_from_the_environment
                                      ascii_only_text (env3 "a.b." "" ""))))
                     _) _).
    + vm_compute. split; [discriminate | reflexivity].
    + vm_compute. reflexivity.
Defined.

Lemma encoding_names_ignore_case_and_underscores_witness :
  normalizeEncoding ascii_only_text "ISO_8859_1" =
  normalizeEncoding ascii_only_text "iso-8859-1".
Proof.
  refine (proj2 (encoding_names_ignore_case_and_underscores ascii_only_text
                   "ISO_8859_1" "iso-8859-1") _ _ _); reflexivity.
Defined.
